(** * miniredis: the stream commands (cmd_stream.go)

    A shallow embedding of the stream command handlers of miniredis and of
    the stream engine they call, with the properties the specification
    states about them.

    Conventions.
    - Go's [int] is taken to be 64 bits wide.
    - A [*server.Peer] is modelled by the list of calls made on it
      ([peerEvent]), in order.
    - A handler runs on an authenticated connection that is not in pubsub
      mode and not inside MULTI, so [withTx] runs its callback at once; the
      callback receives the database and returns the database it leaves.
    - [map[string]T] is a [gmap string T]; a Go slice is a [list].
    - cmd_stream.go is the one file of the stream engine at hand. What it
      calls in other files of the package (the stream log, the consumer
      groups, the database, the blocking helper) is modelled from the
      specification, each definition saying so; message texts and the case
      mappings of package strings are parameters ([Externals]).
    - The string commands of the second source file are embedded in the
      module [cmd_string], with conventions of their own. *)

From Stdlib Require Import ZArith String Ascii List Lia.
From stdpp Require Import gmap strings list fin_maps sorting pretty.

Local Open Scope Z_scope.

(** ** Go library functions *)

Module strconv.

Definition digit (c : ascii) : option N :=
  let n := N_of_ascii c in
  if ((48 <=? n) && (n <=? 57))%N then Some (n - 48)%N else None.

Fixpoint digits (s : string) (acc : N) : option N :=
  match s with
  | EmptyString => Some acc
  | String c r =>
      match digit c with
      | Some d => digits r (acc * 10 + d)%N
      | None => None
      end
  end.

(** A non-empty run of decimal digits, as a number. *)
Definition number (s : string) : option N :=
  match s with
  | EmptyString => None
  | _ => digits s 0%N
  end.

Definition maxUint64 : N := 18446744073709551615%N.

(** [strconv.ParseUint(s, 10, 64)]: [None] stands for any error. *)
Definition ParseUint (s : string) : option N :=
  match number s with
  | Some n => if (n <=? maxUint64)%N then Some n else None
  | None => None
  end.

(** [strconv.Atoi]: an optional sign, decimal digits, and the value has to
    fit an [int]; [None] stands for any error. *)
Definition Atoi (s : string) : option Z :=
  match s with
  | EmptyString => None
  | String c r =>
      let '(neg, body) :=
        if Ascii.eqb c "-" then (true, r)
        else if Ascii.eqb c "+" then (false, r)
        else (false, s) in
      match number body with
      | Some n =>
          let v := if neg then - Z.of_N n else Z.of_N n in
          if (- 2 ^ 63 <=? v) && (v <? 2 ^ 63) then Some v else None
      | None => None
      end
  end.

(** [strconv.Itoa] *)
Definition Itoa (n : Z) : string := pretty n.

End strconv.

(** Reduction of a 64-bit signed product or sum to its representative. *)
Definition wrap64 (z : Z) : Z := (z + 2 ^ 63) mod 2 ^ 64 - 2 ^ 63.

Definition maxInt64 : Z := 2 ^ 63 - 1.
Definition minInt64 : Z := - 2 ^ 63.

(** [time.Time] as nanoseconds on the monotonic virtual clock, and
    [time.Duration] as a signed 64-bit count of nanoseconds. *)
Module time.
Definition Time := Z.
Definition Duration := Z.

(** [t.Sub(u)]: the difference, saturated to the range of a Duration. *)
Definition Sub (t u : Time) : Duration :=
  let d := t - u in
  if d <? minInt64 then minInt64
  else if maxInt64 <? d then maxInt64
  else d.

(** [d.Milliseconds()]: integer division, rounding towards zero. *)
Definition Milliseconds (d : Duration) : Z := Z.quot d 1000000.

Definition Millisecond : Duration := 1000000.

(** Milliseconds since the epoch, as the ID generator reads them. *)
Definition UnixMilli (t : Time) : Z := t / 1000000.
End time.

(** ** Constants and helpers declared in other files of the package

    The message texts and the case mappings are not part of cmd_stream.go;
    the development is parametric in them. *)
Class Externals := {
  ToLower : string → string;            (* strings.ToLower *)
  ToUpper : string → string;            (* strings.ToUpper *)
  errWrongNumber : string → string;
  msgInvalidInt : string;
  msgInvalidStreamID : string;
  msgSyntaxError : string;
  msgXreadUnbalanced : string;
  msgWrongType : string;                (* ErrWrongType.Error() *)
  msgInvalidEntryID : string;           (* errInvalidEntryID.Error() *)
  msgStreamIDTooSmall : string;         (* the text of the ID-ordering error *)
  msgXreadgroup : string → string → string;  (* errXreadgroup(key, group).Error() *)
  msgAtoi : string → string;            (* the text of the error of strconv.Atoi *)
  msgReadgroup : string → string → string;   (* errReadgroup(key, group).Error() *)
}.

(** Go [error] values, as far as the handlers tell them apart. *)
Inductive error :=
| errInvalidEntryID
| ErrWrongType
| errIDOrder
| errorString (msg : string).

Definition Error `{Externals} (e : error) : string :=
  match e with
  | errInvalidEntryID => msgInvalidEntryID
  | ErrWrongType => msgWrongType
  | errIDOrder => msgStreamIDTooSmall
  | errorString m => m
  end.

Definition errXreadgroup `{Externals} (key group : string) : error :=
  errorString (msgXreadgroup key group).

(** The calls a handler makes on its [*server.Peer], the call of [setDirty],
    and [Panic] for a run-time panic (an index out of range, a nil
    pointer), after which nothing else happens. *)
Inductive peerEvent :=
| SetDirty
| WriteError (msg : string)
| WriteBulk (s : string)
| WriteInt (n : Z)
| WriteLen (n : Z)
| WriteNull
| WriteOK
| Panic.

(** ** Data model

    Modelled from the spec: the type declarations are missing from the
    sources. The fields are those the handlers use ([ID], [Values],
    [entries], [pending], [consumers], the fields of a pending entry,
    [streamKeys], [keyVersion], [keys]) and those of the data model of the
    spec (the cursor [lastID] of a group, the [groups] of a stream, and the
    previous maximum ID of a stream, which its invariant speaks of). An ID
    is the pair of numbers its text stands for. *)

(** An entry ID, "<millis>-<seq>", both parts uint64. *)
Record StreamEntryID := mkID { millis : N; seq : N }.

Global Instance StreamEntryID_eq_dec : EqDecision StreamEntryID.
Proof. solve_decision. Defined.

Record StreamEntry := mkEntry { ID : StreamEntryID; Values : list string }.

Record pendingEntry := mkPending {
  pid : StreamEntryID;
  consumer : string;
  deliveryCount : Z;
  lastDelivery : time.Time;
}.

Record streamGroup := mkGroup {
  lastID : StreamEntryID;
  pending : list pendingEntry;
  consumers : gmap string unit;
}.

(** [lastEntryID] is the previous maximum ID of the stream: the ID of the
    entry appended last, kept when that entry is trimmed or deleted. *)
Record streamKey := mkStream {
  entries : list StreamEntry;
  lastEntryID : option StreamEntryID;
  groups : gmap string streamGroup;
}.

Record RedisDB := mkDB {
  keys : gmap string string;
  streamKeys : gmap string streamKey;
  keyVersion : gmap string Z;
}.

(** ** Entry IDs *)

Definition minID : StreamEntryID := mkID 0 0.
Definition maxID : StreamEntryID := mkID strconv.maxUint64 strconv.maxUint64.

(** Modelled from the spec: [streamCmp] is missing from the sources; the
    three-way comparison is lexicographic on (millis, seq). *)
Definition streamCmp (a b : StreamEntryID) : Z :=
  match (millis a ?= millis b)%N with
  | Lt => -1
  | Gt => 1
  | Eq =>
      match (seq a ?= seq b)%N with
      | Lt => -1
      | Gt => 1
      | Eq => 0
      end
  end.

(** The text of an ID. *)
Definition formatStreamID (i : StreamEntryID) : string :=
  pretty (millis i) +:+ "-" +:+ pretty (seq i).

(** The part of [s] before the first "-", and the part after it if there
    is one ([strings.SplitN(s, "-", 2)]). *)
Fixpoint splitDash (s : string) : string * option string :=
  match s with
  | EmptyString => (EmptyString, None)
  | String c r =>
      if Ascii.eqb c "-" then (EmptyString, Some r)
      else let '(a, b) := splitDash r in (String c a, b)
  end.

(** Modelled from the spec: [parseStreamID] is missing from the sources; it
    accepts "<millis>-<seq>" and "<millis>", and fails on a malformed
    numeric part. The sequence a bare "<millis>" stands for depends on the
    caller, so it is the argument [dflt]. *)
Definition parseStreamIDWith (dflt : N) (s : string) : option StreamEntryID :=
  let '(a, b) := splitDash s in
  match strconv.ParseUint a with
  | None => None
  | Some ms =>
      match b with
      | None => Some (mkID ms dflt)
      | Some b =>
          match strconv.ParseUint b with
          | Some sq => Some (mkID ms sq)
          | None => None
          end
      end
  end.

Definition parseStreamID (s : string) : option StreamEntryID :=
  parseStreamIDWith 0 s.

(** Modelled from the spec: [formatStreamRangeBound] is missing from the
    sources; "-" is the minimum ID and "+" the maximum one, a missing
    sequence is 0 for a start bound and the maximum for an end bound, and a
    reversed scan swaps the two roles. *)
Definition formatStreamRangeBound (id : string) (start reverse : bool)
  : option StreamEntryID :=
  if String.eqb id "-" then Some minID
  else if String.eqb id "+" then Some maxID
  else
    let lower := xorb start reverse in
    parseStreamIDWith (if lower then 0%N else strconv.maxUint64) id.

(** ** The stream log *)

(** Modelled from the spec: [newStreamKey] is missing from the sources; a
    stream starts without entries and without groups. *)
Definition newStreamKey : streamKey := mkStream [] None ∅.

Definition withEntries (s : streamKey) (es : list StreamEntry) : streamKey :=
  mkStream es (lastEntryID s) (groups s).

Definition withGroups (s : streamKey) (gs : gmap string streamGroup) : streamKey :=
  mkStream (entries s) (lastEntryID s) gs.

(** [uint64] truncation of a millisecond clock reading. *)
Definition nowMillis (now : time.Time) : N :=
  Z.to_N (time.UnixMilli now mod 2 ^ 64).

(** Modelled from the spec: the ID generation of [add] is missing from the
    sources; the new ID has millis = max(now_ms, last.millis), and
    seq = 0 if that is above last.millis, else last.seq + 1 (a uint64
    addition). *)
Definition generateID (now : time.Time) (s : streamKey) : StreamEntryID :=
  match lastEntryID s with
  | None => mkID (nowMillis now) 0
  | Some l =>
      let ms := N.max (nowMillis now) (millis l) in
      if (millis l <? ms)%N then mkID ms 0
      else mkID ms ((seq l + 1) mod 2 ^ 64)%N
  end.

(** Whether [i] may follow the previous maximum ID. *)
Definition follows (i : StreamEntryID) (last : option StreamEntryID) : bool :=
  match last with
  | None => true
  | Some l => streamCmp i l =? 1
  end.

(** Modelled from the spec: [streamKey.add] is missing from the sources; "*"
    asks for a generated ID, any other token is parsed (a malformed one is
    the invalid-ID error), and the ID has to be strictly greater than the
    previous maximum ID of the stream, else the ID-ordering error. On
    success the entry is appended and the text of its ID returned. *)
Definition add (entryID : string) (values : list string) (now : time.Time)
    (s : streamKey) : error + (streamKey * string) :=
  let parsed :=
    if String.eqb entryID "*" then Some (generateID now s)
    else parseStreamID entryID in
  match parsed with
  | None => inl errInvalidEntryID
  | Some i =>
      if follows i (lastEntryID s)
      then inr (mkStream (entries s ++ [mkEntry i values]) (Some i) (groups s),
                formatStreamID i)
      else inl errIDOrder
  end.

(** Modelled from the spec: [streamKey.trim] is missing from the sources; it
    keeps the most recent [n] entries and does nothing when the stream is
    within the bound. *)
Definition trim (n : Z) (s : streamKey) : streamKey :=
  if 0 <=? n
  then withEntries s (drop (length (entries s) - Z.to_nat n)%nat (entries s))
  else s.

(** Modelled from the spec: [streamKey.delete] is missing from the sources
    (named [deleteEntries] here, [delete] being the map operation); it
    removes the entries whose ID is one of [ids] and counts them. *)
Definition deleteEntries (ids : list StreamEntryID) (s : streamKey)
  : streamKey * Z :=
  let kept := filter (λ e, ID e ∉ ids) (entries s) in
  (withEntries s kept,
   Z.of_nat (length (entries s)) - Z.of_nat (length kept)).

(** The streams a key can hold: what [add], [trim], [delete] and changes to
    the groups make of a new stream. *)
Inductive reachable : streamKey → Prop :=
| reach_new : reachable newStreamKey
| reach_add s entryID values now s' newID :
    reachable s → add entryID values now s = inr (s', newID) → reachable s'
| reach_trim s n : reachable s → reachable (trim n s)
| reach_delete s ids : reachable s → reachable (deleteEntries ids s).1
| reach_groups s gs : reachable s → reachable (withGroups s gs).

(** Strictly ascending by ID. *)
Definition ascending (es : list StreamEntry) : Prop :=
  StronglySorted (λ a b, streamCmp (ID a) (ID b) = -1) es.

Definition descending (es : list StreamEntry) : Prop :=
  StronglySorted (λ a b, streamCmp (ID a) (ID b) = 1) es.

(** ** The consumer groups *)

(** Modelled from the spec: [streamGroup.pendingCount] is missing from the
    sources; it counts the pending rows the consumer owns. *)
Definition pendingCount (g : streamGroup) (name : string) : Z :=
  Z.of_nat (length (filter (λ p, consumer p = name) (pending g))).

(** The entries a [>] read has not delivered yet. *)
Definition undelivered (s : streamKey) (g : streamGroup) : list StreamEntry :=
  filter (λ e, streamCmp (ID e) (lastID g) = 1) (entries s).

(** Modelled from the spec: [streamGroup.readGroup] is missing from the
    sources. It registers the consumer. Under [>] it delivers the entries
    above the cursor, at most [count] of them when [count] is positive,
    moves the cursor to the last one delivered and, unless [noack], adds a
    pending row with delivery count 1 for each. Under a concrete ID it
    replays the entries of the consumer's own pending rows above that ID and
    changes neither the cursor nor the pending rows. *)
Definition readGroup (now : time.Time) (name id : string) (count : Z)
    (noack : bool) (s : streamKey) (g : streamGroup)
  : streamGroup * list StreamEntry :=
  let cs := <[name := tt]> (consumers g) in
  if String.eqb id ">" then
    let fresh := undelivered s g in
    let msgs := if 0 <? count then take (Z.to_nat count) fresh else fresh in
    let cursor := match last msgs with Some e => ID e | None => lastID g end in
    let rows :=
      if noack then []
      else (λ e, mkPending (ID e) name 1 now) <$> msgs in
    (mkGroup cursor (pending g ++ rows) cs, msgs)
  else
    let own :=
      match parseStreamID id with
      | Some i =>
          filter (λ p, consumer p = name ∧ streamCmp (pid p) i = 1) (pending g)
      | None => []
      end in
    (mkGroup (lastID g) (pending g) cs,
     omap (λ p, snd <$> list_find (λ e, ID e = pid p) (entries s)) own).

(** Modelled from the spec: [streamGroup.ack] is missing from the sources;
    it removes the pending rows whose ID is one of [ids], whoever owns them,
    and counts them. *)
Definition ack (ids : list StreamEntryID) (g : streamGroup) : streamGroup * Z :=
  let kept := filter (λ p, pid p ∉ ids) (pending g) in
  (mkGroup (lastID g) kept (consumers g),
   Z.of_nat (length (pending g)) - Z.of_nat (length kept)).

(** ** The database *)

(** Modelled from the spec: [RedisDB.exists] and [RedisDB.t] are missing from
    the sources; [keys] maps each key present to the name of its type. *)
Definition exists_ (db : RedisDB) (key : string) : bool :=
  bool_decide (is_Some (keys db !! key)).

Definition t (db : RedisDB) (key : string) : string :=
  default EmptyString (keys db !! key).

Definition isStream (db : RedisDB) (key : string) : bool :=
  String.eqb (t db key) "stream".

(** Modelled from the spec: [RedisDB.stream] is missing from the sources; a
    key holding a value that is not a stream is the wrong-type error, a key
    that is not there is no stream. *)
Definition stream (db : RedisDB) (key : string) : error + option streamKey :=
  if exists_ db key && negb (isStream db key) then inl ErrWrongType
  else inr (streamKeys db !! key).

(** Modelled from the spec: [RedisDB.newStream] is missing from the sources;
    it registers [key] as a stream and stores a new, empty one. *)
Definition newStream (db : RedisDB) (key : string) : RedisDB * streamKey :=
  (mkDB (<[key := "stream"%string]> (keys db))
        (<[key := newStreamKey]> (streamKeys db))
        (keyVersion db),
   newStreamKey).

(** Modelled from the spec: [RedisDB.streamGroup] is missing from the
    sources; the group of that name in the stream at [key], if both are
    there, and the wrong-type error of [stream]. *)
Definition streamGroupOf (db : RedisDB) (key group : string)
  : error + option streamGroup :=
  match stream db key with
  | inl e => inl e
  | inr None => inr None
  | inr (Some s) => inr (groups s !! group)
  end.

(** Stores [s] at [key]: the handlers hold a pointer into [streamKeys], so
    what they do to the stream is seen through the map. *)
Definition putStream (db : RedisDB) (key : string) (s : streamKey) : RedisDB :=
  mkDB (keys db) (<[key := s]> (streamKeys db)) (keyVersion db).

(** [db.keyVersion[key]++] *)
Definition bumpVersion (db : RedisDB) (key : string) : RedisDB :=
  mkDB (keys db) (streamKeys db)
       (<[key := (default 0 (keyVersion db !! key) + 1) mod 2 ^ 64]>
          (keyVersion db)).

(** ** XADD (cmd_stream.go, cmdXadd) *)

(** [len(xs)] *)
Definition len {A} (xs : list A) : Z := Z.of_nat (length xs).

Section handlers.
Context `{Externals}.

(** The optional MAXLEN clause: the bound (-1 when there is none) and the
    arguments left, or the reply that ends the command. *)
Definition xaddMaxlen (args : list string)
  : list peerEvent + (Z * list string) :=
  match args with
  | [] => inl [Panic]
  | a0 :: args1 =>
      if String.eqb (ToLower a0) "maxlen" then
        match args1 with
        | [] => inl [Panic]
        | a1 :: args2 =>
            (* we don't treat "~" special *)
            let args3 := if String.eqb a1 "~" then args2 else args1 in
            match args3 with
            | [] => inl [Panic]
            | a :: args4 =>
                match strconv.Atoi a with
                | None => inl [WriteError msgInvalidInt]
                | Some n =>
                    if n <? 0
                    then inl [WriteError "ERR The MAXLEN argument must be >= 0."]
                    else inr (n, args4)
                end
            end
        end
      else inr (-1, args)
  end.

(** The loop that copies the field/value pairs, two at a time. *)
Fixpoint xaddValues (args : list string) : option (list string) :=
  match args with
  | [] => Some []
  | [_] => None
  | f :: v :: rest =>
      match xaddValues rest with
      | Some vs => Some (f :: v :: vs)
      | None => None
      end
  end.

(** From the lookup of the stream to the reply. *)
Definition xaddStore (now : time.Time) (db : RedisDB) (key : string)
    (maxlen : Z) (entryID : string) (values : list string)
  : RedisDB * list peerEvent :=
  match stream db key with
  | inl err => (db, [WriteError (Error err)])
  | inr found =>
      let '(db1, s) :=
        match found with
        | Some s => (db, s)
        | None => newStream db key  (* TODO: NOMKSTREAM *)
        end in
      match add entryID values now s with
      | inl err =>
          (db1, [WriteError match err with
                            | errInvalidEntryID => msgInvalidStreamID
                            | _ => Error err
                            end])
      | inr (s1, newID) =>
          let s2 := if 0 <=? maxlen then trim maxlen s1 else s1 in
          (bumpVersion (putStream db1 key s2) key, [WriteBulk newID])
      end
  end.

(** The callback given to [withTx]. *)
Definition xaddTx (now : time.Time) (db : RedisDB) (cmd key : string)
    (args : list string) : RedisDB * list peerEvent :=
  match xaddMaxlen args with
  | inl out => (db, out)
  | inr (maxlen, args) =>
      if len args <? 1 then (db, [WriteError (errWrongNumber cmd)])
      else
        match args with
        | [] => (db, [Panic])
        | entryID :: args =>
            (* args must be composed of field/value pairs. *)
            if (len args =? 0) || negb (Z.rem (len args) 2 =? 0)
            then (db, [WriteError "ERR wrong number of arguments for XADD"])
            else
              match xaddValues args with
              | None => (db, [Panic])
              | Some values => xaddStore now db key maxlen entryID values
              end
        end
  end.

Definition cmdXadd (now : time.Time) (db : RedisDB) (cmd : string)
    (args : list string) : RedisDB * list peerEvent :=
  if len args <? 4 then (db, [SetDirty; WriteError (errWrongNumber cmd)])
  else
    match args with
    | [] => (db, [Panic])
    | key :: args => xaddTx now db cmd key args
    end.

(** ** XRANGE and XREVRANGE (makeCmdXrange) *)

(** Modelled from the spec: [reversedStreamEntries] is missing from the
    sources; the entries in the opposite order. *)
Definition reversedStreamEntries (es : list StreamEntry) : list StreamEntry :=
  reverse es.

(** The scan loop; [returned] is [returnedEntries]. *)
Fixpoint xrangeLoop (reverse : bool) (start end_ : StreamEntryID) (count : Z)
    (es returned : list StreamEntry) : list StreamEntry :=
  match es with
  | [] => returned
  | entry :: rest =>
      if len returned =? count then returned
      else if negb reverse then
        (* Break if entry ID > end *)
        if streamCmp (ID entry) end_ =? 1 then returned
        (* Continue if entry ID < start *)
        else if streamCmp (ID entry) start =? -1
        then xrangeLoop reverse start end_ count rest returned
        else xrangeLoop reverse start end_ count rest (returned ++ [entry])
      else
        (* Break if entry ID < end *)
        if streamCmp (ID entry) end_ =? -1 then returned
        (* Continue if entry ID > start. *)
        else if streamCmp (ID entry) start =? 1
        then xrangeLoop reverse start end_ count rest returned
        else xrangeLoop reverse start end_ count rest (returned ++ [entry])
  end.

(** The entries a range command returns for a stream holding [es]. *)
Definition xrangeEntries (reverse : bool) (start end_ : StreamEntryID)
    (count : Z) (es : list StreamEntry) : list StreamEntry :=
  let es := if reverse then reversedStreamEntries es else es in
  let count := if count =? 0 then len es else count in
  xrangeLoop reverse start end_ count es [].

(** One entry on the wire: its ID and the flat list of its values. *)
Definition writeEntry (entry : StreamEntry) : list peerEvent :=
  [WriteLen 2; WriteBulk (formatStreamID (ID entry)); WriteLen (len (Values entry))]
  ++ (WriteBulk <$> Values entry).

Definition writeEntries (es : list StreamEntry) : list peerEvent :=
  WriteLen (len es) :: (es ≫= writeEntry).

(** The callback given to [withTx]. *)
Definition xrangeTx (reverse : bool) (db : RedisDB)
    (key startKey endKey countArg : string) : list peerEvent :=
  match formatStreamRangeBound startKey true reverse with
  | None => [WriteError msgInvalidStreamID]
  | Some start =>
      match formatStreamRangeBound endKey false reverse with
      | None => [WriteError msgInvalidStreamID]
      | Some end_ =>
          match strconv.Atoi countArg with
          | None => [WriteError msgInvalidInt]
          | Some count =>
              if negb (exists_ db key) then [WriteLen 0]
              else if negb (isStream db key) then [WriteError (Error ErrWrongType)]
              else
                match streamKeys db !! key with
                | None => [Panic]
                | Some s =>
                    writeEntries (xrangeEntries reverse start end_ count (entries s))
                end
          end
      end
  end.

Definition makeCmdXrange (reverse : bool) (db : RedisDB) (cmd : string)
    (args : list string) : list peerEvent :=
  if len args <? 3 then [SetDirty; WriteError (errWrongNumber cmd)]
  else if (len args =? 4) || (5 <? len args)
  then [SetDirty; WriteError msgSyntaxError]
  else
    match args with
    | key :: startKey :: endKey :: opt =>
        match opt with
        | [a3; a4] =>
            if negb (String.eqb (ToLower a3) "count")
            then [SetDirty; WriteError msgSyntaxError]
            else xrangeTx reverse db key startKey endKey a4
        | _ => xrangeTx reverse db key startKey endKey "0"
        end
    | _ => [Panic]
    end.

(** ** XREADGROUP (cmdXreadgroup, xreadgroup, writeXread, parseBlock) *)

Record readOpts := mkOpts {
  opt_group : string;
  opt_consumer : string;
  opt_count : Z;
  opt_noack : bool;
  opt_streams : list string;
  opt_ids : list string;
  opt_block : bool;
  opt_blockTimeout : time.Duration;
}.

Definition setCount (o : readOpts) (n : Z) : readOpts :=
  mkOpts (opt_group o) (opt_consumer o) n (opt_noack o) (opt_streams o)
         (opt_ids o) (opt_block o) (opt_blockTimeout o).

Definition setNoack (o : readOpts) : readOpts :=
  mkOpts (opt_group o) (opt_consumer o) (opt_count o) true (opt_streams o)
         (opt_ids o) (opt_block o) (opt_blockTimeout o).

Definition setStreams (o : readOpts) (streams ids : list string) : readOpts :=
  mkOpts (opt_group o) (opt_consumer o) (opt_count o) (opt_noack o) streams ids
         (opt_block o) (opt_blockTimeout o).

Definition setBlock (o : readOpts) (b : bool) (d : time.Duration) : readOpts :=
  mkOpts (opt_group o) (opt_consumer o) (opt_count o) (opt_noack o)
         (opt_streams o) (opt_ids o) b d.

(** [parseBlock]: [opts.block] is set before the timeout is read. *)
Definition parseBlock (cmd : string) (args : list string) (o : readOpts)
  : readOpts * option string :=
  match args with
  | _ :: a1 :: _ =>
      let o := setBlock o true (opt_blockTimeout o) in
      match strconv.Atoi a1 with
      | None => (o, Some msgInvalidInt)
      | Some ms =>
          if ms <? 0 then (o, Some "ERR timeout is negative"%string)
          else (setBlock o true (wrap64 (time.Millisecond * ms)), None)
      end
  | _ => (o, Some (errWrongNumber cmd))
  end.

(** The option loop of [cmdXreadgroup]: the options read and the error that
    ended the loop, if any. *)
Fixpoint xreadgroupArgs (cmd : string) (args : list string) (o : readOpts)
  : readOpts * option string :=
  match args with
  | [] => (o, None)
  | a0 :: rest =>
      let kw := ToUpper a0 in
      if String.eqb kw "COUNT" then
        match rest with
        | [] => (o, Some (errWrongNumber cmd))
        | a1 :: rest2 =>
            match strconv.Atoi a1 with
            | None => (o, Some (msgAtoi a1))
            | Some n => xreadgroupArgs cmd rest2 (setCount o n)
            end
        end
      else if String.eqb kw "BLOCK" then
        match rest with
        | [] => parseBlock cmd args o
        | _ :: rest2 =>
            match parseBlock cmd args o with
            | (o, Some e) => (o, Some e)
            | (o, None) => xreadgroupArgs cmd rest2 o
            end
        end
      else if String.eqb kw "NOACK" then xreadgroupArgs cmd rest (setNoack o)
      else if String.eqb kw "STREAMS" then
        if negb (Z.rem (len rest) 2 =? 0) then (o, Some msgXreadUnbalanced)
        else
          let half := (length rest / 2)%nat in
          (setStreams o (take half rest) (drop half rest), None)
      else (o, Some ("ERR incorrect argument " +:+ a0))
  end.

(** The loop of [xreadgroup] over the requested streams; [reqs] pairs
    [streams[i]] with [ids[i]], the handler passing as many IDs as streams.
    [res] is the map the loop fills. The group is reached through a pointer,
    so what [readGroup] does to it is stored. *)
Fixpoint xreadgroupLoop (db : RedisDB) (group name : string) (noack : bool)
    (reqs : list (string * string)) (count : Z) (now : time.Time)
    (res : gmap string (list StreamEntry))
  : RedisDB * (error + gmap string (list StreamEntry)) :=
  match reqs with
  | [] => (db, inr res)
  | (key, id) :: rest =>
      match streamGroupOf db key group with
      | inl err => (db, inl err)
      | inr None => (db, inl (errXreadgroup key group))
      | inr (Some g) =>
          if negb (String.eqb id ">") && negb (bool_decide (is_Some (parseStreamID id)))
          then (db, inl errInvalidEntryID)
          else
            let s := default newStreamKey (streamKeys db !! key) in
            let '(g1, es) := readGroup now name id count noack s g in
            let db1 := putStream db key (withGroups s (<[group := g1]> (groups s))) in
            if String.eqb id ">" && (len es =? 0)
            then xreadgroupLoop db1 group name noack rest count now res
            else xreadgroupLoop db1 group name noack rest count now (<[key := es]> res)
      end
  end.

Definition xreadgroup (db : RedisDB) (group name : string) (noack : bool)
    (streams ids : list string) (count : Z) (now : time.Time)
  : RedisDB * (error + gmap string (list StreamEntry)) :=
  xreadgroupLoop db group name noack (zip streams ids) count now ∅.

Definition writeXread (streams : list string)
    (res : gmap string (list StreamEntry)) : list peerEvent :=
  if Z.of_nat (size res) =? 0 then [WriteLen (-1)]
  else
    WriteLen (Z.of_nat (size res))
    :: (streams ≫= λ stream,
          match res !! stream with
          | None => []
          | Some es =>
              [WriteLen 2; WriteBulk stream; WriteLen (len es)] ++ (es ≫= writeEntry)
          end).

(** What a command leaves behind: a reply, or a reader parked with the
    blocking coordinator. *)
Inductive outcome :=
| Replied (db : RedisDB) (out : list peerEvent)
| Waiting (db : RedisDB) (timeout : time.Duration).

(** Modelled from the spec: [blocking] is missing from the sources; it calls
    the callback once, and if the callback is not done it parks the reader
    until a key changes, the timeout passes or the connection goes. *)
Definition blocking (timeout : time.Duration)
    (cb : RedisDB → RedisDB * option (list peerEvent)) (db : RedisDB) : outcome :=
  match cb db with
  | (db1, Some out) => Replied db1 out
  | (db1, None) => Waiting db1 timeout
  end.

(** The group, consumer and options of the command line, up to the error
    check that follows the option loop. *)
Definition xreadgroupOpts (cmd : string) (args : list string)
  : list peerEvent + readOpts :=
  if len args <? 6 then inl [SetDirty; WriteError (errWrongNumber cmd)]
  else
    match args with
    | a0 :: group :: name :: args =>
        if negb (String.eqb (ToUpper a0) "GROUP")
        then inl [SetDirty; WriteError msgSyntaxError]
        else
          match xreadgroupArgs cmd args
                  (mkOpts group name 0 false [] [] false 0) with
          | (_, Some e) => inl [SetDirty; WriteError e]
          | (o, None) =>
              if (len (opt_streams o) =? 0) || (len (opt_ids o) =? 0)
              then inl [SetDirty; WriteError (errWrongNumber cmd)]
              else inr o
          end
    | _ => inl [Panic]
    end.

(** [for _, id := range opts.ids { if id != ">" { opts.block = false } }] *)
Definition blockAfterIDs (o : readOpts) : bool :=
  fold_left (λ b id, if negb (String.eqb id ">") then false else b)
            (opt_ids o) (opt_block o).

Definition cmdXreadgroup (now : time.Time) (db : RedisDB) (cmd : string)
    (args : list string) : outcome :=
  match xreadgroupOpts cmd args with
  | inl out => Replied db out
  | inr o =>
      let run db :=
        xreadgroup db (opt_group o) (opt_consumer o) (opt_noack o)
                   (opt_streams o) (opt_ids o) (opt_count o) now in
      if negb (blockAfterIDs o) then
        match run db with
        | (db1, inl err) => Replied db1 [WriteError (Error err)]
        | (db1, inr res) => Replied db1 (writeXread (opt_streams o) res)
        end
      else
        blocking (opt_blockTimeout o)
          (λ db,
             match run db with
             | (db1, inl err) => (db1, Some [WriteError (Error err)])
             | (db1, inr res) =>
                 if Z.of_nat (size res) =? 0 then (db1, None)
                 else (db1, Some (writeXread (opt_streams o) res))
             end)
          db
  end.

(** ** XACK (cmdXack) *)

(** The IDs of an XACK, parsed; a malformed one is the invalid-ID error. *)
Definition ackTokens (ids : list string) (g : streamGroup)
  : error + (streamGroup * Z) :=
  match mapM parseStreamID ids with
  | None => inl errInvalidEntryID
  | Some parsed => inr (ack parsed g)
  end.

Definition cmdXack (db : RedisDB) (cmd : string) (args : list string)
  : RedisDB * list peerEvent :=
  if len args <? 3 then (db, [SetDirty; WriteError (errWrongNumber cmd)])
  else
    match args with
    | key :: group :: ids =>
        match streamGroupOf db key group with
        | inl err => (db, [WriteError (Error err)])
        | inr None => (db, [WriteInt 0])
        | inr (Some g) =>
            match ackTokens ids g with
            | inl err => (db, [WriteError (Error err)])
            | inr (g1, cnt) =>
                let s := default newStreamKey (streamKeys db !! key) in
                (putStream db key (withGroups s (<[group := g1]> (groups s))),
                 [WriteInt cnt])
            end
        end
    | _ => (db, [Panic])
    end.

(** ** XPENDING (writeXpendingSummary, writeXpending) *)

(** [cons]: the consumers of the group with a pending count above 0. *)
Definition pendingByConsumer (g : streamGroup) : gmap string Z :=
  map_imap (λ name _,
              let cnt := pendingCount g name in
              if 0 <? cnt then Some cnt else None)
           (consumers g).

(** [ids], after [sort.Strings]. *)
Definition sortedConsumers (cons : gmap string Z) : list string :=
  merge_sort String.le (map_to_list cons).*1.

Definition writeXpendingSummary (g : streamGroup) : list peerEvent :=
  match pending g with
  | [] => [WriteLen 4; WriteInt 0; WriteNull; WriteNull; WriteLen (-1)]
  | first :: _ =>
      let cons := pendingByConsumer g in
      [WriteLen 4;
       WriteInt (len (pending g));
       WriteBulk (formatStreamID (pid first));
       WriteBulk (formatStreamID (pid (default first (last (pending g)))));
       WriteLen (Z.of_nat (size cons))]
      ++ (sortedConsumers cons ≫= λ name,
            [WriteLen 2; WriteBulk name;
             WriteBulk (strconv.Itoa (default 0 (cons !! name)))])
  end.

(** A row of the detailed reply. *)
Record pendingRow := mkRow {
  row_id : StreamEntryID;
  row_consumer : string;
  row_millis : Z;
  row_count : Z;
}.

Definition rowOf (now : time.Time) (p : pendingEntry) : pendingRow :=
  mkRow (pid p) (consumer p)
        (time.Milliseconds (time.Sub now (lastDelivery p)))
        (deliveryCount p).

(** The loop of [writeXpending]; [filter] is the optional consumer name. *)
Fixpoint xpendingLoop (now : time.Time) (start end_ : StreamEntryID)
    (count : Z) (filter : option string) (ps : list pendingEntry)
    (res : list pendingRow) : list pendingRow :=
  match ps with
  | [] => res
  | p :: rest =>
      if count <=? len res then res
      else if match filter with
              | Some name => negb (String.eqb (consumer p) name)
              | None => false
              end
      then xpendingLoop now start end_ count filter rest res
      else if streamCmp (pid p) start <? 0
      then xpendingLoop now start end_ count filter rest res
      else if 0 <? streamCmp (pid p) end_
      then xpendingLoop now start end_ count filter rest res
      else xpendingLoop now start end_ count filter rest (res ++ [rowOf now p])
  end.

Definition writeRow (e : pendingRow) : list peerEvent :=
  [WriteLen 4; WriteBulk (formatStreamID (row_id e)); WriteBulk (row_consumer e);
   WriteInt (row_millis e); WriteInt (row_count e)].

Definition writeXpending (now : time.Time) (g : streamGroup)
    (start end_ : StreamEntryID) (count : Z) (filter : option string)
  : list peerEvent :=
  if (len (pending g) =? 0) || (count <? 0) then [WriteLen (-1)]
  else
    let res := xpendingLoop now start end_ count filter (pending g) [] in
    WriteLen (len res) :: (res ≫= writeRow).

(** [cmdXpending]: the summary with two arguments, the detailed form with
    start, end, count and an optional consumer after them. The database is
    only read. *)
Definition cmdXpending (now : time.Time) (db : RedisDB) (cmd : string)
    (args : list string) : list peerEvent :=
  if len args <? 2 then [SetDirty; WriteError (errWrongNumber cmd)]
  else
    match args with
    | key :: group :: args =>
        let reply (write : streamGroup → list peerEvent) :=
          match streamGroupOf db key group with
          | inl err => [WriteError (Error err)]
          | inr None => [WriteError (msgReadgroup key group)]
          | inr (Some g) => write g
          end in
        match args with
        | a0 :: a1 :: a2 :: rest =>
            if String.eqb (ToUpper a0) "IDLE"
            then [SetDirty; WriteError "ERR IDLE is unsupported"]
            else
              match formatStreamRangeBound a0 true false with
              | None => [WriteError msgInvalidStreamID]
              | Some start =>
                  match formatStreamRangeBound a1 false false with
                  | None => [WriteError msgInvalidStreamID]
                  | Some end_ =>
                      match strconv.Atoi a2 with (* negative is allowed *)
                      | None => [WriteError msgInvalidInt]
                      | Some count =>
                          match rest with
                          | [] => reply (λ g, writeXpending now g start end_ count None)
                          | [c] =>
                              reply (λ g, writeXpending now g start end_ count (Some c))
                          | _ => [SetDirty; WriteError msgSyntaxError]
                          end
                      end
                  end
              end
        | a0 :: _ =>
            if String.eqb (ToUpper a0) "IDLE"
            then [SetDirty; WriteError "ERR IDLE is unsupported"]
            else [SetDirty; WriteError msgSyntaxError]
        | [] => reply writeXpendingSummary
        end
    | _ => [Panic]
    end.

End handlers.

(** ** Vocabulary of the properties *)

(** *** The stream log *)

(** Every entry held is at or below the previous maximum ID. *)
Definition bounded (s : streamKey) : Prop :=
  ∀ e, e ∈ entries s → ∃ l, lastEntryID s = Some l ∧ streamCmp (ID e) l ≠ 1.

(** Both parts of an ID fit in a uint64. *)
Definition isUint64 (i : StreamEntryID) : Prop :=
  (millis i ≤ strconv.maxUint64)%N ∧ (seq i ≤ strconv.maxUint64)%N.

(** *** XADD *)

(** The replies of a successful XADD. *)
Definition succeeded (out : list peerEvent) : Prop :=
  ∃ newID, out = [WriteBulk newID].

(** The stream an XADD on [key] works on: the one stored, or a new one. *)
Definition streamAt (db : RedisDB) (key : string) : streamKey :=
  default newStreamKey (streamKeys db !! key).

(** One XADD on a stream: the clock, the MAXLEN bound (-1 for none), the ID
    token and the field/value list. *)
Record xaddReq := mkReq {
  req_now : time.Time;
  req_maxlen : Z;
  req_id : string;
  req_values : list string;
}.

(** What [xaddStore] does to the stream it works on, for a run of XADDs that
    all succeed: [add], then [trim] when there is a bound. [log] collects
    every entry appended, in order. [None] when an [add] fails. *)
Fixpoint xaddAll (s : streamKey) (log : list StreamEntry) (reqs : list xaddReq)
  : option (streamKey * list StreamEntry) :=
  match reqs with
  | [] => Some (s, log)
  | r :: rest =>
      match add (req_id r) (req_values r) (req_now r) s with
      | inl _ => None
      | inr (s1, _) =>
          xaddAll (if 0 <=? req_maxlen r then trim (req_maxlen r) s1 else s1)
                  (log ++ drop (length (entries s)) (entries s1))
                  rest
      end
  end.

(** The stream holds the last [k] entries of the log. *)
Definition holdsLast (k : nat) (s : streamKey) (log : list StreamEntry) : Prop :=
  (k ≤ length log)%nat ∧ entries s = drop (length log - k)%nat log.

(** *** XRANGE and XREVRANGE *)

(** An entry whose ID lies in [lo, hi], both ends included. *)
Definition within (lo hi : StreamEntryID) (e : StreamEntry) : Prop :=
  streamCmp (ID e) lo ≠ -1 ∧ streamCmp (ID e) hi ≠ 1.

(** At most [count] elements when [count] is positive, all of them when it
    is 0 or negative. *)
Definition upTo {A} (count : Z) (l : list A) : list A :=
  if 0 <? count then take (Z.to_nat count) l else l.

(** The sign of "past the end" for a scan: 1 forwards, -1 backwards. *)
Definition past (reverse : bool) : Z := if reverse then -1 else 1.

(** Sorted in the direction of the scan. *)
Definition ordered (reverse : bool) (es : list StreamEntry) : Prop :=
  StronglySorted (λ a b, streamCmp (ID a) (ID b) = - past reverse) es.

(** The entries the loop neither skips nor stops at. *)
Definition kept (reverse : bool) (start end_ : StreamEntryID) (e : StreamEntry)
  : Prop :=
  streamCmp (ID e) start ≠ - past reverse ∧ streamCmp (ID e) end_ ≠ past reverse.

(** *** Consumer groups *)

(** The pending rows in ascending order of ID. *)
Definition pendingSorted (g : streamGroup) : Prop :=
  StronglySorted (λ a b, streamCmp (pid a) (pid b) ≠ 1) (pending g).

(** Every pending row belongs to a consumer the group knows. *)
Definition registered (g : streamGroup) : Prop :=
  ∀ p, p ∈ pending g → is_Some (consumers g !! consumer p).

(** What the group keeps true of its pending rows: they are sorted by ID,
    none is above the cursor, and their consumers are known. *)
Definition groupInv (g : streamGroup) : Prop :=
  pendingSorted g
  ∧ (∀ p, p ∈ pending g → streamCmp (pid p) (lastID g) ≠ 1)
  ∧ registered g.

(** A pending row an XPENDING detail query selects: its ID in [start, end]
    and, when a consumer is named, owned by that consumer. *)
Definition selected (start end_ : StreamEntryID) (name : option string)
    (p : pendingEntry) : Prop :=
  match name with Some c => consumer p = c | None => True end
  ∧ 0 ≤ streamCmp (pid p) start
  ∧ streamCmp (pid p) end_ ≤ 0.

Global Instance selected_dec start end_ name p :
  Decision (selected start end_ name p).
Proof. unfold selected. destruct name; apply _. Defined.

(** The group [group] of the stream at [key] has delivered every entry. *)
Definition nothingNew (db : RedisDB) (group key : string) : Prop :=
  ∀ s g, streamKeys db !! key = Some s → groups s !! group = Some g →
         undelivered s g = [].

(** What XREADGROUP does when it does not block: one call of [xreadgroup]
    inside [withTx], and its result written out. *)
Definition readOnce `{Externals} (now : time.Time) (db : RedisDB) (o : readOpts)
  : outcome :=
  match xreadgroup db (opt_group o) (opt_consumer o) (opt_noack o)
                   (opt_streams o) (opt_ids o) (opt_count o) now with
  | (db1, inl err) => Replied db1 [WriteError (Error err)]
  | (db1, inr res) => Replied db1 (writeXread (opt_streams o) res)
  end.

(** ** Sample values

    An instance of the externals with the ASCII case mappings and the texts
    miniredis uses, and a few streams, groups and databases, to run the
    handlers on. *)

Definition asciiLower (c : ascii) : ascii :=
  let n := N_of_ascii c in
  if ((65 <=? n) && (n <=? 90))%N then ascii_of_N (n + 32) else c.

Definition asciiUpper (c : ascii) : ascii :=
  let n := N_of_ascii c in
  if ((97 <=? n) && (n <=? 122))%N then ascii_of_N (n - 32) else c.

Fixpoint mapString (f : ascii → ascii) (s : string) : string :=
  match s with
  | EmptyString => EmptyString
  | String c r => String (f c) (mapString f r)
  end.

Definition sample : Externals := {|
  ToLower := mapString asciiLower;
  ToUpper := mapString asciiUpper;
  errWrongNumber cmd :=
    "ERR wrong number of arguments for '" +:+ mapString asciiLower cmd +:+ "' command";
  msgInvalidInt := "ERR value is not an integer or out of range";
  msgInvalidStreamID := "ERR Invalid stream ID specified as stream command argument";
  msgSyntaxError := "ERR syntax error";
  msgXreadUnbalanced :=
    "ERR Unbalanced XREAD list of streams: for each stream key an ID or '$' must be specified.";
  msgWrongType := "WRONGTYPE Operation against a key holding the wrong kind of value";
  msgInvalidEntryID := "stream: invalid entry ID";
  msgStreamIDTooSmall :=
    "ERR The ID specified in XADD is equal or smaller than the target stream top item";
  msgXreadgroup key group :=
    "NOGROUP No such key '" +:+ key +:+ "' or consumer group '" +:+ group +:+ "' in XREADGROUP with GROUP option";
  msgAtoi a := "strconv.Atoi: parsing " +:+ a +:+ ": invalid syntax";
  msgReadgroup key group :=
    "NOGROUP No such key '" +:+ key +:+ "' or consumer group '" +:+ group +:+ "'";
|}.

Definition emptyDB : RedisDB := mkDB ∅ ∅ ∅.

(** A database whose key "s" holds the stream [s]. *)
Definition dbWith (s : streamKey) : RedisDB :=
  mkDB {[ "s"%string := "stream"%string ]} {[ "s"%string := s ]} ∅.

(** A database whose key "k" holds a string. *)
Definition dbWithString : RedisDB :=
  mkDB {[ "k"%string := "string"%string ]} ∅ ∅.

(** A stream of one entry, 5-1. *)
Definition oneEntry : streamKey :=
  mkStream [mkEntry (mkID 5 1) ["f"; "v"]%string] (Some (mkID 5 1)) ∅.

(** Three XADDs without a bound, then one with MAXLEN 2. *)
Definition threeAppends : list xaddReq :=
  [mkReq 1000000 (-1) "*" ["a"; "1"]%string;
   mkReq 1000000 (-1) "*" ["b"; "2"]%string;
   mkReq 2000000 (-1) "7-3" ["c"; "3"]%string].

Definition boundedAppend : xaddReq := mkReq 3000000 2 "*" ["d"; "4"]%string.

Definition afterThree : streamKey * list StreamEntry :=
  default (newStreamKey, []) (xaddAll newStreamKey [] threeAppends).

Definition afterFour : streamKey * list StreamEntry :=
  default (newStreamKey, []) (xaddAll afterThree.1 afterThree.2 [boundedAppend]).

(** The stream of [threeAppends]: 1-0, 1-1 and 7-3. *)
Definition threeEntries : streamKey := afterThree.1.

(** A group with three pending rows, two of alice and one of bob; carol
    has read but holds nothing. *)
Definition busyGroup : streamGroup :=
  mkGroup (mkID 7 3)
          [mkPending (mkID 1 0) "bob" 1 1000000;
           mkPending (mkID 1 1) "alice" 1 1000000;
           mkPending (mkID 7 3) "alice" 2 2500000]
          {[ "bob"%string := tt; "alice"%string := tt; "carol"%string := tt ]}.

(** A stream of one entry with a group "g" that has read it all. *)
Definition drained : streamKey :=
  mkStream [mkEntry (mkID 5 1) ["f"; "v"]%string] (Some (mkID 5 1))
           {[ "g"%string := mkGroup (mkID 5 1) [] ∅ ]}.

(** The options of
    XREADGROUP GROUP g alice BLOCK 100 STREAMS s s > 0. *)
Definition blockedOpts : readOpts :=
  mkOpts "g" "alice" 0 false ["s"; "s"]%string [">"; "0"]%string true 100000000.

(** The database after alice has asked for news of "s" and found none. *)
Definition afterIdleRead : RedisDB :=
  (@xreadgroup sample (dbWith drained) "g" "alice" false ["s"]%string
     [">"]%string 0 0).1.

(** ** The other stream commands (cmd_stream.go)

    XLEN, XDEL, XGROUP, XINFO and XREAD, and the table of [commandsStream].
    The conventions are those of the handlers above. *)

(** Further texts declared in other files of the package. *)
Class Messages := {
  msgXgroupKeyNotFound : string;
  msgKeyNotFound : string;
  msgGroupExists : string;   (* the text of the error of createGroup for a name in use *)
}.

(** [strings.Join] *)
Definition Join (elems : list string) (sep : string) : string :=
  String.concat sep elems.

(** Modelled from the spec: [streamKey.createGroup] is missing from the
    sources; it fails when the stream has a group of that name, and else
    adds a group without pending rows and without consumers whose cursor is
    the given ID, "$" standing for the ID of the last entry at creation time
    (0-0 for a stream that never held one). A malformed ID is the invalid-ID
    error. *)
Definition createGroup `{Messages} (group id : string) (s : streamKey)
  : error + streamKey :=
  if bool_decide (is_Some (groups s !! group))
  then inl (errorString msgGroupExists)
  else
    match (if String.eqb id "$" then Some (default minID (lastEntryID s))
           else parseStreamID id) with
    | None => inl errInvalidEntryID
    | Some i => inr (withGroups s (<[group := mkGroup i [] ∅]> (groups s)))
    end.

(** The IDs of an XDEL, parsed; a malformed one is the invalid-ID error. *)
Definition deleteTokens (ids : list string) (s : streamKey)
  : error + (streamKey * Z) :=
  match mapM parseStreamID ids with
  | None => inl errInvalidEntryID
  | Some parsed => inr (deleteEntries parsed s)
  end.

(** The calls of a handler that also writes a map header
    ([c.WriteMapLen]). *)
Inductive peerCall :=
| Call (e : peerEvent)
| WriteMapLen (n : Z).

(** The options of XREAD; the IDs are kept as parsed by the check that
    follows STREAMS. *)
Record xreadOpts := mkXreadOpts {
  xr_count : Z;
  xr_streams : list string;
  xr_ids : list StreamEntryID;
  xr_block : bool;
  xr_blockTimeout : time.Duration;
}.

Section more_handlers.
Context `{Externals} `{Messages}.

(** *** XLEN (cmdXlen) *)

(** There is no [return] after the error of [db.stream] is written: the
    stream is nil then, and the zero length is written as well. *)
Definition cmdXlen (db : RedisDB) (cmd : string) (args : list string)
  : list peerEvent :=
  if negb (len args =? 1) then [SetDirty; WriteError (errWrongNumber cmd)]
  else
    match args with
    | key :: _ =>
        match stream db key with
        | inl err => [WriteError (Error err); WriteInt 0]
        | inr None => [WriteInt 0]  (* No such key. That's zero length. *)
        | inr (Some s) => [WriteInt (len (entries s))]
        end
    | [] => [Panic]
    end.

(** *** XDEL (cmdXdel) *)

Definition cmdXdel (db : RedisDB) (cmd : string) (args : list string)
  : RedisDB * list peerEvent :=
  if len args <? 2 then (db, [SetDirty; WriteError (errWrongNumber cmd)])
  else
    match args with
    | key :: ids =>
        match stream db key with
        | inl err => (db, [WriteError (Error err)])
        | inr None => (db, [WriteInt 0])
        | inr (Some s) =>
            match deleteTokens ids s with
            | inl err => (db, [WriteError (Error err)])
            | inr (s1, n) =>
                (bumpVersion (putStream db key s1) key, [WriteInt n])
            end
        end
    | [] => (db, [Panic])
    end.

(** *** XGROUP (cmdXgroup, cmdXgroupCreate) *)

(** XGROUP CREATE; [key] is the variable [stream] of the source. *)
Definition cmdXgroupCreate (db : RedisDB) (cmd : string) (args : list string)
  : RedisDB * list peerEvent :=
  match args with
  | _ :: key :: group :: id :: opt =>
      match stream db key with
      | inl err => (db, [WriteError (Error err)])
      | inr found =>
          let mkstream :=
            (len args =? 5)
            && match opt with
               | a4 :: _ => String.eqb (ToUpper a4) "MKSTREAM"
               | [] => false
               end in
          let '(db1, found1) :=
            match found with
            | None =>
                if mkstream
                then let '(db1, s) := newStream db key in (db1, Some s)
                else (db, None)
            | Some s => (db, Some s)
            end in
          match found1 with
          | None => (db1, [WriteError msgXgroupKeyNotFound])
          | Some s =>
              match createGroup group id s with
              | inl err => (db1, [WriteError (Error err)])
              | inr s1 => (putStream db1 key s1, [WriteOK])
              end
          end
      end
  | _ => (db, [Panic])
  end.

Definition cmdXgroup (db : RedisDB) (cmd : string) (args : list string)
  : RedisDB * list peerEvent :=
  if ((len args =? 4) || (len args =? 5))
     && match args with
        | a0 :: _ => String.eqb (ToUpper a0) "CREATE"
        | [] => false
        end
  then cmdXgroupCreate db cmd args
  else
    (db, [SetDirty;
          WriteError ("ERR 'XGROUP " +:+ Join args " " +:+ "' not supported")]).

(** *** XINFO (cmdXinfo, cmdXinfoStream) *)

(** XINFO STREAM. Produces only part of full command output. *)
Definition cmdXinfoStream (db : RedisDB) (args : list string) : list peerCall :=
  if len args <? 1
  then [Call SetDirty; Call (WriteError (errWrongNumber "XINFO"))]
  else
    match args with
    | key :: _ =>
        match stream db key with
        | inl err => [Call (WriteError (Error err))]
        | inr None => [Call (WriteError msgKeyNotFound)]
        | inr (Some s) =>
            [WriteMapLen 1; Call (WriteBulk "length");
             Call (WriteInt (len (entries s)))]
        end
    | [] => [Call Panic]
    end.

Definition cmdXinfo (db : RedisDB) (cmd : string) (args : list string)
  : list peerCall :=
  if len args <? 1 then [Call SetDirty; Call (WriteError (errWrongNumber cmd))]
  else
    match args with
    | a0 :: rest =>
        let kw := ToUpper a0 in
        if String.eqb kw "STREAM" then cmdXinfoStream db rest
        else if String.eqb kw "CONSUMERS" || String.eqb kw "GROUPS"
                || String.eqb kw "HELP"
        then [Call SetDirty;
              Call (WriteError ("'XINFO " +:+ Join args " " +:+ "' not supported"))]
        else [Call SetDirty;
              Call (WriteError "ERR syntax error, try 'XINFO HELP'")]
    | [] => [Call Panic]
    end.

(** *** XREAD (cmdXread, xread) *)

(** The inner loop of [xread] over the entries of one stream. *)
Fixpoint xreadScan (id : StreamEntryID) (entryCount : Z)
    (es returned : list StreamEntry) : list StreamEntry :=
  match es with
  | [] => returned
  | entry :: rest =>
      if len returned =? entryCount then returned
      else if streamCmp (ID entry) id <=? 0
      then xreadScan id entryCount rest returned
      else xreadScan id entryCount rest (returned ++ [entry])
  end.

(** The loop of [xread] over the requested streams; [reqs] pairs
    [streams[i]] with [ids[i]]. The stream is looked up in [streamKeys]
    directly, whatever the type of the key. *)
Fixpoint xreadLoop (db : RedisDB) (reqs : list (string * StreamEntryID))
    (count : Z) (res : gmap string (list StreamEntry))
  : gmap string (list StreamEntry) :=
  match reqs with
  | [] => res
  | (key, id) :: rest =>
      match streamKeys db !! key with
      | None => xreadLoop db rest count res
      | Some s =>
          if len (entries s) =? 0 then xreadLoop db rest count res
          else
            let entryCount := if count =? 0 then len (entries s) else count in
            let returned := xreadScan id entryCount (entries s) [] in
            if 0 <? len returned
            then xreadLoop db rest count (<[key := returned]> res)
            else xreadLoop db rest count res
      end
  end.

Definition xread (db : RedisDB) (streams : list string)
    (ids : list StreamEntryID) (count : Z) : gmap string (list StreamEntry) :=
  xreadLoop db (zip streams ids) count ∅.

(** [parseBlock] on the two fields of the options of XREAD it is given
    pointers to. *)
Definition xreadBlock (cmd : string) (args : list string) (o : xreadOpts)
  : xreadOpts * option string :=
  let '(b, e) :=
    parseBlock cmd args
      (mkOpts EmptyString EmptyString 0 false [] []
              (xr_block o) (xr_blockTimeout o)) in
  (mkXreadOpts (xr_count o) (xr_streams o) (xr_ids o)
               (opt_block b) (opt_blockTimeout b), e).

(** The option loop of [cmdXread]: the reply of the [return] inside the
    loop, or the options read and the error that ended the loop, if any. *)
Fixpoint xreadArgs (cmd : string) (args : list string) (o : xreadOpts)
  : list peerEvent + (xreadOpts * option string) :=
  match args with
  | [] => inr (o, None)
  | a0 :: rest =>
      let kw := ToUpper a0 in
      if String.eqb kw "COUNT" then
        match rest with
        | [] => inr (o, Some (errWrongNumber cmd))
        | a1 :: rest2 =>
            match strconv.Atoi a1 with
            | None => inr (o, Some (msgAtoi a1))
            | Some n =>
                xreadArgs cmd rest2
                  (mkXreadOpts n (xr_streams o) (xr_ids o) (xr_block o)
                               (xr_blockTimeout o))
            end
        end
      else if String.eqb kw "BLOCK" then
        match rest with
        | [] => inr (xreadBlock cmd args o)
        | _ :: rest2 =>
            match xreadBlock cmd args o with
            | (o, Some e) => inr (o, Some e)
            | (o, None) => xreadArgs cmd rest2 o
            end
        end
      else if String.eqb kw "STREAMS" then
        if negb (Z.rem (len rest) 2 =? 0) then inr (o, Some msgXreadUnbalanced)
        else
          let half := (length rest / 2)%nat in
          match mapM parseStreamID (drop half rest) with
          | None => inl [SetDirty; WriteError msgInvalidStreamID]
          | Some ids =>
              inr (mkXreadOpts (xr_count o) (take half rest) ids (xr_block o)
                               (xr_blockTimeout o), None)
          end
      else inr (o, Some ("ERR incorrect argument " +:+ a0))
  end.

Definition cmdXread (db : RedisDB) (cmd : string) (args : list string)
  : outcome :=
  if len args <? 3 then Replied db [SetDirty; WriteError (errWrongNumber cmd)]
  else
    match xreadArgs cmd args (mkXreadOpts 0 [] [] false 0) with
    | inl out => Replied db out
    | inr (_, Some e) => Replied db [SetDirty; WriteError e]
    | inr (o, None) =>
        let res := xread db (xr_streams o) (xr_ids o) (xr_count o) in
        if negb (xr_block o) then Replied db (writeXread (xr_streams o) res)
        else
          blocking (xr_blockTimeout o)
            (λ db,
               let res := xread db (xr_streams o) (xr_ids o) (xr_count o) in
               if Z.of_nat (size res) =? 0 then (db, None)
               else (db, Some (writeXread (xr_streams o) res)))
            db
    end.

(** *** The table of the stream commands (commandsStream) *)

(** The database a command leaves. *)
Definition stateOf (o : outcome) : RedisDB :=
  match o with
  | Replied db _ => db
  | Waiting db _ => db
  end.

(** [commandsStream] registers one handler for each name; of each handler
    the table keeps what it does to the database, given the clock, the
    command name as sent and the arguments. *)
Definition commandsStream
  : list (string * (time.Time → RedisDB → string → list string → RedisDB)) :=
  [("XADD"%string, λ now db cmd args, (cmdXadd now db cmd args).1);
   ("XLEN"%string, λ _ db _ _, db);
   ("XREAD"%string, λ _ db cmd args, stateOf (cmdXread db cmd args));
   ("XRANGE"%string, λ _ db _ _, db);
   ("XREVRANGE"%string, λ _ db _ _, db);
   ("XGROUP"%string, λ _ db cmd args, (cmdXgroup db cmd args).1);
   ("XINFO"%string, λ _ db _ _, db);
   ("XREADGROUP"%string, λ now db cmd args, stateOf (cmdXreadgroup now db cmd args));
   ("XACK"%string, λ _ db cmd args, (cmdXack db cmd args).1);
   ("XDEL"%string, λ _ db cmd args, (cmdXdel db cmd args).1);
   ("XPENDING"%string, λ _ db _ _, db)].

End more_handlers.

(** ** Vocabulary of the further properties *)

(** An entry with an ID above [id]. *)
Definition newerThan (id : StreamEntryID) (e : StreamEntry) : Prop :=
  0 < streamCmp (ID e) id.

Global Instance newerThan_dec id e : Decision (newerThan id e).
Proof. unfold newerThan. apply _. Defined.

(** What XREAD is to report for the stream at [key] read from [id]: the
    entries above [id], at most [count] of them when [count] is positive,
    and nothing at all when there is none or no stream. *)
Definition xreadOf (db : RedisDB) (count : Z) (key : string) (id : StreamEntryID)
  : option (list StreamEntry) :=
  match streamKeys db !! key with
  | None => None
  | Some s =>
      match upTo count (filter (newerThan id) (entries s)) with
      | [] => None
      | es => Some es
      end
  end.

(** One stream of an XREAD or XREADGROUP reply: its name and its entries. *)
Definition writeStream (r : string * list StreamEntry) : list peerEvent :=
  [WriteLen 2; WriteBulk r.1; WriteLen (len r.2)] ++ (r.2 ≫= writeEntry).

(** *** What the handlers keep true of the database *)

(** What a handler does to a stream: it appends, trims, deletes, or
    replaces a group by what a read or an acknowledgement makes of it, or
    adds a new group. *)
Inductive streamStep (s : streamKey) : streamKey → Prop :=
| step_add entryID values now s' newID :
    add entryID values now s = inr (s', newID) → streamStep s s'
| step_trim n : streamStep s (trim n s)
| step_delete ids : streamStep s (deleteEntries ids s).1
| step_read group g now name id count noack :
    groups s !! group = Some g →
    streamStep s
      (withGroups s
         (<[group := (readGroup now name id count noack s g).1]> (groups s)))
| step_ack group g ids :
    groups s !! group = Some g →
    streamStep s (withGroups s (<[group := (ack ids g).1]> (groups s)))
| step_group group i :
    groups s !! group = None →
    streamStep s (withGroups s (<[group := mkGroup i [] ∅]> (groups s))).

(** What a handler does to the database: it makes a new stream at a key
    [db.stream] finds nothing at, it changes the stream [db.stream] finds at
    a key, or it bumps the version of a key. *)
Inductive dbStep (db : RedisDB) : RedisDB → Prop :=
| step_newStream key :
    stream db key = inr None → dbStep db (newStream db key).1
| step_putStream key s s' :
    stream db key = inr (Some s) → streamStep s s' → dbStep db (putStream db key s')
| step_bump key : dbStep db (bumpVersion db key).

(** The types of the keys and the streams are in step: a key is of type
    "stream" exactly when a stream is stored for it. *)
Definition inStep (db : RedisDB) : Prop :=
  ∀ key, keys db !! key = Some "stream"%string ↔ is_Some (streamKeys db !! key).

(** Every stream stored is one that [add], [trim], [delete] and changes to
    the groups make of a new stream. *)
Definition streamsReachable (db : RedisDB) : Prop :=
  ∀ key s, streamKeys db !! key = Some s → reachable s.

(** Every group of every stream stored has its pending rows in order. *)
Definition groupsInOrder (db : RedisDB) : Prop :=
  ∀ key s group g,
    streamKeys db !! key = Some s → groups s !! group = Some g → groupInv g.

Definition consistent (db : RedisDB) : Prop :=
  inStep db ∧ streamsReachable db ∧ groupsInOrder db.

(** What a command wrote, if it replied. *)
Definition written (o : outcome) : list peerEvent :=
  match o with
  | Replied _ out => out
  | Waiting _ _ => []
  end.

(** ** The string commands (the second source file)

    The file is of an earlier layout of the package: the handlers are
    registered with a redeo server and write to a [*redeo.Responder], which
    is modelled by the list of calls made on it ([reply]). The database has
    the three maps the handlers use. [db.del] is declared in another file;
    the handlers are parametric in it. *)
Module cmd_string.

Record redisDB := mkRedisDB {
  keys : gmap string string;        (* the type of each key *)
  stringKeys : gmap string string;
  expire : gmap string Z;
}.

Inductive reply :=
| WriteErrorString (msg : string)
| WriteNil
| WriteOK
| WriteString (s : string)
| WriteZero
| WriteOne
| WriteBulkLen (n : Z)
| IndexPanic.

(** [_, ok := db.keys[key]] *)
Definition exists_ (db : redisDB) (key : string) : bool :=
  bool_decide (is_Some (keys db !! key)).

(** Get returns a string key: [db.stringKeys[k]], the empty string if the
    key is not set. *)
Definition Get (db : redisDB) (k : string) : string :=
  default EmptyString (stringKeys db !! k).

(** internal not-locked version. Doesn't touch expire. *)
Definition set (db : redisDB) (k v : string) : redisDB :=
  mkRedisDB (<[k := "string"%string]> (keys db)) (<[k := v]> (stringKeys db))
            (expire db).

(** Set sets a string key. Doesn't touch expire. *)
Definition Set_ (db : redisDB) (k v : string) : redisDB := set db k v.

Definition withExpire (db : redisDB) (e : gmap string Z) : redisDB :=
  mkRedisDB (keys db) (stringKeys db) e.

Section commandsString.
Context `{Externals}.
Variable del : redisDB → string → redisDB.

(** The loop over the flags of SET: the flags read, or the text of the
    error that ends the command. *)
Fixpoint setFlags (args : list string) (nx xx : bool) (ex : Z)
  : string + (bool * bool * Z) :=
  match args with
  | [] => inr (nx, xx, ex)
  | a0 :: rest =>
      let kw := ToUpper a0 in
      if String.eqb kw "NX" then setFlags rest true xx ex
      else if String.eqb kw "XX" then setFlags rest nx true ex
      else if String.eqb kw "EX" || String.eqb kw "PX" then
        match rest with
        | [] => inl "Expire value error"%string
        | a1 :: rest2 =>
            match strconv.Atoi a1 with
            | None => inl "Expire value error"%string
            | Some e => setFlags rest2 nx xx e
            end
        end
      else inl "invalid SET flag"%string
  end.

Definition SET (db : redisDB) (args : list string) : redisDB * list reply :=
  if len args <? 2 then (db, [WriteErrorString "Usage error"])
  else
    match args with
    | key :: value :: flags =>
        match setFlags flags false false 0 with
        | inl e => (db, [WriteErrorString e])
        | inr (nx, xx, ex) =>
            if nx && exists_ db key then (db, [WriteNil])
            else if xx && negb (exists_ db key) then (db, [WriteNil])
            else
              (* be sure to remove existing values of other type keys. *)
              let db1 := del db key in
              (* a SET clears the expire *)
              let db2 := withExpire db1 (delete key (expire db1)) in
              let db3 := set db2 key value in
              let db4 :=
                if negb (ex =? 0)
                then withExpire db3 (<[key := ex]> (expire db3))
                else db3 in
              (db4, [WriteOK])
        end
    | _ => (db, [IndexPanic])
    end.

Definition SETEX (db : redisDB) (args : list string) : redisDB * list reply :=
  if negb (len args =? 3) then (db, [WriteErrorString "Usage error"])
  else
    match args with
    | key :: a1 :: value :: _ =>
        match strconv.Atoi a1 with
        | None => (db, [WriteErrorString "Expire value error"])
        | Some ttl =>
            let db1 := del db key in  (* Clear any existing keys. *)
            (mkRedisDB (<[key := "string"%string]> (keys db1))
                       (<[key := value]> (stringKeys db1))
                       (<[key := ttl]> (expire db1)),
             [WriteOK])
        end
    | _ => (db, [IndexPanic])
    end.

Definition SETNX (db : redisDB) (args : list string) : redisDB * list reply :=
  if negb (len args =? 2) then (db, [WriteErrorString "Usage error"])
  else
    match args with
    | key :: value :: _ =>
        if exists_ db key then (db, [WriteZero])
        else (set db key value, [WriteOne])
    | _ => (db, [IndexPanic])
    end.

(** The loop of MSET, two arguments at a time; [None] for an index out of
    range. *)
Fixpoint msetLoop (db : redisDB) (args : list string) : option redisDB :=
  match args with
  | [] => Some db
  | [_] => None
  | key :: value :: rest =>
      (* The TTL is always cleared. *)
      let db1 := del db key in
      msetLoop (mkRedisDB (<[key := "string"%string]> (keys db1))
                          (<[key := value]> (stringKeys db1))
                          (expire db1))
               rest
  end.

Definition MSET (db : redisDB) (args : list string) : redisDB * list reply :=
  if negb (Z.rem (len args) 2 =? 0)
  then (db, [WriteErrorString "wrong number of arguments for 'mset' command"])
  else
    match msetLoop db args with
    | Some db1 => (db1, [WriteOK])
    | None => (db, [IndexPanic])
    end.

Definition GET (db : redisDB) (args : list string) : list reply :=
  if negb (len args =? 1) then [WriteErrorString "Usage error"]
  else
    match args with
    | key :: _ =>
        if match keys db !! key with
           | Some t => negb (String.eqb t "string")
           | None => false
           end
        then [WriteErrorString "Wrong type of key"]
        else
          match stringKeys db !! key with
          | None => [WriteNil]
          | Some value => [WriteString value]
          end
    | [] => [IndexPanic]
    end.

Definition MGET (db : redisDB) (args : list string) : list reply :=
  if len args <? 1 then [WriteErrorString "Usage error"]
  else
    WriteBulkLen (len args)
    :: (args ≫= λ k,
          match keys db !! k with
          | Some t =>
              if negb (String.eqb t "string") then [WriteNil]
              else
                match stringKeys db !! k with
                | None => [WriteNil]  (* Should not happen, we just check keys[] *)
                | Some v => [WriteString v]
                end
          | None => [WriteNil]
          end).

End commandsString.

(** The arguments of an MSET that sets each key of [pairs] to its value. *)
Definition flat (pairs : list (string * string)) : list string :=
  pairs ≫= λ kv, [kv.1; kv.2].

(** A [del] leaves the other keys alone. *)
Definition delFrame (del : redisDB → string → redisDB) : Prop :=
  ∀ db k k', k' ≠ k →
    keys (del db k) !! k' = keys db !! k'
    ∧ stringKeys (del db k) !! k' = stringKeys db !! k'.

(** A [del] for the three maps at hand: it removes the key from each. *)
Definition delKey (db : redisDB) (k : string) : redisDB :=
  mkRedisDB (delete k (keys db)) (delete k (stringKeys db)) (delete k (expire db)).

End cmd_string.

(** ** Further sample values *)

Definition sampleMessages : Messages := {|
  msgXgroupKeyNotFound :=
    "ERR The XGROUP subcommand requires the key to exist. Note that for CREATE you may want to use the MKSTREAM option to create an empty stream automatically.";
  msgKeyNotFound := "ERR no such key";
  msgGroupExists := "BUSYGROUP Consumer Group name already exists";
|}.

(** A database of string keys without keys. *)
Definition noStrings : cmd_string.redisDB := cmd_string.mkRedisDB ∅ ∅ ∅.

(** A database of string keys whose key "k" holds "old", with an expiry. *)
Definition oneString : cmd_string.redisDB :=
  cmd_string.mkRedisDB {[ "k"%string := "string"%string ]}
                       {[ "k"%string := "old"%string ]}
                       {[ "k"%string := 30 ]}.

(** * Properties *)

(** ** The definitions on small inputs *)

Example Atoi_reads :
  strconv.Atoi "12" = Some 12
  ∧ strconv.Atoi "-7" = Some (-7)
  ∧ strconv.Atoi "+3" = Some 3
  ∧ strconv.Atoi "007" = Some 7
  ∧ strconv.Atoi EmptyString = None
  ∧ strconv.Atoi "-" = None
  ∧ strconv.Atoi "1x" = None
  ∧ strconv.Atoi " 1" = None
  ∧ strconv.Atoi "9223372036854775807" = Some maxInt64
  ∧ strconv.Atoi "9223372036854775808" = None
  ∧ strconv.Atoi "-9223372036854775808" = Some minInt64.
Proof. by vm_compute. Qed.

Example parseStreamID_reads :
  parseStreamID "5-1" = Some (mkID 5 1)
  ∧ parseStreamID "5" = Some (mkID 5 0)
  ∧ parseStreamID "abc" = None
  ∧ parseStreamID "5-" = None
  ∧ parseStreamID "-" = None
  ∧ parseStreamID "*" = None
  ∧ parseStreamID "18446744073709551615-0" = Some (mkID strconv.maxUint64 0)
  ∧ parseStreamID "18446744073709551616-0" = None
  ∧ formatStreamRangeBound "5" false false = Some (mkID 5 strconv.maxUint64)
  ∧ formatStreamRangeBound "5" true false = Some (mkID 5 0)
  ∧ formatStreamID (mkID 5 1) = "5-1"%string.
Proof. by vm_compute. Qed.

(** Two XADDs with "*" in the same millisecond, and the full XRANGE and
    XREVRANGE of what they leave. *)
Example xadd_then_xrange :
  let first := @cmdXadd sample 1000000 emptyDB "XADD" ["s"; "*"; "f1"; "v1"]%string in
  let second := @cmdXadd sample 1000000 first.1 "XADD" ["s"; "*"; "f2"; "v2"]%string in
  first.2 = [WriteBulk "1-0"]
  ∧ second.2 = [WriteBulk "1-1"]
  ∧ keyVersion second.1 !! "s"%string = Some 2
  ∧ @makeCmdXrange sample false second.1 "XRANGE" ["s"; "-"; "+"]%string
    = [WriteLen 2;
       WriteLen 2; WriteBulk "1-0"; WriteLen 2; WriteBulk "f1"; WriteBulk "v1";
       WriteLen 2; WriteBulk "1-1"; WriteLen 2; WriteBulk "f2"; WriteBulk "v2"]
  ∧ @makeCmdXrange sample true second.1 "XREVRANGE"
      ["s"; "+"; "-"; "COUNT"; "1"]%string
    = [WriteLen 1;
       WriteLen 2; WriteBulk "1-1"; WriteLen 2; WriteBulk "f2"; WriteBulk "v2"]
  ∧ @makeCmdXrange sample true second.1 "XREVRANGE" ["s"; "-"; "+"]%string
    = [WriteLen 0].
Proof. by vm_compute. Qed.

(** A first read of a group delivers the entries and records them as
    pending; the summary and an acknowledgement follow. *)
Example read_then_ack :
  let g0 := mkGroup minID [] ∅ in
  let r := readGroup 3000000 "alice" ">" 0 false threeEntries g0 in
  ID <$> r.2 = [mkID 1 0; mkID 1 1; mkID 7 3]
  ∧ lastID r.1 = mkID 7 3
  ∧ pid <$> pending r.1 = [mkID 1 0; mkID 1 1; mkID 7 3]
  ∧ writeXpendingSummary r.1
    = [WriteLen 4; WriteInt 3; WriteBulk "1-0"; WriteBulk "7-3"; WriteLen 1;
       WriteLen 2; WriteBulk "alice"; WriteBulk "3"]
  ∧ (ack [mkID 1 1; mkID 9 9] r.1).2 = 1
  ∧ (readGroup 4000000 "alice" ">" 0 false threeEntries r.1).2 = [].
Proof. by vm_compute. Qed.

(** ** The order on entry IDs *)

Ltac cmp_cases :=
  unfold streamCmp in *;
  repeat match goal with
  | |- context [(?a ?= ?b)%N] => destruct (N.compare_spec a b)
  | H : context [(?a ?= ?b)%N] |- _ => destruct (N.compare_spec a b)
  end.

Lemma streamCmp_range a b :
  streamCmp a b = -1 ∨ streamCmp a b = 0 ∨ streamCmp a b = 1.
Proof. cmp_cases; auto. Qed.

Lemma streamCmp_eq a b : streamCmp a b = 0 ↔ a = b.
Proof.
  destruct a as [am asq], b as [bm bsq]; simpl. split.
  - intros Hc. cmp_cases; simpl in *; try discriminate. by subst.
  - intros [= -> ->]. unfold streamCmp; simpl. by rewrite !N.compare_refl.
Qed.

Lemma streamCmp_refl a : streamCmp a a = 0.
Proof. by apply streamCmp_eq. Qed.

Lemma streamCmp_flip a b : streamCmp a b = 1 ↔ streamCmp b a = -1.
Proof. split; intros Hc; cmp_cases; simpl in *; try lia; try discriminate. Qed.

Lemma streamCmp_lt_trans a b c :
  streamCmp a b = -1 → streamCmp b c = -1 → streamCmp a c = -1.
Proof. intros H1 H2; cmp_cases; simpl in *; try lia; try discriminate. Qed.

Lemma streamCmp_le_lt_trans a b c :
  streamCmp a b ≠ 1 → streamCmp b c = -1 → streamCmp a c = -1.
Proof. intros H1 H2; cmp_cases; simpl in *; try lia; try discriminate. Qed.

Lemma streamCmp_lt_le_trans a b c :
  streamCmp a b = -1 → streamCmp b c ≠ 1 → streamCmp a c = -1.
Proof. intros H1 H2; cmp_cases; simpl in *; try lia; try discriminate. Qed.

Lemma streamCmp_min a : streamCmp a minID ≠ -1.
Proof. unfold minID. cmp_cases; simpl in *; try lia; try discriminate. Qed.

Lemma StronglySorted_sublist {A} (R : relation A) (l k : list A) :
  k `sublist_of` l → StronglySorted R l → StronglySorted R k.
Proof.
  induction 1 as [|x k l Hs IH|x k l Hs IH]; intros Hl; [done|..].
  - apply StronglySorted_cons in Hl as [Hx Hl].
    apply StronglySorted_cons. split; [|by apply IH].
    rewrite Forall_forall in *. intros y Hy. apply Hx.
    by eapply elem_of_sublist.
  - apply StronglySorted_cons in Hl as [_ Hl]. by apply IH.
Qed.

(** ** The stream log keeps its order *)

Lemma follows_Some i l : follows i (Some l) = true ↔ streamCmp i l = 1.
Proof. simpl. apply Z.eqb_eq. Qed.

Lemma add_inv entryID values now s s' newID :
  add entryID values now s = inr (s', newID) →
  ∃ i, follows i (lastEntryID s) = true
       ∧ s' = mkStream (entries s ++ [mkEntry i values]) (Some i) (groups s)
       ∧ newID = formatStreamID i.
Proof.
  unfold add. destruct (if String.eqb entryID "*" then _ else _) as [i|]; [|done].
  destruct (follows i (lastEntryID s)) eqn:Hf; [|done].
  intros [= <- <-]. eauto.
Qed.

Lemma add_keeps_order entryID values now s s' newID :
  add entryID values now s = inr (s', newID) →
  ascending (entries s) → bounded s → ascending (entries s') ∧ bounded s'.
Proof.
  intros (i & Hf & -> & _)%add_inv Hasc Hb; simpl. split.
  - apply StronglySorted_app_2; [|done|repeat constructor].
    intros e1 e2 He1 ->%list_elem_of_singleton; simpl.
    destruct (Hb e1 He1) as (l & Hl & Hle). rewrite Hl in Hf.
    apply follows_Some, streamCmp_flip in Hf.
    by eapply streamCmp_le_lt_trans.
  - intros e [He| ->%list_elem_of_singleton]%elem_of_app; exists i; simpl.
    + destruct (Hb e He) as (l & Hl & Hle). rewrite Hl in Hf.
      apply follows_Some, streamCmp_flip in Hf. split; [done|].
      by rewrite (streamCmp_le_lt_trans _ _ _ Hle Hf).
    + split; [done|]. by rewrite streamCmp_refl.
Qed.

Lemma trim_sublist n s : entries (trim n s) `sublist_of` entries s.
Proof. unfold trim. case_match; [apply sublist_drop|done]. Qed.

Lemma trim_lastEntryID n s : lastEntryID (trim n s) = lastEntryID s.
Proof. unfold trim. by case_match. Qed.

Lemma deleteEntries_sublist ids s :
  entries (deleteEntries ids s).1 `sublist_of` entries s.
Proof. apply sublist_filter. Qed.

Lemma deleteEntries_lastEntryID ids s :
  lastEntryID (deleteEntries ids s).1 = lastEntryID s.
Proof. done. Qed.

Lemma bounded_sublist s s' :
  entries s' `sublist_of` entries s → lastEntryID s' = lastEntryID s →
  bounded s → bounded s'.
Proof.
  intros Hs Hl Hb e He. rewrite Hl. apply Hb. by eapply elem_of_sublist.
Qed.

Lemma reachable_inv s : reachable s → ascending (entries s) ∧ bounded s.
Proof.
  induction 1 as [|s tok vs now s' newID _ [IHa IHb] Hadd
                  |s n _ [IHa IHb]|s ids _ [IHa IHb]|s gs _ [IHa IHb]].
  - split; [constructor|]. intros e He. by apply elem_of_nil in He.
  - by eapply add_keeps_order.
  - split.
    + eapply StronglySorted_sublist; [apply trim_sublist|done].
    + eapply bounded_sublist; [apply trim_sublist|apply trim_lastEntryID|done].
  - split.
    + eapply StronglySorted_sublist; [apply deleteEntries_sublist|done].
    + eapply bounded_sublist; [apply deleteEntries_sublist|done|done].
  - done.
Qed.

Lemma ascending_NoDup es : ascending es → NoDup (ID <$> es).
Proof.
  induction 1 as [|e es _ IH He]; simpl; constructor; [|done].
  intros (e' & Heq & Hin)%list_elem_of_fmap.
  rewrite Forall_forall in He. specialize (He e' Hin).
  rewrite Heq, streamCmp_refl in He. done.
Qed.

Section properties.
Context `{Externals}.

Lemma parseStreamID_not_star tok i :
  parseStreamID tok = Some i → String.eqb tok "*" = false.
Proof.
  intros Hp. destruct (String.eqb_spec tok "*") as [->|]; [|done].
  by vm_compute in Hp.
Qed.

Lemma add_explicit tok i values now s :
  parseStreamID tok = Some i →
  add tok values now s =
    if follows i (lastEntryID s)
    then inr (mkStream (entries s ++ [mkEntry i values]) (Some i) (groups s),
              formatStreamID i)
    else inl errIDOrder.
Proof.
  intros Hp. unfold add. by rewrite (parseStreamID_not_star _ _ Hp), Hp.
Qed.

(** C1. An XADD with an explicit ID fails with the ID-ordering error when
    the ID is not strictly greater than the previous maximum ID of the
    stream, and succeeds, appending the entry, when it is; trimming and
    deleting do not change the previous maximum ID, so the IDs of trimmed or
    deleted entries stay refused; and the entries of every stream are
    strictly ascending by ID, without duplicates. *)
Theorem xadd_explicit_id_monotonic :
  (∀ now db key maxlen tok values s l i,
     stream db key = inr (Some s) →
     lastEntryID s = Some l →
     parseStreamID tok = Some i →
     (streamCmp i l ≠ 1 →
        add tok values now s = inl errIDOrder
        ∧ xaddStore now db key maxlen tok values
          = (db, [WriteError msgStreamIDTooSmall]))
     ∧ (streamCmp i l = 1 →
        add tok values now s
        = inr (mkStream (entries s ++ [mkEntry i values]) (Some i) (groups s),
               formatStreamID i)
        ∧ ∃ db', xaddStore now db key maxlen tok values
                 = (db', [WriteBulk (formatStreamID i)])))
  ∧ (∀ now s l n ids tok values i,
       lastEntryID s = Some l →
       parseStreamID tok = Some i →
       streamCmp i l ≠ 1 →
       add tok values now (trim n s) = inl errIDOrder
       ∧ add tok values now (deleteEntries ids s).1 = inl errIDOrder)
  ∧ (∀ s, reachable s → ascending (entries s) ∧ NoDup (ID <$> entries s)).
Proof.
  split; [|split].
  - intros now db key maxlen tok values s l i Hs Hl Hp.
    unfold xaddStore. rewrite Hs, (add_explicit _ _ _ _ _ Hp), Hl. simpl.
    split; intros Hc.
    + apply Z.eqb_neq in Hc. by rewrite Hc.
    + apply Z.eqb_eq in Hc. rewrite Hc. eauto.
  - intros now s l n ids tok values i Hl Hp Hc.
    rewrite !(add_explicit _ _ _ _ _ Hp), trim_lastEntryID,
      deleteEntries_lastEntryID, Hl; simpl.
    apply Z.eqb_neq in Hc. by rewrite Hc.
  - intros s [Ha _]%reachable_inv. split; [done|]. by apply ascending_NoDup.
Qed.

(** *** XADD: the replies that end the command early *)

Lemma Atoi_tilde : strconv.Atoi "~" = None.
Proof. reflexivity. Qed.

Lemma xaddMaxlen_negative kw rest a more n :
  ToLower kw = "maxlen"%string →
  rest = a :: more ∨ rest = "~"%string :: a :: more →
  strconv.Atoi a = Some n → n < 0 →
  xaddMaxlen (kw :: rest)
  = inl [WriteError "ERR The MAXLEN argument must be >= 0."].
Proof.
  intros Hkw Hrest Ha Hn. unfold xaddMaxlen. rewrite Hkw; simpl.
  assert (Hlt : (n <? 0) = true) by by apply Z.ltb_lt.
  destruct Hrest as [-> | ->].
  - destruct (String.eqb_spec a "~") as [->|_].
    + by rewrite Atoi_tilde in Ha.
    + by rewrite Ha, Hlt.
  - simpl. by rewrite Ha, Hlt.
Qed.

(** C8. An XADD whose MAXLEN argument (the argument after MAXLEN, or after
    the "~" that may follow it) reads as an integer below 0 is answered with
    the error "ERR The MAXLEN argument must be >= 0." and nothing else, and
    leaves the database as it was: no stream is made and nothing is
    appended. *)
Theorem xadd_negative_maxlen now db cmd key kw rest a more n :
  4 ≤ len (key :: kw :: rest) →
  ToLower kw = "maxlen"%string →
  rest = a :: more ∨ rest = "~"%string :: a :: more →
  strconv.Atoi a = Some n →
  n < 0 →
  cmdXadd now db cmd (key :: kw :: rest)
  = (db, [WriteError "ERR The MAXLEN argument must be >= 0."]).
Proof.
  intros Hlen Hkw Hrest Ha Hn. unfold cmdXadd.
  destruct (Z.ltb_spec (len (key :: kw :: rest)) 4) as [?|_]; [lia|].
  unfold xaddTx. by rewrite (xaddMaxlen_negative _ _ _ _ _ Hkw Hrest Ha Hn).
Qed.

(** *** XADD: what a failed command leaves *)

Lemma xaddStore_cases now db key maxlen tok values :
  let r := xaddStore now db key maxlen tok values in
  (r.1 = db ∧ ¬ succeeded r.2)
  ∨ (stream db key = inr None ∧ r.1 = (newStream db key).1 ∧ ¬ succeeded r.2
     ∧ ∃ e, add tok values now newStreamKey = inl e)
  ∨ (succeeded r.2).
Proof.
  unfold xaddStore, succeeded.
  destruct (stream db key) as [e|[s|]] eqn:Hs; simpl.
  - left. split; [done|]. by intros [? [=]].
  - destruct (add tok values now s) as [e|[s1 newID]]; simpl.
    + left. split; [done|]. by intros [? [=]].
    + right; right. eauto.
  - destruct (add tok values now newStreamKey) as [e|[s1 newID]] eqn:Ha; simpl.
    + right; left. repeat split; eauto. by intros [? [=]].
    + right; right. eauto.
Qed.



(** *** XADD never indexes out of range *)

Lemma xaddValues_even args :
  Z.rem (len args) 2 = 0 → xaddValues args = Some args.
Proof.
  assert (∀ n args, (length args ≤ n)%nat →
            Z.rem (len args) 2 = 0 → xaddValues args = Some args) as Hind.
  { induction n as [|n IH]; intros [|f [|v rest]] Hle Hev; simpl in *;
      try done; try lia.
    - rewrite IH; [done|lia|].
      unfold len in *. simpl length in Hev.
      rewrite !Nat2Z.inj_succ in Hev.
      replace (Z.succ (Z.succ (Z.of_nat (length rest))))
        with (Z.of_nat (length rest) + 1 * 2) in Hev by lia.
      rewrite Z.rem_add in Hev; [done|lia|lia]. }
  by apply (Hind (length args)).
Qed.

Lemma xaddStore_no_panic now db key maxlen tok values :
  Panic ∉ (xaddStore now db key maxlen tok values).2.
Proof.
  unfold xaddStore. destruct (stream db key) as [e|found]; simpl.
  { by intros [=]%list_elem_of_singleton. }
  destruct (match found with Some s => _ | None => _ end) as [db1 s].
  destruct (add tok values now s) as [e|[s1 newID]]; simpl;
    by intros [=]%list_elem_of_singleton.
Qed.

Lemma cmdXadd_no_panic now db cmd args : Panic ∉ (cmdXadd now db cmd args).2.
Proof.
  unfold cmdXadd. destruct (Z.ltb_spec (len args) 4) as [|Hlen]; simpl.
  { intros [[=]|[=]%list_elem_of_singleton]%elem_of_cons. }
  destruct args as [|key [|a0 [|a1 [|a2 rest]]]];
    try (unfold len in Hlen; simpl in Hlen; lia).
  simpl. unfold xaddTx, xaddMaxlen.
  assert (∀ m, Panic ∉ [WriteError m]) as Herr.
  { intros ? [=]%list_elem_of_singleton. }
  assert (∀ maxlen args,
    Panic ∉ (if len args <? 1 then (db, [WriteError (errWrongNumber cmd)])
             else match args with
                  | [] => (db, [Panic])
                  | entryID :: args =>
                      if (len args =? 0) || negb (Z.rem (len args) 2 =? 0)
                      then (db, [WriteError "ERR wrong number of arguments for XADD"])
                      else match xaddValues args with
                           | None => (db, [Panic])
                           | Some values => xaddStore now db key maxlen entryID values
                           end
                  end).2) as Hrest.
  { intros maxlen [|entryID args]; [apply Herr|].
    destruct (Z.ltb_spec (len (entryID :: args)) 1) as [|_]; [apply Herr|].
    destruct (Z.eqb_spec (len args) 0); simpl; [apply Herr|].
    destruct (Z.eqb_spec (Z.rem (len args) 2) 0) as [Hev|]; simpl; [|apply Herr].
    rewrite (xaddValues_even _ Hev). apply xaddStore_no_panic. }
  destruct (String.eqb (ToLower a0) "maxlen");
    [|exact (Hrest (-1) (a0 :: a1 :: a2 :: rest))].
  destruct (String.eqb a1 "~").
  - destruct (strconv.Atoi a2) as [n|]; [|apply Herr].
    destruct (n <? 0); [apply Herr|exact (Hrest n rest)].
  - destruct (strconv.Atoi a1) as [n|]; [|apply Herr].
    destruct (n <? 0); [apply Herr|exact (Hrest n (a2 :: rest))].
Qed.

(** *** XADD: from the command line to [xaddStore] *)

Lemma even_values (values : list string) :
  values ≠ [] → Z.rem (len values) 2 = 0 →
  ((len values =? 0) || negb (Z.rem (len values) 2 =? 0)) = false.
Proof.
  intros Hne Hev. rewrite Hev. simpl. rewrite orb_false_r.
  apply Z.eqb_neq. destruct values; [done|]. unfold len. simpl. lia.
Qed.

(** XADD key id field value ..., without MAXLEN. *)
Lemma cmdXadd_plain now db cmd key tok values :
  ToLower tok ≠ "maxlen"%string →
  values ≠ [] → Z.rem (len values) 2 = 0 →
  cmdXadd now db cmd (key :: tok :: values)
  = xaddStore now db key (-1) tok values.
Proof.
  intros Hkw Hne Hev. unfold cmdXadd.
  destruct (Z.ltb_spec (len (key :: tok :: values)) 4) as [Hlen|_].
  { destruct values as [|f [|v rest]]; try done.
    unfold len in Hlen. simpl in Hlen. lia. }
  unfold xaddTx, xaddMaxlen.
  destruct (String.eqb_spec (ToLower tok) "maxlen") as [?|_]; [done|].
  destruct (Z.ltb_spec (len (tok :: values)) 1) as [Hlen|_].
  { unfold len in Hlen. simpl in Hlen. lia. }
  by rewrite (even_values _ Hne Hev), (xaddValues_even _ Hev).
Qed.

(** XADD key MAXLEN n id field value ..., with or without "~". *)
Lemma cmdXadd_maxlen now db cmd key kw bound rest n tok values :
  ToLower kw = "maxlen"%string →
  rest = bound :: tok :: values ∨ rest = "~"%string :: bound :: tok :: values →
  strconv.Atoi bound = Some n → 0 ≤ n →
  values ≠ [] → Z.rem (len values) 2 = 0 →
  cmdXadd now db cmd (key :: kw :: rest) = xaddStore now db key n tok values.
Proof.
  intros Hkw Hrest Hn Hpos Hne Hev. unfold cmdXadd.
  destruct (Z.ltb_spec (len (key :: kw :: rest)) 4) as [Hlen|_].
  { destruct values; [done|].
    destruct Hrest as [-> | ->]; unfold len in Hlen; simpl in Hlen; lia. }
  unfold xaddTx, xaddMaxlen. rewrite Hkw, String.eqb_refl.
  assert ((n <? 0) = false) as Hn' by by apply Z.ltb_ge.
  assert ((len (tok :: values) <? 1) = false) as Hlen.
  { apply Z.ltb_ge. unfold len. simpl. lia. }
  destruct Hrest as [-> | ->].
  - destruct (String.eqb_spec bound "~") as [->|_];
      [by rewrite Atoi_tilde in Hn|].
    rewrite Hn, Hn'. cbn beta iota. rewrite Hlen.
    by rewrite (even_values _ Hne Hev), (xaddValues_even _ Hev).
  - rewrite String.eqb_refl, Hn, Hn'. cbn beta iota. rewrite Hlen.
    by rewrite (even_values _ Hne Hev), (xaddValues_even _ Hev).
Qed.

(** *** XADD with MAXLEN *)

Lemma stream_found db key found :
  stream db key = inr found → found = streamKeys db !! key.
Proof. unfold stream. case_match; congruence. Qed.

Lemma xaddStore_success now db key maxlen tok values db' out :
  xaddStore now db key maxlen tok values = (db', out) →
  succeeded out →
  ∃ s1 newID,
    add tok values now (streamAt db key) = inr (s1, newID)
    ∧ out = [WriteBulk newID]
    ∧ streamKeys db' !! key = Some (if 0 <=? maxlen then trim maxlen s1 else s1).
Proof.
  unfold xaddStore, streamAt.
  destruct (stream db key) as [e|found] eqn:Hs.
  { intros [= <- <-] [? [=]]. }
  apply stream_found in Hs as ->.
  destruct (streamKeys db !! key) as [s|]; simpl.
  - destruct (add tok values now s) as [e|[s1 newID]].
    { intros [= <- <-] [? [=]]. }
    intros [= <- <-] _. exists s1, newID. simpl.
    by rewrite lookup_insert_eq.
  - destruct (add tok values now newStreamKey) as [e|[s1 newID]].
    { intros [= <- <-] [? [=]]. }
    intros [= <- <-] _. exists s1, newID. simpl.
    by rewrite lookup_insert_eq.
Qed.

Lemma xaddStore_failure now db key maxlen tok values db' out :
  xaddStore now db key maxlen tok values = (db', out) →
  ¬ succeeded out →
  streamAt db' key = streamAt db key.
Proof.
  intros Hx Hf.
  destruct (xaddStore_cases now db key maxlen tok values)
    as [[Hdb _]|[(Hs & Hdb & _)|Hok]]; rewrite Hx in *; simpl in *.
  - by subst.
  - subst db'. apply stream_found in Hs. unfold streamAt; simpl.
    by rewrite lookup_insert_eq, <-Hs.
  - done.
Qed.

(** The entries after one XADD: those before, the new one, and the oldest
    dropped down to the bound. *)
Lemma xadd_step tok values now s s1 newID m :
  add tok values now s = inr (s1, newID) →
  ∃ e,
    entries s1 = entries s ++ [e]
    ∧ drop (length (entries s)) (entries s1) = [e]
    ∧ entries (if 0 <=? m then trim m s1 else s1)
      = if 0 <=? m
        then drop (length (entries s) + 1 - Z.to_nat m)%nat (entries s ++ [e])
        else entries s ++ [e].
Proof.
  intros (i & _ & -> & _)%add_inv. exists (mkEntry i values); simpl.
  split; [done|]. split; [by rewrite drop_app_length|].
  unfold trim. destruct (0 <=? m); simpl; [|done].
  by rewrite length_app.
Qed.

Lemma holdsLast_length k s log : holdsLast k s log → length (entries s) = k.
Proof. intros [Hk ->]. rewrite length_drop. lia. Qed.

Lemma xaddAll_step r s log s' log' k :
  xaddAll s log [r] = Some (s', log') →
  holdsLast k s log →
  length log' = S (length log)
  ∧ holdsLast (if 0 <=? req_maxlen r
               then Nat.min (Z.to_nat (req_maxlen r)) (S k) else S k) s' log'.
Proof.
  simpl. intros Hr Hk. pose proof (holdsLast_length _ _ _ Hk) as Hlen.
  destruct Hk as [Hk Hs].
  destruct (add _ _ _ s) as [?|[s1 newID]] eqn:Ha; [done|].
  destruct (xadd_step _ _ _ _ _ _ (req_maxlen r) Ha) as (e & _ & Hd & Hs').
  injection Hr as <- <-. rewrite Hd, length_app; simpl.
  split; [lia|]. unfold holdsLast. rewrite length_app; simpl.
  rewrite Hs', Hlen, Hs, <-drop_app_le by lia.
  destruct (0 <=? req_maxlen r); split; try lia.
  - rewrite drop_drop. f_equal. lia.
  - f_equal. lia.
Qed.

Lemma xaddAll_app s log reqs1 reqs2 :
  xaddAll s log (reqs1 ++ reqs2)
  = match xaddAll s log reqs1 with
    | Some (s1, log1) => xaddAll s1 log1 reqs2
    | None => None
    end.
Proof.
  revert s log. induction reqs1 as [|r reqs1 IH]; intros s log; simpl; [done|].
  destruct (add _ _ _ s) as [?|[s1 newID]]; [done|]. apply IH.
Qed.

(** When no earlier bound was below [n], the stream still holds at least
    the last [n] entries appended, or all of them. *)
Lemma xaddAll_history (n : Z) reqs s log s' log' k :
  xaddAll s log reqs = Some (s', log') →
  (∀ q, q ∈ reqs → req_maxlen q < 0 ∨ n ≤ req_maxlen q) →
  holdsLast k s log →
  (Nat.min (Z.to_nat n) (length log) ≤ k)%nat →
  length log' = (length log + length reqs)%nat
  ∧ ∃ k', holdsLast k' s' log' ∧ (Nat.min (Z.to_nat n) (length log') ≤ k')%nat.
Proof.
  revert s log k. induction reqs as [|r reqs IH]; intros s log k Hrun Hm Hk Hn.
  { injection Hrun as <- <-. simpl. split; [lia|eauto]. }
  change (r :: reqs) with ([r] ++ reqs) in Hrun.
  rewrite xaddAll_app in Hrun.
  destruct (xaddAll s log [r]) as [[s1 log1]|] eqn:Hr; [|done].
  destruct (xaddAll_step _ _ _ _ _ _ Hr Hk) as [Hl1 Hk1].
  assert (∀ q, q ∈ reqs → req_maxlen q < 0 ∨ n ≤ req_maxlen q) as Hm'.
  { intros q Hq. apply Hm. by right. }
  destruct (IH _ _ _ Hrun Hm' Hk1) as [Hl (k' & Hk' & Hn')].
  - destruct (Hm r) as [Hr'|Hr']; [by left| |];
      destruct (Z.leb_spec 0 (req_maxlen r)); lia.
  - split; [simpl; lia|eauto].
Qed.

(** C4 (as amended). A successful XADD with MAXLEN n, n >= 0, leaves in the
    stream the last min(n, k + 1) of the entries it held before followed by
    the new one, k being the number it held before. After a run of
    successful XADDs on a new stream none of which carried a MAXLEN below n,
    that is min(n, total appended) entries, the most recently appended ones.
    A failed XADD leaves the stream as it was, untrimmed. *)
Theorem xadd_maxlen_keeps_most_recent :
  (∀ now db key n tok values db' out,
     0 ≤ n →
     xaddStore now db key n tok values = (db', out) →
     succeeded out →
     ∃ e s',
       streamKeys db' !! key = Some s'
       ∧ entries s'
         = drop (length (entries (streamAt db key)) + 1 - Z.to_nat n)%nat
                (entries (streamAt db key) ++ [e])
       ∧ len (entries s') = Z.min n (len (entries (streamAt db key)) + 1))
  ∧ (∀ reqs r s log s' log',
       xaddAll newStreamKey [] reqs = Some (s, log) →
       (∀ q, q ∈ reqs → req_maxlen q < 0 ∨ req_maxlen r ≤ req_maxlen q) →
       0 ≤ req_maxlen r →
       xaddAll s log [r] = Some (s', log') →
       len log' = len reqs + 1
       ∧ len (entries s') = Z.min (req_maxlen r) (len log')
       ∧ entries s' = drop (length log' - Z.to_nat (req_maxlen r))%nat log')
  ∧ (∀ now db key n tok values db' out,
       xaddStore now db key n tok values = (db', out) →
       ¬ succeeded out →
       streamAt db' key = streamAt db key).
Proof.
  split; [|split].
  - intros now db key n tok values db' out Hn Hx Hok.
    destruct (xaddStore_success _ _ _ _ _ _ _ _ Hx Hok)
      as (s1 & newID & Ha & _ & Hs').
    destruct (xadd_step _ _ _ _ _ _ n Ha) as (e & _ & _ & He).
    apply Z.leb_le in Hn as Hn'. rewrite Hn' in He, Hs'.
    exists e, (trim n s1). split; [done|]. split; [done|].
    unfold len. rewrite He, length_drop, length_app; simpl. lia.
  - intros reqs r s log s' log' Hrun Hm Hn Hr.
    assert (holdsLast 0 newStreamKey []) as H0 by (split; simpl; [lia|done]).
    destruct (xaddAll_history (req_maxlen r) _ _ _ _ _ _ Hrun Hm H0)
      as [Hl (k & Hk & Hn')]; [simpl; lia|].
    destruct (xaddAll_step _ _ _ _ _ _ Hr Hk) as [Hl' [Hk1 Hs']].
    apply Z.leb_le in Hn as Hn''. rewrite Hn'' in Hk1, Hs'.
    destruct Hk as [Hk _]. simpl in Hl. unfold len.
    split; [lia|]. split.
    + rewrite Hs', length_drop. lia.
    + rewrite Hs'. f_equal. lia.
  - intros now db key n tok values db' out. apply xaddStore_failure.
Qed.

(** *** XRANGE and XREVRANGE *)

Lemma filter_none {A} (P : A → Prop) `{!∀ x, Decision (P x)} (l : list A) :
  (∀ x, x ∈ l → ¬ P x) → filter P l = [].
Proof.
  intros Hl. destruct (filter P l) as [|x k] eqn:Hf; [done|].
  assert (x ∈ filter P l) as [Hx Hin]%list_elem_of_filter by (rewrite Hf; left).
  by destruct (Hl x Hin).
Qed.

Lemma filter_all {A} (P : A → Prop) `{!∀ x, Decision (P x)} (l : list A) :
  (∀ x, x ∈ l → P x) → filter P l = l.
Proof.
  induction l as [|x l IH]; intros Hl; [done|].
  rewrite filter_cons_True by (apply Hl; left).
  f_equal. apply IH. intros y Hy. apply Hl. by right.
Qed.

Lemma streamCmp_after_gt a b c :
  streamCmp a b = -1 → streamCmp a c = 1 → streamCmp b c = 1.
Proof. intros H1 H2; cmp_cases; simpl in *; try lia; try discriminate. Qed.

Lemma streamCmp_after_lt a b c :
  streamCmp a b = 1 → streamCmp a c = -1 → streamCmp b c = -1.
Proof. intros H1 H2; cmp_cases; simpl in *; try lia; try discriminate. Qed.

Lemma len_app {A} (l k : list A) : len (l ++ k) = len l + len k.
Proof. unfold len. rewrite length_app. lia. Qed.

Lemma len_nonneg {A} (l : list A) : 0 ≤ len l.
Proof. unfold len. lia. Qed.

Lemma scan_stops reverse start end_ e es :
  Forall (λ b, streamCmp (ID e) (ID b) = - past reverse) es →
  streamCmp (ID e) end_ = past reverse →
  filter (kept reverse start end_) (e :: es) = [].
Proof.
  intros He Hend. apply filter_none. intros x Hx [_ Hx'].
  apply Hx'. apply elem_of_cons in Hx as [->|Hx]; [done|].
  rewrite Forall_forall in He. specialize (He x Hx).
  destruct reverse; simpl in *;
    eauto using streamCmp_after_gt, streamCmp_after_lt.
Qed.

(** One turn of the loop, in terms of the sign of the scan. *)
Lemma xrangeLoop_cons reverse start end_ count e es returned :
  xrangeLoop reverse start end_ count (e :: es) returned
  = if len returned =? count then returned
    else if streamCmp (ID e) end_ =? past reverse then returned
    else if streamCmp (ID e) start =? - past reverse
    then xrangeLoop reverse start end_ count es returned
    else xrangeLoop reverse start end_ count es (returned ++ [e]).
Proof. by destruct reverse. Qed.

Lemma xrangeLoop_spec reverse start end_ count es returned :
  ordered reverse es →
  len returned ≤ count →
  xrangeLoop reverse start end_ count es returned
  = returned ++ take (Z.to_nat (count - len returned))
                     (filter (kept reverse start end_) es).
Proof.
  unfold ordered. revert returned.
  induction es as [|e es IH]; intros returned Hs Hc.
  { simpl. by rewrite filter_nil, take_nil, app_nil_r. }
  apply StronglySorted_cons in Hs as [He Hs]. rewrite xrangeLoop_cons.
  destruct (Z.eqb_spec (len returned) count) as [Heq|Hne].
  { rewrite Heq, Z.sub_diag. simpl. by rewrite app_nil_r. }
  destruct (Z.eqb_spec (streamCmp (ID e) end_) (past reverse)) as [Hend|Hend].
  { by rewrite (scan_stops _ _ _ _ _ He Hend), take_nil, app_nil_r. }
  destruct (Z.eqb_spec (streamCmp (ID e) start) (- past reverse)) as [Hst|Hst].
  - rewrite filter_cons_False by (intros [? ?]; done). by apply IH.
  - rewrite filter_cons_True by done.
    rewrite IH by (try done; rewrite len_app; unfold len in *; simpl; lia).
    rewrite len_app. change (len [e]) with 1.
    replace (Z.to_nat (count - len returned))
      with (S (Z.to_nat (count - (len returned + 1))))
      by (unfold len in *; lia).
    by rewrite <-app_assoc.
Qed.

Lemma xrangeLoop_unbounded reverse start end_ count es returned :
  ordered reverse es →
  count < len returned →
  xrangeLoop reverse start end_ count es returned
  = returned ++ filter (kept reverse start end_) es.
Proof.
  unfold ordered. revert returned.
  induction es as [|e es IH]; intros returned Hs Hc.
  { simpl. by rewrite filter_nil, app_nil_r. }
  apply StronglySorted_cons in Hs as [He Hs]. rewrite xrangeLoop_cons.
  destruct (Z.eqb_spec (len returned) count) as [?|_]; [lia|].
  destruct (Z.eqb_spec (streamCmp (ID e) end_) (past reverse)) as [Hend|Hend].
  { by rewrite (scan_stops _ _ _ _ _ He Hend), app_nil_r. }
  destruct (Z.eqb_spec (streamCmp (ID e) start) (- past reverse)) as [Hst|Hst].
  - rewrite filter_cons_False by (intros [? ?]; done). by apply IH.
  - rewrite filter_cons_True by done.
    rewrite IH by (try done; rewrite len_app; unfold len in *; simpl; lia).
    by rewrite <-app_assoc.
Qed.

Lemma StronglySorted_reverse {A} (R : relation A) (l : list A) :
  StronglySorted R l → StronglySorted (flip R) (reverse l).
Proof.
  induction 1 as [|x l _ IH Hx]; [constructor|].
  rewrite reverse_cons. apply StronglySorted_app_2; [|done|repeat constructor].
  intros y z Hy ->%list_elem_of_singleton.
  rewrite Forall_forall in Hx. unfold flip. apply Hx.
  by rewrite <-elem_of_reverse.
Qed.

Lemma StronglySorted_impl {A} (R R' : relation A) (l : list A) :
  (∀ x y, R x y → R' x y) → StronglySorted R l → StronglySorted R' l.
Proof.
  intros HR. induction 1 as [|x l _ IH Hx]; constructor; [done|].
  eapply Forall_impl; [done|]. intros y. apply HR.
Qed.

Lemma ascending_ordered reverse es :
  ascending es →
  ordered reverse (if reverse then reversedStreamEntries es else es).
Proof.
  intros Hs. destruct reverse; [|done].
  apply StronglySorted_reverse in Hs. unfold ordered; simpl.
  eapply StronglySorted_impl; [|done].
  intros x y Hxy. by apply streamCmp_flip.
Qed.

Lemma kept_within reverse start end_ e :
  kept reverse start end_ e
  ↔ within (if reverse then end_ else start) (if reverse then start else end_) e.
Proof. unfold kept, within. destruct reverse; simpl; tauto. Qed.

Lemma xrangeEntries_spec reverse start end_ count es :
  ascending es →
  xrangeEntries reverse start end_ count es
  = upTo count (filter (within (if reverse then end_ else start)
                               (if reverse then start else end_))
                       (if reverse then reversedStreamEntries es else es)).
Proof.
  intros Hs%(ascending_ordered reverse). unfold xrangeEntries, upTo.
  set (scanned := if reverse then reversedStreamEntries es else es) in *.
  rewrite <-(list_filter_iff _ _ _ (kept_within reverse start end_)).
  destruct (Z.eqb_spec count 0) as [->|Hne]; simpl.
  - rewrite xrangeLoop_spec by (done || apply len_nonneg). simpl.
    apply take_ge. change (len (@nil StreamEntry)) with 0. unfold len.
    pose proof (length_filter (kept reverse start end_) scanned). lia.
  - destruct (Z.ltb_spec 0 count).
    + rewrite xrangeLoop_spec
        by (done || (change (len (@nil StreamEntry)) with 0; lia)).
      simpl. do 2 f_equal. change (len (@nil StreamEntry)) with 0. lia.
    + by rewrite xrangeLoop_unbounded
        by (done || (change (len (@nil StreamEntry)) with 0; lia)).
Qed.

(** XREVRANGE is given the upper end first: asked for "-" and then "+", it
    looks for the entries at or above the maximum ID and at or below the
    minimum one, and finds none. *)
Lemma xrevrange_minus_plus count es :
  ascending es → xrangeEntries true minID maxID count es = [].
Proof.
  intros Hs. rewrite xrangeEntries_spec by done.
  rewrite filter_none; [unfold upTo; destruct (0 <? count); by rewrite ?take_nil|].
  intros e _ [Hlo Hhi]. unfold minID, maxID, strconv.maxUint64 in *.
  cmp_cases; simpl in *; try done; try lia.
Qed.

Lemma upTo_sublist {A} count (l : list A) : upTo count l `sublist_of` l.
Proof. unfold upTo. case_match; [apply sublist_take|done]. Qed.

(** *** The IDs of a stream fit in uint64 *)

Lemma ParseUint_bound a n : strconv.ParseUint a = Some n → (n ≤ strconv.maxUint64)%N.
Proof.
  unfold strconv.ParseUint. destruct (strconv.number a) as [m|]; [|done].
  destruct (N.leb_spec m strconv.maxUint64); [|done]. by intros [= <-].
Qed.

Lemma parseStreamIDWith_bound dflt tok i :
  (dflt ≤ strconv.maxUint64)%N → parseStreamIDWith dflt tok = Some i → isUint64 i.
Proof.
  unfold parseStreamIDWith, isUint64. intros Hd.
  destruct (splitDash tok) as [a b].
  destruct (strconv.ParseUint a) as [ms|] eqn:Hms; [|done].
  apply ParseUint_bound in Hms.
  destruct b as [b|]; [|by intros [= <-]].
  destruct (strconv.ParseUint b) as [sq|] eqn:Hsq; [|done].
  apply ParseUint_bound in Hsq. by intros [= <-].
Qed.

Lemma nowMillis_bound now : (nowMillis now ≤ strconv.maxUint64)%N.
Proof.
  unfold nowMillis, strconv.maxUint64.
  pose proof (Z.mod_pos_bound (time.UnixMilli now) (2 ^ 64) eq_refl). lia.
Qed.

Lemma generateID_bound now s :
  (∀ l, lastEntryID s = Some l → isUint64 l) → isUint64 (generateID now s).
Proof.
  unfold generateID, isUint64. intros Hl. pose proof (nowMillis_bound now).
  destruct (lastEntryID s) as [l|]; simpl; [|split; [done|by compute]].
  destruct (Hl l eq_refl) as [Hm Hs].
  assert ((seq l + 1) mod 2 ^ 64 ≤ strconv.maxUint64)%N.
  { pose proof (N.mod_upper_bound (seq l + 1) (2 ^ 64)).
    unfold strconv.maxUint64. lia. }
  case_match; simpl; split; try lia; by compute.
Qed.

Lemma reachable_uint64 s :
  reachable s →
  (∀ l, lastEntryID s = Some l → isUint64 l)
  ∧ (∀ e, e ∈ entries s → isUint64 (ID e)).
Proof.
  induction 1 as [|s tok vs now s' newID _ [IHl IHe] Hadd
                  |s n _ [IHl IHe]|s ids _ [IHl IHe]|s gs _ [IHl IHe]].
  - split; [done|]. intros e He. by apply elem_of_nil in He.
  - assert (∃ i, isUint64 i
                 ∧ s' = mkStream (entries s ++ [mkEntry i vs]) (Some i) (groups s))
      as (i & Hi & ->).
    { unfold add in Hadd.
      destruct (String.eqb tok "*").
      - destruct (follows _ _); [|done]. injection Hadd as <- _.
        eauto using generateID_bound.
      - destruct (parseStreamID tok) as [i|] eqn:Hp; [|done].
        destruct (follows _ _); [|done]. injection Hadd as <- _.
        exists i. split; [|done].
        eapply parseStreamIDWith_bound; [|done]. by compute. }
    simpl. split; [by intros l [= <-]|].
    intros e [He| ->%list_elem_of_singleton]%elem_of_app; auto.
  - rewrite trim_lastEntryID. split; [done|].
    intros e He. eapply IHe, elem_of_sublist, trim_sublist. done.
  - split; [done|].
    intros e He. eapply IHe, elem_of_sublist, deleteEntries_sublist. done.
  - done.
Qed.

Lemma within_full i : isUint64 i → ∀ vs, within minID maxID (mkEntry i vs).
Proof.
  intros [Hm Hs] vs. split; [apply streamCmp_min|]. simpl.
  unfold maxID. cmp_cases; simpl in *; try lia; discriminate.
Qed.

Lemma xrange_bounds_full :
  formatStreamRangeBound "-" true false = Some minID
  ∧ formatStreamRangeBound "+" false false = Some maxID
  ∧ formatStreamRangeBound "+" true true = Some maxID
  ∧ formatStreamRangeBound "-" false true = Some minID
  ∧ strconv.Atoi "0" = Some 0.
Proof. by vm_compute. Qed.

Lemma xrangeTx_stream reverse db key startKey endKey countArg s start end_ count :
  keys db !! key = Some "stream"%string →
  streamKeys db !! key = Some s →
  formatStreamRangeBound startKey true reverse = Some start →
  formatStreamRangeBound endKey false reverse = Some end_ →
  strconv.Atoi countArg = Some count →
  xrangeTx reverse db key startKey endKey countArg
  = writeEntries (xrangeEntries reverse start end_ count (entries s)).
Proof.
  intros Hk Hs Hstart Hend Hcount. unfold xrangeTx, exists_, isStream, t.
  by rewrite Hstart, Hend, Hcount, Hk, Hs.
Qed.

(** XRANGE key start end, with or without COUNT. *)
Lemma makeCmdXrange_plain reverse db cmd key startKey endKey :
  makeCmdXrange reverse db cmd [key; startKey; endKey]
  = xrangeTx reverse db key startKey endKey "0".
Proof. done. Qed.

Lemma makeCmdXrange_count reverse db cmd key startKey endKey kw countArg :
  ToLower kw = "count"%string →
  makeCmdXrange reverse db cmd [key; startKey; endKey; kw; countArg]
  = xrangeTx reverse db key startKey endKey countArg.
Proof.
  intros Hkw. unfold makeCmdXrange.
  change (len [key; startKey; endKey; kw; countArg]) with 5. cbn beta iota.
  by rewrite Hkw.
Qed.

(** C3. For a stream held under [key]: XRANGE returns the entries whose ID
    is in [start, end], both ends included, in ascending order; XREVRANGE,
    which is given the upper end first, returns the entries in [end, start]
    in descending order; a positive COUNT keeps the first COUNT of them and
    COUNT 0 keeps them all; and XREVRANGE over an interval is the reverse of
    XRANGE over it, so over + and - it is the reverse of XRANGE over - and +,
    which is every entry. *)
Theorem xrange_returns_the_range reverse db key startKey endKey countArg
    s start end_ count :
  keys db !! key = Some "stream"%string →
  streamKeys db !! key = Some s →
  reachable s →
  formatStreamRangeBound startKey true reverse = Some start →
  formatStreamRangeBound endKey false reverse = Some end_ →
  strconv.Atoi countArg = Some count →
  let lo := if reverse then end_ else start in
  let hi := if reverse then start else end_ in
  let scanned := if reverse then reversedStreamEntries (entries s) else entries s in
  let r := xrangeEntries reverse start end_ count (entries s) in
  xrangeTx reverse db key startKey endKey countArg = writeEntries r
  ∧ r = upTo count (filter (within lo hi) scanned)
  ∧ (count = 0 → ∀ e, e ∈ r ↔ e ∈ entries s ∧ within lo hi e)
  ∧ (if reverse then descending r else ascending r)
  ∧ (∀ lo' hi',
       xrangeEntries true hi' lo' 0 (entries s)
       = reversedStreamEntries (xrangeEntries false lo' hi' 0 (entries s)))
  ∧ xrangeTx false db key "-" "+" "0" = writeEntries (entries s)
  ∧ xrangeTx true db key "+" "-" "0"
    = writeEntries (reversedStreamEntries (entries s)).
Proof.
  intros Hk Hs Hreach Hstart Hend Hcount lo hi scanned r.
  destruct (reachable_inv _ Hreach) as [Hasc _].
  destruct (reachable_uint64 _ Hreach) as [_ Hu].
  assert (Hr : r = upTo count (filter (within lo hi) scanned))
    by by apply xrangeEntries_spec.
  assert (Hfull : filter (within minID maxID) (entries s) = entries s).
  { apply filter_all. intros [i vs] He. apply within_full. by apply (Hu _ He). }
  destruct xrange_bounds_full as (Hb1 & Hb2 & Hb3 & Hb4 & Hb5).
  split; [by eapply xrangeTx_stream|]. split; [done|]. split; [|split; [|split; [|split]]].
  - intros ->. rewrite Hr. unfold upTo, scanned; simpl. intros e.
    rewrite list_elem_of_filter.
    destruct reverse; unfold reversedStreamEntries;
      rewrite ?elem_of_reverse; tauto.
  - assert (r `sublist_of` scanned) as Hsub.
    { rewrite Hr. etrans; [apply upTo_sublist|apply sublist_filter]. }
    pose proof (ascending_ordered reverse _ Hasc) as Hord. fold scanned in Hord.
    unfold descending, ascending. destruct reverse;
      eapply StronglySorted_sublist; done.
  - intros lo' hi'. rewrite !xrangeEntries_spec by done. unfold upTo; simpl.
    unfold reversedStreamEntries. by rewrite filter_reverse.
  - rewrite (xrangeTx_stream false db key _ _ _ s minID maxID 0) by done.
    rewrite xrangeEntries_spec by done. unfold upTo; simpl. by rewrite Hfull.
  - rewrite (xrangeTx_stream true db key _ _ _ s maxID minID 0) by done.
    rewrite xrangeEntries_spec by done. unfold upTo; simpl.
    unfold reversedStreamEntries. by rewrite filter_reverse, Hfull.
Qed.

(** *** The pending rows of a group stay sorted *)

Lemma pendingCount_pos g name :
  0 < pendingCount g name ↔ ∃ p, p ∈ pending g ∧ consumer p = name.
Proof.
  unfold pendingCount. split.
  - intros Hpos.
    destruct (filter (λ p, consumer p = name) (pending g)) as [|p ps] eqn:Hf;
      [simpl in Hpos; lia|].
    assert (p ∈ filter (λ p, consumer p = name) (pending g)) as Hin
      by (rewrite Hf; left).
    apply list_elem_of_filter in Hin as [? ?]. eauto.
  - intros (p & Hin & Hc).
    assert (p ∈ filter (λ p, consumer p = name) (pending g)) as Hin'
      by by apply list_elem_of_filter.
    destruct (filter _ _); [by apply elem_of_nil in Hin'|simpl; lia].
Qed.

Lemma ascending_last es e :
  ascending es → last es = Some e →
  ∀ x, x ∈ es → streamCmp (ID x) (ID e) ≠ 1.
Proof.
  intros Hs [front ->]%last_Some x [Hx| ->%list_elem_of_singleton]%elem_of_app.
  - unfold ascending in Hs.
    by rewrite (StronglySorted_app_1_elem_of _ _ _ _ _ Hs Hx
                  (proj2 (list_elem_of_singleton e e) eq_refl)).
  - by rewrite streamCmp_refl.
Qed.

Lemma readGroup_keeps_inv now name id count noack s g :
  ascending (entries s) → groupInv g →
  groupInv (readGroup now name id count noack s g).1.
Proof.
  intros Hasc (Hsorted & Hcursor & Hreg). unfold readGroup.
  assert (∀ (ps : list pendingEntry) (c : StreamEntryID),
            (∀ p, p ∈ ps → is_Some (consumers g !! consumer p) ∨ consumer p = name) →
            registered (mkGroup c ps (<[name := tt]> (consumers g)))) as Hins.
  { intros ps c Hps p Hin; simpl in *. rewrite lookup_insert.
    case_decide; [by eauto|]. destruct (Hps p Hin); [done|congruence]. }
  destruct (String.eqb id ">"); simpl.
  - set (msgs := if 0 <? count then _ else _).
    assert (msgs `sublist_of` undelivered s g) as Hsub.
    { unfold msgs. destruct (0 <? count); [apply sublist_take|done]. }
    assert (ascending msgs) as Hmsgs.
    { eapply StronglySorted_sublist; [|exact Hasc].
      etrans; [exact Hsub|apply sublist_filter]. }
    assert (∀ e, e ∈ msgs → streamCmp (ID e) (lastID g) = 1) as Habove.
    { intros e He. eapply elem_of_sublist in He; [|exact Hsub].
      by apply list_elem_of_filter in He as [? _]. }
    set (rows := if noack then [] else _).
    assert (∀ r, r ∈ rows → consumer r = name ∧ ∃ e, e ∈ msgs ∧ pid r = ID e)
      as Hrows.
    { unfold rows. destruct noack; intros r Hr; [by apply elem_of_nil in Hr|].
      apply list_elem_of_fmap in Hr as (e & -> & He). eauto. }
    assert (StronglySorted (λ a b, streamCmp (pid a) (pid b) ≠ 1) rows) as Hrs.
    { unfold rows. destruct noack; [constructor|].
      clear -Hmsgs. induction Hmsgs as [|e es _ IH He]; [constructor|].
      rewrite fmap_cons. constructor; [done|].
      apply Forall_fmap. eapply Forall_impl; [exact He|].
      simpl. intros x ->. done. }
    split; [|split]; simpl.
    + unfold pendingSorted; simpl. apply StronglySorted_app_2; [|done..].
      intros p r Hp (_ & e & He & ->)%Hrows.
      specialize (Hcursor p Hp). specialize (Habove e He).
      apply streamCmp_flip in Habove.
      by rewrite (streamCmp_le_lt_trans _ _ _ Hcursor Habove).
    + intros p [Hp|(_ & e & He & Hpe)%Hrows]%elem_of_app.
      * specialize (Hcursor p Hp).
        destruct (last msgs) as [l|] eqn:Hl; [|done].
        assert (l ∈ msgs) as Hlin.
        { apply last_Some in Hl as [? ->]. apply elem_of_app. right. left. }
        specialize (Habove l Hlin). apply streamCmp_flip in Habove.
        by rewrite (streamCmp_le_lt_trans _ _ _ Hcursor Habove).
      * rewrite Hpe. destruct (last msgs) as [l|] eqn:Hl.
        -- by apply (ascending_last msgs).
        -- apply last_None in Hl. rewrite Hl in He. by apply elem_of_nil in He.
    + apply Hins. intros p [Hp|[? _]%Hrows]%elem_of_app; auto.
  - split; [done|]. split; [done|]. apply Hins. auto.
Qed.

Lemma ack_keeps_inv ids g : groupInv g → groupInv (ack ids g).1.
Proof.
  intros (Hsorted & Hcursor & Hreg). unfold ack, groupInv, pendingSorted, registered.
  simpl. split; [|split].
  - eapply StronglySorted_sublist; [apply sublist_filter|done].
  - intros p [_ Hp]%list_elem_of_filter. by apply Hcursor.
  - intros p [_ Hp]%list_elem_of_filter. by apply Hreg.
Qed.

(** *** XPENDING, the summary *)

Lemma pendingByConsumer_lookup g name :
  pendingByConsumer g !! name
  = if decide (is_Some (consumers g !! name) ∧ 0 < pendingCount g name)
    then Some (pendingCount g name) else None.
Proof.
  unfold pendingByConsumer. rewrite map_lookup_imap.
  destruct (consumers g !! name) as [[]|]; simpl.
  - destruct (Z.ltb_spec 0 (pendingCount g name)); case_decide as Hd;
      try done; [destruct Hd; eauto|destruct Hd; lia].
  - done.
Qed.

Lemma sortedConsumers_elem_of g name :
  name ∈ sortedConsumers (pendingByConsumer g)
  ↔ is_Some (consumers g !! name) ∧ 0 < pendingCount g name.
Proof.
  unfold sortedConsumers. rewrite merge_sort_Permutation, list_elem_of_fmap.
  split.
  - intros ([k v] & -> & Hkv%elem_of_map_to_list); simpl.
    rewrite pendingByConsumer_lookup in Hkv. by case_decide.
  - intros Hn. exists (name, pendingCount g name). split; [done|].
    apply elem_of_map_to_list. rewrite pendingByConsumer_lookup.
    by rewrite decide_True.
Qed.

Lemma sortedConsumers_sorted (cons : gmap string Z) :
  Sorted String.le (sortedConsumers cons) ∧ NoDup (sortedConsumers cons).
Proof.
  unfold sortedConsumers. split.
  - apply (Sorted_merge_sort String.le).
  - rewrite merge_sort_Permutation. apply NoDup_fst_map_to_list.
Qed.

Lemma sortedConsumers_length (cons : gmap string Z) :
  length (sortedConsumers cons) = size cons.
Proof.
  unfold sortedConsumers.
  by rewrite merge_sort_Permutation, length_fmap, length_map_to_list.
Qed.

(** Go ranges over a map in no fixed order; whatever the order in which the
    names are collected, sorting gives the same list. *)
Lemma sortedConsumers_any_order (cons : gmap string Z) (ids : list string) :
  ids ≡ₚ (map_to_list cons).*1 →
  merge_sort String.le ids = sortedConsumers cons.
Proof.
  intros Hp. apply (Sorted_unique String.le).
  - apply (Sorted_merge_sort String.le).
  - apply sortedConsumers_sorted.
  - unfold sortedConsumers. by rewrite !merge_sort_Permutation.
Qed.

Lemma bind_ext_in {A B} (f h : A → list B) (l : list A) :
  (∀ x, x ∈ l → f x = h x) → l ≫= f = l ≫= h.
Proof.
  induction l as [|x l IH]; intros Hl; [done|].
  rewrite !bind_cons, Hl, IH; [done| |left]. intros y Hy. apply Hl. by right.
Qed.

(** C5. The XPENDING summary of a group without pending rows is 0, two
    nulls and a null list. Otherwise it is the number of pending rows, the
    IDs of the first and of the last row, and one pair (name, count) for
    each consumer of the group whose pending count is above 0, the names in
    ascending order and without repetition; the rows' consumers being known
    to the group, those are all the names with a pending count above 0.
    When the rows are sorted by ID, the two IDs are the smallest and the
    largest pending ID. *)
Theorem xpending_summary_reports g :
  (pending g = [] →
   writeXpendingSummary g
   = [WriteLen 4; WriteInt 0; WriteNull; WriteNull; WriteLen (-1)])
  ∧ (pending g ≠ [] →
     ∃ first final names,
       head (pending g) = Some first
       ∧ last (pending g) = Some final
       ∧ writeXpendingSummary g
         = [WriteLen 4;
            WriteInt (len (pending g));
            WriteBulk (formatStreamID (pid first));
            WriteBulk (formatStreamID (pid final));
            WriteLen (len names)]
           ++ (names ≫= λ name,
                 [WriteLen 2; WriteBulk name;
                  WriteBulk (strconv.Itoa (pendingCount g name))])
       ∧ Sorted String.le names
       ∧ NoDup names
       ∧ (∀ name, name ∈ names
                  ↔ is_Some (consumers g !! name) ∧ 0 < pendingCount g name)
       ∧ (registered g → ∀ name, name ∈ names ↔ 0 < pendingCount g name)
       ∧ (pendingSorted g →
          ∀ p, p ∈ pending g →
               streamCmp (pid first) (pid p) ≠ 1
               ∧ streamCmp (pid p) (pid final) ≠ 1)).
Proof.
  unfold writeXpendingSummary. split; [by intros ->|].
  destruct (pending g) as [|first others] eqn:Hp; [done|]. intros _.
  destruct (proj2 (last_is_Some (first :: others))) as [final Hl]; [done|].
  exists first, final, (sortedConsumers (pendingByConsumer g)).
  split; [done|]. split; [done|]. rewrite Hl; simpl.
  split; [|split; [|split; [|split; [|split]]]].
  - unfold len. rewrite sortedConsumers_length. do 5 f_equal.
    apply bind_ext_in. intros name Hn%sortedConsumers_elem_of.
    rewrite pendingByConsumer_lookup, decide_True by done. done.
  - apply sortedConsumers_sorted.
  - apply sortedConsumers_sorted.
  - apply sortedConsumers_elem_of.
  - intros Hreg name. rewrite sortedConsumers_elem_of. split; [by intros [_ ?]|].
    intros Hpos. split; [|done].
    apply pendingCount_pos in Hpos as (p & Hin & <-).
    by apply Hreg.
  - unfold pendingSorted. rewrite Hp. intros Hs p Hin.
    apply last_Some in Hl as [front Hl]. split.
    + apply StronglySorted_cons in Hs as [Hf _].
      apply elem_of_cons in Hin as [->|Hin].
      * by rewrite streamCmp_refl.
      * rewrite Forall_forall in Hf. by apply Hf.
    + rewrite Hl in Hs, Hin.
      apply elem_of_app in Hin as [Hin| ->%list_elem_of_singleton].
      * eapply StronglySorted_app_1_elem_of in Hs; [done|done|by left].
      * by rewrite streamCmp_refl.
Qed.

(** *** XPENDING, the detailed form *)

Lemma xpendingLoop_cons now start end_ count name p ps res :
  xpendingLoop now start end_ count name (p :: ps) res
  = if count <=? len res then res
    else if bool_decide (selected start end_ name p)
    then xpendingLoop now start end_ count name ps (res ++ [rowOf now p])
    else xpendingLoop now start end_ count name ps res.
Proof.
  simpl. destruct (count <=? len res); [done|].
  unfold selected.
  destruct name as [c|]; simpl.
  - destruct (String.eqb_spec (consumer p) c) as [Hc|Hc]; simpl.
    + destruct (Z.ltb_spec (streamCmp (pid p) start) 0);
        [rewrite bool_decide_eq_false_2; [done|lia]|].
      destruct (Z.ltb_spec 0 (streamCmp (pid p) end_));
        [rewrite bool_decide_eq_false_2; [done|lia]|].
      by rewrite bool_decide_eq_true_2.
    + rewrite bool_decide_eq_false_2; [done|]. by intros [? _].
  - destruct (Z.ltb_spec (streamCmp (pid p) start) 0);
      [rewrite bool_decide_eq_false_2; [done|lia]|].
    destruct (Z.ltb_spec 0 (streamCmp (pid p) end_));
      [rewrite bool_decide_eq_false_2; [done|lia]|].
    by rewrite bool_decide_eq_true_2.
Qed.

Lemma xpendingLoop_spec now start end_ count name ps res :
  xpendingLoop now start end_ count name ps res
  = res ++ take (Z.to_nat (count - len res))
                (rowOf now <$> filter (selected start end_ name) ps).
Proof.
  revert res. induction ps as [|p ps IH]; intros res.
  { rewrite filter_nil. simpl. by rewrite take_nil, app_nil_r. }
  rewrite xpendingLoop_cons.
  destruct (Z.leb_spec count (len res)) as [Hle|Hlt].
  { replace (Z.to_nat (count - len res)) with 0%nat by lia.
    by rewrite take_0, app_nil_r. }
  destruct (bool_decide_reflect (selected start end_ name p)) as [Hp|Hp].
  - rewrite filter_cons_True by done.
    rewrite IH, len_app, fmap_cons. change (len [rowOf now p]) with 1.
    replace (Z.to_nat (count - len res))
      with (S (Z.to_nat (count - (len res + 1)))) by lia.
    by rewrite <-app_assoc.
  - by rewrite filter_cons_False, IH.
Qed.

(** C6. The detailed XPENDING reply lists no row when the count is negative
    or zero (a null list when the count is negative or nothing is pending,
    an empty list otherwise). With a positive count it lists, in the order
    of the pending rows and stopping after [count] of them, the rows whose
    ID is in [start, end] and, when a consumer is named, that the consumer
    owns; each with its ID, its consumer, the whole milliseconds from its
    last delivery to now, and its delivery count. *)
Theorem xpending_detail_lists now g start end_ count name :
  let rows := rowOf now <$> filter (selected start end_ name) (pending g) in
  (count ≤ 0 →
   writeXpending now g start end_ count name
   = [WriteLen (if (len (pending g) =? 0) || (count <? 0) then -1 else 0)])
  ∧ (0 < count →
     writeXpending now g start end_ count name
     = if len (pending g) =? 0 then [WriteLen (-1)]
       else WriteLen (len (take (Z.to_nat count) rows))
            :: (take (Z.to_nat count) rows ≫= writeRow))
  ∧ (∀ p,
       row_id (rowOf now p) = pid p
       ∧ row_consumer (rowOf now p) = consumer p
       ∧ row_count (rowOf now p) = deliveryCount p
       ∧ row_millis (rowOf now p)
         = Z.quot (time.Sub now (lastDelivery p)) 1000000
       ∧ (minInt64 ≤ now - lastDelivery p ≤ maxInt64 →
          row_millis (rowOf now p) = Z.quot (now - lastDelivery p) 1000000)).
Proof.
  unfold writeXpending. split; [|split].
  - intros Hc. destruct (len (pending g) =? 0); simpl; [done|].
    destruct (Z.ltb_spec count 0); [done|].
    rewrite xpendingLoop_spec. change (len []) with 0.
    replace (Z.to_nat (count - 0)) with 0%nat by lia. by rewrite take_0.
  - intros Hc. destruct (len (pending g) =? 0); simpl; [done|].
    destruct (Z.ltb_spec count 0); [lia|].
    rewrite xpendingLoop_spec. change (len []) with 0.
    by rewrite Z.sub_0_r.
  - intros p. repeat split; try done.
    intros [Hlo Hhi]. unfold rowOf, time.Milliseconds, time.Sub; simpl.
    destruct (Z.ltb_spec (now - lastDelivery p) minInt64); [lia|].
    destruct (Z.ltb_spec maxInt64 (now - lastDelivery p)); [lia|]. done.
Qed.

(** *** XACK *)

Lemma streamGroupOf_absent db key group :
  keys db !! key = None → streamKeys db !! key = None →
  streamGroupOf db key group = inr None.
Proof.
  intros Hk Hs. unfold streamGroupOf, stream, exists_. by rewrite Hk, Hs.
Qed.

Lemma streamGroupOf_stream db key group s :
  keys db !! key = Some "stream"%string → streamKeys db !! key = Some s →
  streamGroupOf db key group = inr (groups s !! group).
Proof.
  intros Hk Hs. unfold streamGroupOf, stream, exists_, isStream, t.
  by rewrite Hk, Hs.
Qed.

Lemma streamGroupOf_wrong_type db key group ty :
  keys db !! key = Some ty → ty ≠ "stream"%string →
  streamGroupOf db key group = inl ErrWrongType.
Proof.
  intros Hk Hty. unfold streamGroupOf, stream, exists_, isStream, t.
  rewrite Hk; simpl. by destruct (String.eqb_spec ty "stream").
Qed.

(** C10. An XACK that names a key that is not there, or a stream that has
    no group of the given name, is answered with the integer 0, not with an
    error, and leaves the database as it was. *)
Theorem xack_missing_group_replies_zero db cmd key group ids :
  ids ≠ [] →
  (keys db !! key = None ∧ streamKeys db !! key = None)
  ∨ (∃ s, keys db !! key = Some "stream"%string
          ∧ streamKeys db !! key = Some s
          ∧ groups s !! group = None) →
  cmdXack db cmd (key :: group :: ids) = (db, [WriteInt 0]).
Proof.
  intros Hids Hmissing. unfold cmdXack.
  destruct (Z.ltb_spec (len (key :: group :: ids)) 3) as [Hlen|_].
  { destruct ids; [done|]. unfold len in Hlen. simpl in Hlen. lia. }
  destruct Hmissing as [[Hk Hs]|(s & Hk & Hs & Hg)].
  - by rewrite (streamGroupOf_absent _ _ _ Hk Hs).
  - by rewrite (streamGroupOf_stream _ _ _ _ Hk Hs), Hg.
Qed.

(** Where the key holds a value that is not a stream, the reply is the
    wrong-type error; the database is left as it was there too. *)
Lemma xack_wrong_type db cmd key group ids ty :
  ids ≠ [] →
  keys db !! key = Some ty → ty ≠ "stream"%string →
  cmdXack db cmd (key :: group :: ids) = (db, [WriteError msgWrongType]).
Proof.
  intros Hids Hk Hty. unfold cmdXack.
  destruct (Z.ltb_spec (len (key :: group :: ids)) 3) as [Hlen|_].
  { destruct ids; [done|]. unfold len in Hlen. simpl in Hlen. lia. }
  by rewrite (streamGroupOf_wrong_type _ _ _ _ Hk Hty).
Qed.

(** *** XPENDING: from the command line to the two writers *)

Lemma cmdXpending_summary now db cmd key group s g :
  keys db !! key = Some "stream"%string →
  streamKeys db !! key = Some s →
  groups s !! group = Some g →
  cmdXpending now db cmd [key; group] = writeXpendingSummary g.
Proof.
  intros Hk Hs Hg. unfold cmdXpending.
  change (len [key; group] <? 2) with false. cbn beta iota.
  by rewrite (streamGroupOf_stream _ _ _ _ Hk Hs), Hg.
Qed.

Lemma cmdXpending_detail now db cmd key group s g a0 a1 a2 rest start end_ count :
  keys db !! key = Some "stream"%string →
  streamKeys db !! key = Some s →
  groups s !! group = Some g →
  ToUpper a0 ≠ "IDLE"%string →
  formatStreamRangeBound a0 true false = Some start →
  formatStreamRangeBound a1 false false = Some end_ →
  strconv.Atoi a2 = Some count →
  cmdXpending now db cmd (key :: group :: a0 :: a1 :: a2 :: rest)
  = match rest with
    | [] => writeXpending now g start end_ count None
    | [c] => writeXpending now g start end_ count (Some c)
    | _ => [SetDirty; WriteError msgSyntaxError]
    end.
Proof.
  intros Hk Hs Hg Hidle Hstart Hend Hcount. unfold cmdXpending.
  destruct (Z.ltb_spec (len (key :: group :: a0 :: a1 :: a2 :: rest)) 2) as [Hl|_].
  { unfold len in Hl. simpl in Hl. lia. }
  destruct (String.eqb_spec (ToUpper a0) "IDLE") as [?|_]; [done|].
  rewrite Hstart, Hend, Hcount, (streamGroupOf_stream _ _ _ _ Hk Hs), Hg.
  by destruct rest as [|c [|? ?]].
Qed.

(** *** XREADGROUP: when BLOCK is dropped *)

Lemma blockAfterIDs_spec o :
  blockAfterIDs o = opt_block o && forallb (λ id, String.eqb id ">") (opt_ids o).
Proof.
  unfold blockAfterIDs. generalize (opt_block o) as b.
  induction (opt_ids o) as [|id ids IH]; intros b; simpl.
  { by rewrite andb_true_r. }
  rewrite IH. destruct (String.eqb id ">"); simpl; [done|].
  by rewrite andb_false_r.
Qed.

Lemma blockAfterIDs_concrete o id :
  id ∈ opt_ids o → id ≠ ">"%string → blockAfterIDs o = false.
Proof.
  intros Hin Hne. rewrite blockAfterIDs_spec.
  apply andb_false_intro2, not_true_iff_false. intros Hall.
  rewrite forallb_forall in Hall. apply list_elem_of_In, Hall in Hin.
  by apply String.eqb_eq in Hin.
Qed.

(** [opts.block] is set by a BLOCK option and by nothing else. *)
Lemma parseBlock_sets_block cmd args o o' :
  parseBlock cmd args o = (o', None) → opt_block o' = true.
Proof.
  unfold parseBlock. destruct args as [|? [|a1 ?]]; try done.
  destruct (strconv.Atoi a1) as [ms|]; [|done].
  destruct (ms <? 0); [done|]. by intros [= <-].
Qed.

(** [xreadgroup] is given as many IDs as streams, so pairing them up loses
    nothing and [ids[i]] is always in range. *)
Lemma xreadgroupArgs_lengths cmd args o o' :
  xreadgroupArgs cmd args o = (o', None) →
  length (opt_streams o) = length (opt_ids o) →
  length (opt_streams o') = length (opt_ids o').
Proof.
  assert (∀ n args o, (length args ≤ n)%nat →
            xreadgroupArgs cmd args o = (o', None) →
            length (opt_streams o) = length (opt_ids o) →
            length (opt_streams o') = length (opt_ids o')) as Hind.
  { induction n as [|n IH]; intros [|a0 rest] o1 Hlen; simpl in *;
      try (by intros [= <-]); try lia.
    destruct (String.eqb (ToUpper a0) "COUNT").
    { destruct rest as [|a1 rest2]; [done|].
      destruct (strconv.Atoi a1) as [c|]; [|done]. intros Hrun Ho.
      apply (IH rest2 (setCount o1 c)); [simpl in Hlen; lia|done|done]. }
    destruct (String.eqb (ToUpper a0) "BLOCK").
    { destruct rest as [|a1 rest2]; [done|].
      unfold parseBlock. destruct (strconv.Atoi a1) as [ms|]; [|done].
      destruct (ms <? 0); [done|]. intros Hrun Ho.
      apply (IH rest2 _ ltac:(simpl in Hlen; lia) Hrun). done. }
    destruct (String.eqb (ToUpper a0) "NOACK").
    { intros Hrun Ho. apply (IH rest (setNoack o1)); [lia|done|done]. }
    destruct (String.eqb (ToUpper a0) "STREAMS"); [|done].
    destruct (Z.eqb_spec (Z.rem (len rest) 2) 0) as [Hev|]; [|done].
    cbn [negb]. intros [= <-] _. unfold setStreams. cbn [opt_streams opt_ids].
    rewrite length_take, length_drop.
    unfold len in Hev. apply Z.rem_divide in Hev as [k Hk]; [|done].
    assert (length rest = (Z.to_nat k * 2)%nat) as Hk' by lia.
    change (Nat.divmod (length rest) 1 0 1).1 with (length rest / 2)%nat.
    rewrite Hk', Nat.div_mul by done. lia. }
  by apply (Hind (length args)).
Qed.

Lemma xreadgroupOpts_lengths cmd args o :
  xreadgroupOpts cmd args = inr o →
  length (opt_streams o) = length (opt_ids o).
Proof.
  unfold xreadgroupOpts. destruct (len args <? 6); [done|].
  destruct args as [|a0 [|group [|name args]]]; try done.
  destruct (negb _); [done|].
  destruct (xreadgroupArgs _ _ _) as [o' [e|]] eqn:Hargs; [done|].
  destruct (_ || _); [done|]. intros [= <-].
  by apply (xreadgroupArgs_lengths _ _ _ _ Hargs).
Qed.

Lemma cmdXreadgroup_readOnce now db cmd args o :
  xreadgroupOpts cmd args = inr o →
  blockAfterIDs o = false →
  cmdXreadgroup now db cmd args = readOnce now db o.
Proof.
  intros Ho Hb. unfold cmdXreadgroup, readOnce. by rewrite Ho, Hb.
Qed.

(** C9. An XREADGROUP with a BLOCK option and with an ID that is not ">"
    among its IDs does not block: it runs [xreadgroup] once, inside
    [withTx], and replies with what that call gives, an error, the entries
    or a null list; the reader is never parked. *)
Theorem xreadgroup_block_dropped now db cmd args o id :
  xreadgroupOpts cmd args = inr o →
  opt_block o = true →
  id ∈ opt_ids o →
  id ≠ ">"%string →
  cmdXreadgroup now db cmd args = readOnce now db o
  ∧ (∃ db1 out, cmdXreadgroup now db cmd args = Replied db1 out)
  ∧ (∀ db1 timeout, cmdXreadgroup now db cmd args ≠ Waiting db1 timeout).
Proof.
  intros Ho _ Hin Hne.
  pose proof (cmdXreadgroup_readOnce now db _ _ _ Ho
                (blockAfterIDs_concrete _ _ Hin Hne)) as Hrun.
  split; [done|]. rewrite Hrun. unfold readOnce.
  destruct (xreadgroup _ _ _ _ _ _ _ _) as [db1 [err|res]]; split; eauto; done.
Qed.

(** *** XREADGROUP: streams without news *)

Arguments readGroup : simpl never.

Lemma streamGroupOf_Some db key group g :
  streamGroupOf db key group = inr (Some g) →
  ∃ s, streamKeys db !! key = Some s ∧ groups s !! group = Some g.
Proof.
  unfold streamGroupOf. destruct (stream db key) as [e|found] eqn:Hs; [done|].
  apply stream_found in Hs as ->.
  destruct (streamKeys db !! key) as [s|]; [|done]. intros [= Hg]. eauto.
Qed.

Lemma readGroup_nothing_new now name count noack s g :
  undelivered s g = [] →
  readGroup now name ">" count noack s g
  = (mkGroup (lastID g) (pending g) (<[name := tt]> (consumers g)), []).
Proof.
  intros Hu. unfold readGroup; simpl. rewrite Hu.
  assert ((if 0 <? count then take (Z.to_nat count) [] else [])
          = @nil StreamEntry) as -> by (destruct (0 <? count); by rewrite ?take_nil).
  simpl. destruct noack; by rewrite app_nil_r.
Qed.

Lemma nothingNew_other db group key k s :
  k ≠ key → nothingNew db group k → nothingNew (putStream db key s) group k.
Proof.
  intros Hne Hn s' g'; simpl. rewrite lookup_insert_ne by done. apply Hn.
Qed.

Lemma nothingNew_same db group key s g name :
  streamKeys db !! key = Some s → groups s !! group = Some g →
  nothingNew db group key →
  nothingNew
    (putStream db key
       (withGroups s
          (<[group := mkGroup (lastID g) (pending g) (<[name := tt]> (consumers g))]>
             (groups s))))
    group key.
Proof.
  intros Hs Hg Hn s' g'; simpl. rewrite lookup_insert_eq.
  intros [= <-]; simpl. rewrite lookup_insert_eq. intros [= <-].
  by apply (Hn s g).
Qed.

(** One turn of the loop. *)
Lemma xreadgroupLoop_cons db group name noack key id rest count now res :
  xreadgroupLoop db group name noack ((key, id) :: rest) count now res
  = match streamGroupOf db key group with
    | inl err => (db, inl err)
    | inr None => (db, inl (errXreadgroup key group))
    | inr (Some g) =>
        if negb (String.eqb id ">")
           && negb (bool_decide (is_Some (parseStreamID id)))
        then (db, inl errInvalidEntryID)
        else
          let s := default newStreamKey (streamKeys db !! key) in
          let r := readGroup now name id count noack s g in
          let db1 := putStream db key (withGroups s (<[group := r.1]> (groups s))) in
          xreadgroupLoop db1 group name noack rest count now
            (if String.eqb id ">" && (len r.2 =? 0) then res else <[key := r.2]> res)
    end.
Proof.
  cbn [xreadgroupLoop].
  destruct (streamGroupOf db key group) as [e|[g|]]; try done.
  destruct (_ && _); [done|].
  destruct (readGroup _ _ _ _ _ _ _) as [g1 es]. cbn [fst snd].
  by destruct (_ && _).
Qed.

(** One turn of the loop on a stream without news under [>]: nothing is
    put in the result. *)
Lemma xreadgroupLoop_idle db group name noack key rest count now res s g :
  streamKeys db !! key = Some s →
  groups s !! group = Some g →
  undelivered s g = [] →
  xreadgroupLoop db group name noack ((key, ">"%string) :: rest) count now res
  = match streamGroupOf db key group with
    | inr (Some _) =>
        xreadgroupLoop
          (putStream db key
             (withGroups s
                (<[group := mkGroup (lastID g) (pending g)
                                    (<[name := tt]> (consumers g))]> (groups s))))
          group name noack rest count now res
    | inr None => (db, inl (errXreadgroup key group))
    | inl err => (db, inl err)
    end.
Proof.
  intros Hs Hg Hu. rewrite xreadgroupLoop_cons.
  destruct (streamGroupOf db key group) as [e|[g'|]] eqn:Hg'; try done.
  apply streamGroupOf_Some in Hg' as (s' & Hs' & Hg').
  assert (s' = s) as -> by congruence. assert (g' = g) as -> by congruence.
  rewrite Hs. cbn [default from_option id].
  rewrite (readGroup_nothing_new _ _ _ _ _ _ Hu). done.
Qed.

Lemma xreadgroupLoop_omits k db group name noack reqs count now res db' res' :
  xreadgroupLoop db group name noack reqs count now res = (db', inr res') →
  (∀ id, (k, id) ∈ reqs → id = ">"%string) →
  nothingNew db group k →
  res' !! k = res !! k.
Proof.
  revert db res. induction reqs as [|[key id] rest IH]; intros db res Hrun Hids Hn.
  { by injection Hrun as _ <-. }
  assert (∀ id, (k, id) ∈ rest → id = ">"%string) as Hrest.
  { intros id' Hin. apply Hids. by right. }
  destruct (decide (key = k)) as [->|Hne].
  - rewrite (Hids id) in Hrun by left.
    destruct (streamGroupOf db k group) as [e|[g|]] eqn:Hg;
      [by rewrite xreadgroupLoop_cons, Hg in Hrun| |
       by rewrite xreadgroupLoop_cons, Hg in Hrun].
    pose proof Hg as (s & Hs & Hg')%streamGroupOf_Some.
    rewrite (xreadgroupLoop_idle _ _ _ _ _ _ _ _ _ s g), Hg in Hrun
      by eauto.
    apply (IH _ _ Hrun Hrest). by apply nothingNew_same.
  - rewrite xreadgroupLoop_cons in Hrun.
    destruct (streamGroupOf db key group) as [e|[g|]]; try done.
    destruct (_ && _); [done|]. cbn zeta in Hrun.
    rewrite (IH _ _ Hrun Hrest) by by apply nothingNew_other.
    destruct (_ && _); [done|]. by rewrite lookup_insert_ne.
Qed.

Lemma xreadgroupLoop_keeps k db group name noack reqs count now res db' res' :
  xreadgroupLoop db group name noack reqs count now res = (db', inr res') →
  is_Some (res !! k) → is_Some (res' !! k).
Proof.
  revert db res. induction reqs as [|[key id] rest IH]; intros db res Hrun Hk.
  { by injection Hrun as _ <-. }
  rewrite xreadgroupLoop_cons in Hrun.
  destruct (streamGroupOf db key group) as [e|[g|]]; try done.
  destruct (_ && _); [done|]. cbn zeta in Hrun.
  apply (IH _ _ Hrun). destruct (_ && _); [done|].
  rewrite lookup_insert. case_decide; eauto.
Qed.

Lemma xreadgroupLoop_reports k id db group name noack reqs count now res db' res' :
  xreadgroupLoop db group name noack reqs count now res = (db', inr res') →
  (k, id) ∈ reqs → id ≠ ">"%string →
  is_Some (res' !! k).
Proof.
  revert db res. induction reqs as [|[key id'] rest IH]; intros db res Hrun Hin Hne.
  { by apply elem_of_nil in Hin. }
  rewrite xreadgroupLoop_cons in Hrun.
  destruct (streamGroupOf db key group) as [e|[g|]]; try done.
  destruct (_ && _); [done|]. cbn zeta in Hrun.
  apply elem_of_cons in Hin as [[= <- <-]|Hin].
  - destruct (String.eqb_spec id ">") as [?|_]; [done|].
    apply (xreadgroupLoop_keeps _ _ _ _ _ _ _ _ _ _ _ Hrun).
    cbn [andb]. rewrite lookup_insert_eq. eauto.
  - by apply (IH _ _ Hrun).
Qed.

Lemma xreadgroupLoop_all_idle db group name noack reqs count now res db' res' :
  xreadgroupLoop db group name noack reqs count now res = (db', inr res') →
  (∀ key id, (key, id) ∈ reqs → id = ">"%string ∧ nothingNew db group key) →
  res' = res.
Proof.
  revert db res. induction reqs as [|[key id] rest IH]; intros db res Hrun Hall.
  { by injection Hrun as _ <-. }
  destruct (Hall key id) as [-> Hn]; [left|].
  destruct (streamGroupOf db key group) as [e|[g|]] eqn:Hg;
    [by rewrite xreadgroupLoop_cons, Hg in Hrun| |
     by rewrite xreadgroupLoop_cons, Hg in Hrun].
  pose proof Hg as (s & Hs & Hg')%streamGroupOf_Some.
  rewrite (xreadgroupLoop_idle _ _ _ _ _ _ _ _ _ s g), Hg in Hrun by eauto.
  apply (IH _ _ Hrun). intros k id Hin.
  destruct (Hall k id) as [-> Hk]; [by right|]. split; [done|].
  destruct (decide (k = key)) as [->|Hne].
  - by apply nothingNew_same.
  - by apply nothingNew_other.
Qed.

Lemma writeXread_null streams : writeXread streams ∅ = [WriteLen (-1)].
Proof. done. Qed.

Lemma writeXread_not_null streams res k :
  is_Some (res !! k) → writeXread streams res ≠ [WriteLen (-1)].
Proof.
  intros [es Hk]. unfold writeXread.
  assert (size res ≠ 0%nat) as Hsize.
  { intros ->%map_size_empty_inv. by rewrite lookup_empty in Hk. }
  destruct (Z.eqb_spec (Z.of_nat (size res)) 0); [lia|]. intros [= ?]. lia.
Qed.

(** A stream that is not in the result leaves no trace in the reply: the
    reply is the one of the command without that stream. *)
Lemma writeXread_omits streams res key :
  res !! key = None →
  writeXread streams res = writeXread (filter (λ s, s ≠ key) streams) res.
Proof.
  intros Hk. unfold writeXread. destruct (_ =? _); [done|]. f_equal.
  induction streams as [|s streams IH]; [done|].
  rewrite bind_cons. destruct (decide (s = key)) as [->|Hne].
  - rewrite filter_cons_False by (by intros ?). by rewrite Hk.
  - rewrite filter_cons_True by done. by rewrite bind_cons, IH.
Qed.

(** C7 (as amended). In the reply of a non-blocking XREADGROUP, a stream
    asked for under ">" only and whose group has nothing new is left out: it
    is not in the result and the reply is the reply of the command without
    that stream. A stream asked for from a concrete ID is always reported,
    with an empty list of entries if there is nothing to replay, and the
    reply is then not null. The reply is the null list when no stream is
    reported, which is the case when every stream is asked for under ">" and
    none has news. *)
Theorem xreadgroup_omits_idle_streams db group name noack streams ids count now
    db' res :
  xreadgroup db group name noack streams ids count now = (db', inr res) →
  (∀ key,
     (∀ id, (key, id) ∈ zip streams ids → id = ">"%string) →
     nothingNew db group key →
     res !! key = None
     ∧ writeXread streams res = writeXread (filter (λ s, s ≠ key) streams) res)
  ∧ (∀ key id,
       (key, id) ∈ zip streams ids → id ≠ ">"%string →
       is_Some (res !! key) ∧ writeXread streams res ≠ [WriteLen (-1)])
  ∧ (res = ∅ → writeXread streams res = [WriteLen (-1)])
  ∧ ((∀ key id, (key, id) ∈ zip streams ids →
                id = ">"%string ∧ nothingNew db group key) →
     res = ∅ ∧ writeXread streams res = [WriteLen (-1)]).
Proof.
  unfold xreadgroup. intros Hrun. split; [|split; [|split]].
  - intros key Hids Hn.
    assert (res !! key = None) as Hk.
    { by rewrite (xreadgroupLoop_omits _ _ _ _ _ _ _ _ _ _ _ Hrun Hids Hn). }
    split; [done|]. by apply writeXread_omits.
  - intros key id Hin Hne.
    pose proof (xreadgroupLoop_reports _ _ _ _ _ _ _ _ _ _ _ _ Hrun Hin Hne).
    split; [done|]. by eapply writeXread_not_null.
  - by intros ->.
  - intros Hall.
    by rewrite (xreadgroupLoop_all_idle _ _ _ _ _ _ _ _ _ _ Hrun Hall).
Qed.

End properties.

(** * The properties on the sample values *)

Lemma threeEntries_reachable : reachable threeEntries.
Proof.
  assert (∀ reqs s log s' log',
            reachable s → xaddAll s log reqs = Some (s', log') → reachable s')
    as Hall.
  { induction reqs as [|r reqs IH]; intros s log s' log' Hs; simpl.
    - by intros [= <- _].
    - destruct (add _ _ _ s) as [?|[s1 newID]] eqn:Ha; [done|].
      apply IH. destruct (0 <=? req_maxlen r);
        [apply reach_trim|]; by eapply reach_add. }
  apply (Hall threeAppends newStreamKey [] _ afterThree.2 reach_new).
  by vm_compute.
Qed.

Lemma xadd_explicit_id_monotonic_witness :
  stream (dbWith (trim 0 oneEntry)) "s" = inr (Some (trim 0 oneEntry))
  ∧ lastEntryID (trim 0 oneEntry) = Some (mkID 5 1)
  ∧ parseStreamID "5-1" = Some (mkID 5 1)
  ∧ streamCmp (mkID 5 1) (mkID 5 1) ≠ 1
  ∧ reachable threeEntries
  ∧ @xaddStore sample 0 (dbWith (trim 0 oneEntry)) "s" (-1) "5-1" ["f"; "v"]%string
    = (dbWith (trim 0 oneEntry), [WriteError (@msgStreamIDTooSmall sample)])
  ∧ ascending (entries threeEntries).
Proof.
  destruct (@xadd_explicit_id_monotonic sample) as (Hadd & _ & Hsorted).
  assert (Hs : stream (dbWith (trim 0 oneEntry)) "s"
               = inr (Some (trim 0 oneEntry))) by (vm_compute; reflexivity).
  assert (Hl : lastEntryID (trim 0 oneEntry) = Some (mkID 5 1)) by reflexivity.
  assert (Hp : parseStreamID "5-1" = Some (mkID 5 1)) by (vm_compute; reflexivity).
  assert (Hc : streamCmp (mkID 5 1) (mkID 5 1) ≠ 1) by (vm_compute; discriminate).
  split; [exact Hs|]. split; [exact Hl|]. split; [exact Hp|].
  split; [exact Hc|]. split; [exact threeEntries_reachable|]. split.
  - exact (proj2 (proj1 (Hadd 0 _ "s"%string (-1) "5-1"%string
                           ["f"; "v"]%string _ _ _ Hs Hl Hp) Hc)).
  - exact (proj1 (Hsorted _ threeEntries_reachable)).
Defined.

Lemma xadd_negative_maxlen_witness :
  4 ≤ len ["s"; "MAXLEN"; "~"; "-1"; "*"; "f"; "v"]%string
  ∧ @ToLower sample "MAXLEN" = "maxlen"%string
  ∧ strconv.Atoi "-1" = Some (-1)
  ∧ -1 < 0
  ∧ @cmdXadd sample 0 emptyDB "XADD" ["s"; "MAXLEN"; "~"; "-1"; "*"; "f"; "v"]%string
    = (emptyDB, [WriteError "ERR The MAXLEN argument must be >= 0."]).
Proof.
  assert (H1 : 4 ≤ len ["s"; "MAXLEN"; "~"; "-1"; "*"; "f"; "v"]%string)
    by (vm_compute; discriminate).
  assert (H2 : @ToLower sample "MAXLEN" = "maxlen"%string) by reflexivity.
  assert (H3 : strconv.Atoi "-1" = Some (-1)) by reflexivity.
  assert (H4 : -1 < 0) by lia.
  split; [exact H1|]. split; [exact H2|]. split; [exact H3|]. split; [exact H4|].
  exact (@xadd_negative_maxlen sample 0 emptyDB "XADD" "s" "MAXLEN"
           ["~"; "-1"; "*"; "f"; "v"]%string "-1" ["*"; "f"; "v"]%string (-1)
           H1 H2 (or_intror eq_refl) H3 H4).
Defined.

(** C2. A failed XADD can change the database: on a key that is not there,
    an XADD with a malformed entry ID is answered with the invalid-ID error
    and leaves the key behind, holding a new and empty stream. *)
Theorem xadd_failed_append_creates_key :
  @cmdXadd sample 0 emptyDB "XADD" ["s"; "abc"; "f"; "v"]%string
  = (mkDB {[ "s"%string := "stream"%string ]} {[ "s"%string := newStreamKey ]} ∅,
     [WriteError (@msgInvalidStreamID sample)])
  ∧ (@cmdXadd sample 0 emptyDB "XADD" ["s"; "abc"; "f"; "v"]%string).1 ≠ emptyDB
  ∧ keys emptyDB !! "s"%string = None.
Proof.
  split; [by vm_compute|]. split; [|done].
  intros Heq. apply (f_equal (λ db, keys db !! "s"%string)) in Heq.
  by vm_compute in Heq.
Qed.

Lemma xadd_maxlen_keeps_most_recent_witness :
  xaddAll newStreamKey [] threeAppends = Some afterThree
  ∧ (∀ q, q ∈ threeAppends →
          req_maxlen q < 0 ∨ req_maxlen boundedAppend ≤ req_maxlen q)
  ∧ 0 ≤ req_maxlen boundedAppend
  ∧ xaddAll afterThree.1 afterThree.2 [boundedAppend] = Some afterFour
  ∧ len afterFour.2 = len threeAppends + 1
  ∧ len (entries afterFour.1) = Z.min 2 (len afterFour.2)
  ∧ ID <$> entries afterFour.1 = [mkID 7 3; mkID 7 4].
Proof.
  destruct (@xadd_maxlen_keeps_most_recent sample) as (_ & Hrun & _).
  assert (H1 : xaddAll newStreamKey [] threeAppends
               = Some (afterThree.1, afterThree.2)) by (vm_compute; reflexivity).
  assert (H2 : ∀ q, q ∈ threeAppends →
                    req_maxlen q < 0 ∨ req_maxlen boundedAppend ≤ req_maxlen q).
  { intros q Hq. unfold threeAppends in Hq.
    repeat (apply elem_of_cons in Hq as [->|Hq]); simpl; try lia.
    by apply elem_of_nil in Hq. }
  assert (H3 : 0 ≤ req_maxlen boundedAppend) by (simpl; lia).
  assert (H4 : xaddAll afterThree.1 afterThree.2 [boundedAppend]
               = Some (afterFour.1, afterFour.2)) by (vm_compute; reflexivity).
  destruct (Hrun _ _ _ _ _ _ H1 H2 H3 H4) as (Hlen & Hmin & _).
  split; [vm_compute; reflexivity|]. split; [exact H2|]. split; [exact H3|].
  split; [vm_compute; reflexivity|]. split; [exact Hlen|].
  split; [exact Hmin|]. vm_compute; reflexivity.
Defined.

(** C4, as stated, fails when an earlier XADD trimmed the stream further: an
    XADD with MAXLEN 0 and then one with MAXLEN 5 leave one entry in the
    stream, not min(5, 2). *)
Lemma xadd_maxlen_counterexample :
  let first := @cmdXadd sample 1000000 emptyDB "XADD"
                 ["s"; "MAXLEN"; "0"; "*"; "f"; "v"]%string in
  let second := @cmdXadd sample 2000000 first.1 "XADD"
                  ["s"; "MAXLEN"; "5"; "*"; "f"; "v"]%string in
  first.2 = [WriteBulk "1-0"]
  ∧ second.2 = [WriteBulk "2-0"]
  ∧ (len ∘ entries) <$> streamKeys second.1 !! "s"%string = Some 1
  ∧ 1 ≠ Z.min 5 2.
Proof. vm_compute. repeat split; discriminate. Qed.

Lemma xrange_returns_the_range_witness :
  keys (dbWith threeEntries) !! "s"%string = Some "stream"%string
  ∧ streamKeys (dbWith threeEntries) !! "s"%string = Some threeEntries
  ∧ reachable threeEntries
  ∧ formatStreamRangeBound "7" true true = Some (mkID 7 strconv.maxUint64)
  ∧ formatStreamRangeBound "1-1" false true = Some (mkID 1 1)
  ∧ strconv.Atoi "0" = Some 0
  ∧ @xrangeTx sample true (dbWith threeEntries) "s" "7" "1-1" "0"
    = writeEntries [mkEntry (mkID 7 3) ["c"; "3"]%string;
                    mkEntry (mkID 1 1) ["b"; "2"]%string].
Proof.
  assert (H1 : keys (dbWith threeEntries) !! "s"%string = Some "stream"%string)
    by (vm_compute; reflexivity).
  assert (H2 : streamKeys (dbWith threeEntries) !! "s"%string = Some threeEntries)
    by (vm_compute; reflexivity).
  assert (H4 : formatStreamRangeBound "7" true true
               = Some (mkID 7 strconv.maxUint64)) by (vm_compute; reflexivity).
  assert (H5 : formatStreamRangeBound "1-1" false true = Some (mkID 1 1))
    by (vm_compute; reflexivity).
  assert (H6 : strconv.Atoi "0" = Some 0) by reflexivity.
  pose proof (@xrange_returns_the_range sample true _ _ "7"%string "1-1"%string
                "0"%string _ _ _ _ H1 H2 threeEntries_reachable H4 H5 H6)
    as (Hreply & _).
  split; [exact H1|]. split; [exact H2|]. split; [exact threeEntries_reachable|].
  split; [exact H4|]. split; [exact H5|]. split; [exact H6|].
  rewrite Hreply. vm_compute. reflexivity.
Defined.

Lemma xpending_summary_reports_witness :
  pending busyGroup ≠ []
  ∧ pendingSorted busyGroup
  ∧ writeXpendingSummary busyGroup
    = [WriteLen 4; WriteInt 3; WriteBulk "1-0"; WriteBulk "7-3"; WriteLen 2;
       WriteLen 2; WriteBulk "alice"; WriteBulk "2";
       WriteLen 2; WriteBulk "bob"; WriteBulk "1"]
  ∧ streamCmp (mkID 1 0) (mkID 1 1) ≠ 1.
Proof.
  assert (H1 : pending busyGroup ≠ []) by discriminate.
  assert (H2 : pendingSorted busyGroup).
  { unfold pendingSorted. refine (bool_decide_unpack _ _). vm_compute. exact I. }
  destruct (proj2 (@xpending_summary_reports busyGroup) H1)
    as (first & final & names & Hhd & _ & _ & _ & _ & _ & _ & Hmin).
  injection Hhd as <-.
  split; [exact H1|]. split; [exact H2|]. split; [vm_compute; reflexivity|].
  refine (proj1 (Hmin H2 (mkPending (mkID 1 1) "alice" 1 1000000) _)).
  right; left.
Defined.

Lemma xpending_detail_lists_witness :
  0 < 1
  ∧ minInt64 ≤ 4000000 - 2500000 ≤ maxInt64
  ∧ writeXpending 4000000 busyGroup minID maxID 1 (Some "alice"%string)
    = [WriteLen 1; WriteLen 4; WriteBulk "1-1"; WriteBulk "alice";
       WriteInt 3; WriteInt 1]
  ∧ row_millis (rowOf 4000000 (mkPending (mkID 7 3) "alice" 2 2500000)) = 1.
Proof.
  assert (H1 : 0 < 1) by lia.
  assert (H2 : minInt64 ≤ 4000000 - 2500000 ≤ maxInt64)
    by (vm_compute; split; discriminate).
  destruct (xpending_detail_lists 4000000 busyGroup minID maxID 1
              (Some "alice"%string)) as (_ & Hpos & Hrow).
  split; [exact H1|]. split; [exact H2|]. split.
  - rewrite (Hpos H1). vm_compute. reflexivity.
  - rewrite (proj2 (proj2 (proj2 (proj2
               (Hrow (mkPending (mkID 7 3) "alice" 2 2500000))))) H2).
    reflexivity.
Defined.

Lemma xack_missing_group_replies_zero_witness :
  ["1-0"]%string ≠ []
  ∧ keys (dbWith oneEntry) !! "s"%string = Some "stream"%string
  ∧ streamKeys (dbWith oneEntry) !! "s"%string = Some oneEntry
  ∧ groups oneEntry !! "g"%string = None
  ∧ @cmdXack sample (dbWith oneEntry) "XACK" ["s"; "g"; "1-0"]%string
    = (dbWith oneEntry, [WriteInt 0]).
Proof.
  assert (H0 : ["1-0"]%string ≠ []) by discriminate.
  assert (H1 : keys (dbWith oneEntry) !! "s"%string = Some "stream"%string)
    by (vm_compute; reflexivity).
  assert (H2 : streamKeys (dbWith oneEntry) !! "s"%string = Some oneEntry)
    by (vm_compute; reflexivity).
  assert (H3 : groups oneEntry !! "g"%string = None) by (vm_compute; reflexivity).
  split; [exact H0|]. split; [exact H1|]. split; [exact H2|]. split; [exact H3|].
  exact (@xack_missing_group_replies_zero sample (dbWith oneEntry) "XACK" "s" "g"
           ["1-0"]%string H0
           (or_intror (ex_intro _ oneEntry (conj H1 (conj H2 H3))))).
Defined.

Lemma xreadgroup_block_dropped_witness :
  @xreadgroupOpts sample "XREADGROUP"
     ["GROUP"; "g"; "alice"; "BLOCK"; "100"; "STREAMS"; "s"; "s"; ">"; "0"]%string
  = inr blockedOpts
  ∧ opt_block blockedOpts = true
  ∧ "0"%string ∈ opt_ids blockedOpts
  ∧ "0"%string ≠ ">"%string
  ∧ @cmdXreadgroup sample 0 (dbWith drained) "XREADGROUP"
      ["GROUP"; "g"; "alice"; "BLOCK"; "100"; "STREAMS"; "s"; "s"; ">"; "0"]%string
    = @readOnce sample 0 (dbWith drained) blockedOpts.
Proof.
  assert (H1 : @xreadgroupOpts sample "XREADGROUP"
     ["GROUP"; "g"; "alice"; "BLOCK"; "100"; "STREAMS"; "s"; "s"; ">"; "0"]%string
     = inr blockedOpts) by (vm_compute; reflexivity).
  assert (H2 : opt_block blockedOpts = true) by reflexivity.
  assert (H3 : "0"%string ∈ opt_ids blockedOpts) by (right; left).
  assert (H4 : "0"%string ≠ ">"%string) by discriminate.
  split; [exact H1|]. split; [exact H2|]. split; [exact H3|]. split; [exact H4|].
  exact (proj1 (@xreadgroup_block_dropped sample 0 (dbWith drained) _ _ _ _
                  H1 H2 H3 H4)).
Defined.

(** With ">" alone the same command does block: nothing is new, so the
    reader is parked with its timeout of 100 ms. *)
Lemma xreadgroup_block_waits :
  ∃ db1,
    @cmdXreadgroup sample 0 (dbWith drained) "XREADGROUP"
      ["GROUP"; "g"; "alice"; "BLOCK"; "100"; "STREAMS"; "s"; ">"]%string
    = Waiting db1 100000000.
Proof. eexists. vm_compute. reflexivity. Qed.

Lemma xreadgroup_omits_idle_streams_witness :
  @xreadgroup sample (dbWith drained) "g" "alice" false ["s"]%string
     [">"]%string 0 0 = (afterIdleRead, inr ∅)
  ∧ (∀ key id, (key, id) ∈ zip ["s"]%string [">"]%string →
               id = ">"%string ∧ nothingNew (dbWith drained) "g" key)
  ∧ writeXread ["s"]%string (∅ : gmap string (list StreamEntry)) = [WriteLen (-1)].
Proof.
  assert (H1 : @xreadgroup sample (dbWith drained) "g" "alice" false
                 ["s"]%string [">"]%string 0 0 = (afterIdleRead, inr ∅))
    by (vm_compute; reflexivity).
  assert (H2 : ∀ key id, (key, id) ∈ zip ["s"]%string [">"]%string →
                 id = ">"%string ∧ nothingNew (dbWith drained) "g" key).
  { intros key id [[= -> ->]|Hin%elem_of_nil]%elem_of_cons; [|done].
    split; [done|]. intros s g Hs Hg.
    assert (streamKeys (dbWith drained) !! "s"%string = Some drained) as Hs'
      by (vm_compute; reflexivity).
    rewrite Hs' in Hs. injection Hs as <-.
    assert (groups drained !! "g"%string = Some (mkGroup (mkID 5 1) [] ∅)) as Hg'
      by (vm_compute; reflexivity).
    rewrite Hg' in Hg. injection Hg as <-.
    vm_compute. reflexivity. }
  split; [exact H1|]. split; [exact H2|].
  exact (proj2 (proj2 (proj2 (proj2
           (@xreadgroup_omits_idle_streams sample _ _ _ _ _ _ _ _ _ _ H1))) H2)).
Defined.

(** C7, as stated, fails for a read from a concrete ID: with nothing
    pending, XREADGROUP GROUP g alice STREAMS s 0 gets no entry from
    [readGroup], and yet the reply is not the null list but the stream with
    an empty list of entries. *)
Lemma xreadgroup_concrete_id_counterexample :
  (readGroup 0 "alice" "0" 0 false drained (mkGroup (mkID 5 1) [] ∅)).2 = []
  ∧ (∃ db1,
       @cmdXreadgroup sample 0 (dbWith drained) "XREADGROUP"
         ["GROUP"; "g"; "alice"; "STREAMS"; "s"; "0"]%string
       = Replied db1 [WriteLen 1; WriteLen 2; WriteBulk "s"; WriteLen 0])
  ∧ [WriteLen 1; WriteLen 2; WriteBulk "s"; WriteLen 0] ≠ [WriteLen (-1)].
Proof.
  split; [by vm_compute|]. split; [|discriminate].
  eexists. vm_compute. reflexivity.
Qed.

(** XACK on a key that holds a string: the wrong-type error. *)
Example xack_on_a_string :
  @cmdXack sample dbWithString "XACK" ["k"; "g"; "1-0"]%string
  = (dbWithString, [WriteError (@msgWrongType sample)]).
Proof. by vm_compute. Qed.

(** * Further properties of the handlers *)

Section more_properties.
Context `{Externals} `{Messages}.

(** ** The replies of [db.stream] *)

Lemma stream_absent db key :
  keys db !! key = None → stream db key = inr (streamKeys db !! key).
Proof. intros Hk. unfold stream, exists_. by rewrite Hk. Qed.

Lemma stream_present db key :
  keys db !! key = Some "stream"%string → stream db key = inr (streamKeys db !! key).
Proof. intros Hk. unfold stream, exists_, isStream, t. by rewrite Hk. Qed.

Lemma stream_wrong_type db key ty :
  keys db !! key = Some ty → ty ≠ "stream"%string → stream db key = inl ErrWrongType.
Proof.
  intros Hk Hty. unfold stream, exists_, isStream, t. rewrite Hk; simpl.
  by destruct (String.eqb_spec ty "stream").
Qed.

(** ** XADD: the "~" of MAXLEN *)

(** X2. The "~" that may follow MAXLEN changes nothing: the command with it
    does what the command without it does, to the database and in its
    reply. *)
Theorem xadd_tilde_is_ignored now db cmd key kw bound tok rest :
  ToLower kw = "maxlen"%string →
  bound ≠ "~"%string →
  cmdXadd now db cmd (key :: kw :: "~"%string :: bound :: tok :: rest)
  = cmdXadd now db cmd (key :: kw :: bound :: tok :: rest).
Proof.
  intros Hkw Hb. unfold cmdXadd.
  destruct (Z.ltb_spec (len (key :: kw :: "~"%string :: bound :: tok :: rest)) 4)
    as [Hl|_]; [unfold len in Hl; simpl in Hl; lia|].
  destruct (Z.ltb_spec (len (key :: kw :: bound :: tok :: rest)) 4)
    as [Hl|_]; [unfold len in Hl; simpl in Hl; lia|].
  unfold xaddTx, xaddMaxlen. rewrite Hkw, !String.eqb_refl.
  by destruct (String.eqb_spec bound "~").
Qed.

(** ** XLEN *)

Lemma cmdXlen_one db cmd key :
  cmdXlen db cmd [key]
  = match stream db key with
    | inl err => [WriteError (Error err); WriteInt 0]
    | inr None => [WriteInt 0]
    | inr (Some s) => [WriteInt (len (entries s))]
    end.
Proof. done. Qed.

(** What XLEN says of a key is the length of the stream an XADD on that key
    works on. *)
Lemma cmdXlen_streamAt db cmd key n :
  cmdXlen db cmd [key] = [WriteInt n] →
  n = len (entries (streamAt db key)) ∧ ∃ found, stream db key = inr found.
Proof.
  rewrite cmdXlen_one. unfold streamAt.
  destruct (stream db key) as [e|found] eqn:Hs; [done|].
  apply stream_found in Hs as ->.
  destruct (streamKeys db !! key) as [s|]; intros [= <-]; eauto.
Qed.

(** X3. XLEN takes exactly one argument. It replies 0 for a key that is
    not there and the number of entries for a stream. For a key that holds
    a value of another type it writes the wrong-type error and, the handler
    not returning there, the integer 0 after it. *)
Theorem xlen_replies db cmd key :
  (∀ args, length args ≠ 1%nat →
           cmdXlen db cmd args = [SetDirty; WriteError (errWrongNumber cmd)])
  ∧ (keys db !! key = None → streamKeys db !! key = None →
     cmdXlen db cmd [key] = [WriteInt 0])
  ∧ (∀ s, keys db !! key = Some "stream"%string → streamKeys db !! key = Some s →
          cmdXlen db cmd [key] = [WriteInt (len (entries s))])
  ∧ (∀ ty, keys db !! key = Some ty → ty ≠ "stream"%string →
           cmdXlen db cmd [key] = [WriteError msgWrongType; WriteInt 0]).
Proof.
  split; [|split; [|split]].
  - intros args Hlen. unfold cmdXlen.
    destruct (Z.eqb_spec (len args) 1) as [Heq|_]; [|done].
    unfold len in Heq. lia.
  - intros Hk Hs. by rewrite cmdXlen_one, (stream_absent _ _ Hk), Hs.
  - intros s Hk Hs. by rewrite cmdXlen_one, (stream_present _ _ Hk), Hs.
  - intros ty Hk Hty. by rewrite cmdXlen_one, (stream_wrong_type _ _ _ Hk Hty).
Qed.

(** ** XADD and XLEN *)

Lemma stream_same_keys db db' key found :
  keys db' = keys db → stream db key = inr found →
  stream db' key = inr (streamKeys db' !! key).
Proof.
  unfold stream, exists_, isStream, t. intros ->.
  by destruct (_ && _).
Qed.

Lemma xaddStore_then_xlen now db key maxlen tok values db' out cmd cmd' before :
  xaddStore now db key maxlen tok values = (db', out) →
  succeeded out →
  cmdXlen db cmd [key] = [WriteInt before] →
  cmdXlen db' cmd' [key]
  = [WriteInt (if 0 <=? maxlen then Z.min maxlen (before + 1) else before + 1)].
Proof.
  intros Hx Hok [-> [found Hf]]%cmdXlen_streamAt.
  destruct (xaddStore_success _ _ _ _ _ _ _ _ Hx Hok) as (s1 & newID & Ha & _ & Hs').
  destruct (xadd_step _ _ _ _ _ _ maxlen Ha) as (e & _ & _ & He).
  assert (stream db' key = inr (streamKeys db' !! key)) as Hst.
  { revert Hx. unfold xaddStore. rewrite Hf.
    pose proof (stream_found _ _ _ Hf) as ->.
    destruct (streamKeys db !! key) as [s|] eqn:Hs; simpl.
    - destruct (add tok values now s) as [?|[s2 ?]]; intros [= <- <-];
        [by destruct Hok|].
      apply (stream_same_keys db _ key (Some s)); [done|exact Hf].
    - destruct (add tok values now newStreamKey) as [?|[s2 ?]]; intros [= <- <-];
        [by destruct Hok|].
      apply stream_present. simpl. by rewrite lookup_insert_eq. }
  rewrite cmdXlen_one, Hst, Hs'. do 2 f_equal. unfold len. rewrite He.
  destruct (Z.leb_spec 0 maxlen).
  - rewrite length_drop, length_app. simpl. lia.
  - rewrite length_app. simpl. lia.
Qed.

(** X4. After a successful XADD without MAXLEN, XLEN of the key is one more
    than before; after one with MAXLEN n it is the smaller of n and one more
    than before. *)
Theorem xadd_then_xlen now db cmd key tok values before :
  values ≠ [] →
  Z.rem (len values) 2 = 0 →
  cmdXlen db "XLEN" [key] = [WriteInt before] →
  (ToLower tok ≠ "maxlen"%string →
   let r := cmdXadd now db cmd (key :: tok :: values) in
   succeeded r.2 → cmdXlen r.1 "XLEN" [key] = [WriteInt (before + 1)])
  ∧ (∀ kw bound n,
       ToLower kw = "maxlen"%string → strconv.Atoi bound = Some n → 0 ≤ n →
       let r := cmdXadd now db cmd (key :: kw :: bound :: tok :: values) in
       succeeded r.2 →
       cmdXlen r.1 "XLEN" [key] = [WriteInt (Z.min n (before + 1))]).
Proof.
  intros Hne Hev Hlen. split.
  - intros Hkw r Hok. subst r. rewrite cmdXadd_plain in * by done.
    destruct (xaddStore _ _ _ _ _ _) as [db' out] eqn:Hx.
    by rewrite (xaddStore_then_xlen _ _ _ _ _ _ _ _ _ _ _ Hx Hok Hlen).
  - intros kw bound n Hkw Hn Hpos r Hok. subst r.
    rewrite (cmdXadd_maxlen _ _ _ _ _ bound _ n tok values) in * by auto.
    destruct (xaddStore _ _ _ _ _ _) as [db' out] eqn:Hx.
    rewrite (xaddStore_then_xlen _ _ _ _ _ _ _ _ _ _ _ Hx Hok Hlen).
    by apply Z.leb_le in Hpos as ->.
Qed.

(** ** XDEL *)

Lemma cmdXdel_cons db cmd key id ids :
  cmdXdel db cmd (key :: id :: ids)
  = match stream db key with
    | inl err => (db, [WriteError (Error err)])
    | inr None => (db, [WriteInt 0])
    | inr (Some s) =>
        match deleteTokens (id :: ids) s with
        | inl err => (db, [WriteError (Error err)])
        | inr (s1, n) => (bumpVersion (putStream db key s1) key, [WriteInt n])
        end
    end.
Proof.
  unfold cmdXdel.
  destruct (Z.ltb_spec (len (key :: id :: ids)) 2) as [Hl|_]; [|done].
  unfold len in Hl. simpl in Hl. lia.
Qed.

(** X5. An XDEL of well-formed IDs on a stream removes the entries with
    those IDs and no other, replies with the number removed, and bumps the
    version of the key, also when it removed nothing; the other streams,
    the types of the keys and the groups of the stream stay as they were. *)
Theorem xdel_removes_the_named db cmd key ids parsed s :
  ids ≠ [] →
  keys db !! key = Some "stream"%string →
  streamKeys db !! key = Some s →
  mapM parseStreamID ids = Some parsed →
  let r := cmdXdel db cmd (key :: ids) in
  let kept := filter (λ e, ID e ∉ parsed) (entries s) in
  r.2 = [WriteInt (len (entries s) - len kept)]
  ∧ streamKeys r.1 = <[key := mkStream kept (lastEntryID s) (groups s)]> (streamKeys db)
  ∧ keyVersion r.1 !! key = Some ((default 0 (keyVersion db !! key) + 1) mod 2 ^ 64)
  ∧ (∀ k, k ≠ key → keyVersion r.1 !! k = keyVersion db !! k)
  ∧ keys r.1 = keys db.
Proof.
  intros Hids Hk Hs Hp r kept. subst r. destruct ids as [|id ids]; [done|].
  rewrite cmdXdel_cons, (stream_present _ _ Hk), Hs.
  unfold deleteTokens. rewrite Hp. simpl.
  split; [done|]. split; [done|]. split; [by rewrite lookup_insert_eq|].
  split; [|done]. intros k Hne. by rewrite lookup_insert_ne.
Qed.

(** X6. What XDEL replies is what XLEN loses: if XLEN says n and an XDEL on
    the key replies with the integer d, then d is between 0 and n and XLEN
    says n - d afterwards. *)
Theorem xdel_then_xlen db cmd key ids n d db' :
  cmdXlen db "XLEN" [key] = [WriteInt n] →
  cmdXdel db cmd (key :: ids) = (db', [WriteInt d]) →
  0 ≤ d ≤ n ∧ cmdXlen db' "XLEN" [key] = [WriteInt (n - d)].
Proof.
  intros Hlen Hdel. destruct ids as [|id ids]; [done|].
  rewrite cmdXdel_cons in Hdel. rewrite cmdXlen_one in Hlen.
  destruct (stream db key) as [e|[s|]] eqn:Hs; [done| |].
  - injection Hlen as <-. unfold deleteTokens in Hdel.
    destruct (mapM parseStreamID (id :: ids)) as [parsed|]; [|done].
    simpl in Hdel. injection Hdel as <- <-.
    pose proof (length_filter (λ e, ID e ∉ parsed) (entries s)) as Hle.
    split; [unfold len; lia|].
    rewrite cmdXlen_one.
    rewrite (stream_same_keys db _ key (Some s)); [|done|exact Hs]. simpl.
    rewrite lookup_insert_eq. simpl. do 2 f_equal. unfold len. lia.
  - injection Hlen as <-. injection Hdel as <- <-.
    split; [lia|]. by rewrite cmdXlen_one, Hs.
Qed.

(** ** XREAD *)

Lemma xreadScan_cons id n e es returned :
  xreadScan id n (e :: es) returned
  = if len returned =? n then returned
    else if bool_decide (newerThan id e)
    then xreadScan id n es (returned ++ [e])
    else xreadScan id n es returned.
Proof.
  simpl. destruct (len returned =? n); [done|]. unfold newerThan.
  destruct (Z.leb_spec (streamCmp (ID e) id) 0).
  - rewrite bool_decide_eq_false_2; [done|lia].
  - rewrite bool_decide_eq_true_2; [done|lia].
Qed.

Lemma xreadScan_spec id n es returned :
  len returned ≤ n →
  xreadScan id n es returned
  = returned ++ take (Z.to_nat (n - len returned)) (filter (newerThan id) es).
Proof.
  revert returned. induction es as [|e es IH]; intros returned Hn.
  { rewrite filter_nil. simpl. by rewrite take_nil, app_nil_r. }
  rewrite xreadScan_cons.
  destruct (Z.eqb_spec (len returned) n) as [Heq|Hne].
  { rewrite Heq, Z.sub_diag. simpl. by rewrite app_nil_r. }
  destruct (bool_decide_reflect (newerThan id e)) as [He|He].
  - rewrite filter_cons_True by done.
    rewrite IH by (rewrite len_app; change (len [e]) with 1; lia).
    rewrite len_app. change (len [e]) with 1.
    replace (Z.to_nat (n - len returned))
      with (S (Z.to_nat (n - (len returned + 1)))) by lia.
    by rewrite <-app_assoc.
  - rewrite filter_cons_False by done. by apply IH.
Qed.

Lemma xreadScan_unbounded id n es returned :
  n < len returned →
  xreadScan id n es returned = returned ++ filter (newerThan id) es.
Proof.
  revert returned. induction es as [|e es IH]; intros returned Hn.
  { rewrite filter_nil. simpl. by rewrite app_nil_r. }
  rewrite xreadScan_cons.
  destruct (Z.eqb_spec (len returned) n) as [?|_]; [lia|].
  destruct (bool_decide_reflect (newerThan id e)) as [He|He].
  - rewrite filter_cons_True by done.
    rewrite IH by (rewrite len_app; change (len [e]) with 1; lia).
    by rewrite <-app_assoc.
  - rewrite filter_cons_False by done. by apply IH.
Qed.

(** The entries [xread] takes from one stream. *)
Lemma xreadScan_upTo id count es :
  xreadScan id (if count =? 0 then len es else count) es []
  = upTo count (filter (newerThan id) es).
Proof.
  unfold upTo. pose proof (length_filter (newerThan id) es) as Hle.
  destruct (Z.eqb_spec count 0) as [->|Hne]; simpl.
  - rewrite xreadScan_spec by apply len_nonneg. simpl.
    apply take_ge. change (len (@nil StreamEntry)) with 0. unfold len. lia.
  - destruct (Z.ltb_spec 0 count).
    + rewrite xreadScan_spec by (change (len (@nil StreamEntry)) with 0; lia).
      simpl. change (len (@nil StreamEntry)) with 0. by rewrite Z.sub_0_r.
    + by rewrite xreadScan_unbounded
        by (change (len (@nil StreamEntry)) with 0; lia).
Qed.

(** One turn of the loop. *)
Lemma xreadLoop_cons db key id rest count res :
  xreadLoop db ((key, id) :: rest) count res
  = xreadLoop db rest count
      match xreadOf db count key id with
      | Some es => <[key := es]> res
      | None => res
      end.
Proof.
  cbn [xreadLoop]. unfold xreadOf.
  destruct (streamKeys db !! key) as [s|]; [|done].
  rewrite xreadScan_upTo.
  destruct (Z.eqb_spec (len (entries s)) 0) as [Hz|_].
  { assert (entries s = []) as -> by (destruct (entries s); [done|by compute in Hz]).
    rewrite filter_nil. unfold upTo. destruct (0 <? count); by rewrite ?take_nil. }
  by destruct (upTo count (filter (newerThan id) (entries s))).
Qed.

Lemma xreadLoop_other db reqs count res k :
  k ∉ reqs.*1 → xreadLoop db reqs count res !! k = res !! k.
Proof.
  revert res. induction reqs as [|[key id] rest IH]; intros res Hk; [done|].
  rewrite xreadLoop_cons. rewrite fmap_cons, not_elem_of_cons in Hk.
  destruct Hk as [Hne Hk]. simpl in Hne. rewrite IH by done.
  destruct (xreadOf db count key id); [|done]. by rewrite lookup_insert_ne.
Qed.

Lemma xreadLoop_lookup db reqs count res k id :
  NoDup reqs.*1 → (k, id) ∈ reqs →
  xreadLoop db reqs count res !! k
  = match xreadOf db count k id with
    | Some es => Some es
    | None => res !! k
    end.
Proof.
  revert res. induction reqs as [|[key id'] rest IH]; intros res Hnd Hin.
  { by apply elem_of_nil in Hin. }
  rewrite fmap_cons in Hnd. apply NoDup_cons in Hnd as [Hfresh Hnd].
  rewrite xreadLoop_cons. apply elem_of_cons in Hin as [[= <- <-]|Hin].
  - rewrite xreadLoop_other by done.
    destruct (xreadOf db count k id); [by rewrite lookup_insert_eq|done].
  - rewrite (IH _ Hnd Hin). destruct (xreadOf db count k id); [done|].
    assert (key ≠ k) as Hne.
    { intros ->. apply Hfresh. simpl.
      apply list_elem_of_fmap. by exists (k, id). }
    destruct (xreadOf db count key id'); [|done]. by rewrite lookup_insert_ne.
Qed.

Lemma xreadOf_nonempty db count key id es :
  xreadOf db count key id = Some es →
  es ≠ []
  ∧ ∃ s, streamKeys db !! key = Some s
         ∧ es = upTo count (filter (newerThan id) (entries s)).
Proof.
  unfold xreadOf. destruct (streamKeys db !! key) as [s|]; [|done].
  destruct (upTo count _) as [|e es'] eqn:Hu; [done|].
  intros [= <-]. split; [done|]. eauto.
Qed.

Lemma zip_fst_NoDup (streams : list string) (ids : list StreamEntryID) :
  NoDup streams → NoDup (zip streams ids).*1.
Proof.
  intros Hnd. apply (sublist_NoDup _ streams); [exact Hnd|]. clear. revert ids.
  induction streams as [|x l IH]; intros [|y ids]; simpl;
    try done; try apply sublist_nil_l.
  by apply sublist_skip.
Qed.

(** A stream in the result of [xread] was asked for, and holds what
    [xreadOf] gives for it. *)
Lemma xread_lookup_inv db streams ids count key es :
  NoDup streams →
  xread db streams ids count !! key = Some es →
  ∃ id, (key, id) ∈ zip streams ids ∧ xreadOf db count key id = Some es.
Proof.
  intros Hnd%(zip_fst_NoDup _ ids) Hes. unfold xread in Hes.
  destruct (decide (key ∈ (zip streams ids).*1)) as [Hin|Hin];
    [|by rewrite xreadLoop_other, lookup_empty in Hes].
  apply list_elem_of_fmap in Hin as ([k id] & -> & Hin). simpl in *.
  rewrite (xreadLoop_lookup _ _ _ _ _ id), lookup_empty in Hes by done.
  exists id. split; [done|]. by destruct (xreadOf db count k id).
Qed.

(** X7. XREAD of distinct streams reports, for each stream asked for, the
    entries whose ID is above the ID given for it, in the order of the
    stream and at most COUNT of them when COUNT is positive; a stream
    without such an entry and a key without a stream are left out of the
    result, and nothing else is in it. *)
Theorem xread_reports_newer_entries db streams ids count :
  NoDup streams →
  let res := xread db streams ids count in
  (∀ key id, (key, id) ∈ zip streams ids → res !! key = xreadOf db count key id)
  ∧ (∀ key, key ∉ streams → res !! key = None)
  ∧ (∀ key es,
       res !! key = Some es →
       es ≠ [] ∧ key ∈ streams
       ∧ ∃ s, streamKeys db !! key = Some s ∧ es `sublist_of` entries s
              ∧ Forall (λ e, ∃ id, (key, id) ∈ zip streams ids ∧ newerThan id e) es
              ∧ (0 < count → len es ≤ count)).
Proof.
  intros Hnd res. subst res.
  pose proof (zip_fst_NoDup _ ids Hnd) as Hnd'.
  split; [|split].
  - intros key id Hin. unfold xread.
    rewrite (xreadLoop_lookup _ _ _ _ _ id) by done.
    rewrite lookup_empty. by destruct (xreadOf db count key id).
  - intros key Hk. unfold xread. rewrite xreadLoop_other; [apply lookup_empty|].
    intros ([k id] & -> & Hin)%list_elem_of_fmap. apply Hk. simpl.
    by apply elem_of_zip_l in Hin.
  - intros key es (id & Hin & Hof)%xread_lookup_inv; [|done].
    apply xreadOf_nonempty in Hof as [Hne (s & Hs & ->)].
    split; [done|]. split; [by apply elem_of_zip_l in Hin|].
    exists s. split; [done|]. split; [|split].
    + etrans; [apply upTo_sublist|apply sublist_filter].
    + apply Forall_forall. intros e He. exists id. split; [done|].
      eapply elem_of_sublist in He; [|apply upTo_sublist].
      by apply list_elem_of_filter in He as [? _].
    + intros Hc. unfold upTo. apply Z.ltb_lt in Hc as Hc'. rewrite Hc'.
      unfold len. rewrite length_take. lia.
Qed.

(** XREAD STREAMS key ... id ..., without COUNT and BLOCK. *)
Lemma cmdXread_streams db cmd kw streams toks :
  ToUpper kw = "STREAMS"%string →
  streams ≠ [] →
  length toks = length streams →
  cmdXread db cmd (kw :: streams ++ toks)
  = match mapM parseStreamID toks with
    | Some ids => Replied db (writeXread streams (xread db streams ids 0))
    | None => Replied db [SetDirty; WriteError msgInvalidStreamID]
    end.
Proof.
  intros Hkw Hne Hlen. unfold cmdXread.
  destruct (Z.ltb_spec (len (kw :: streams ++ toks)) 3) as [Hl|_].
  { unfold len in Hl. simpl in Hl. rewrite length_app in Hl.
    destruct streams; [done|]. simpl in *. lia. }
  cbn [xreadArgs]. rewrite Hkw. cbn [String.eqb Ascii.eqb Bool.eqb].
  cbn beta iota.
  assert (Z.rem (len (streams ++ toks)) 2 = 0) as Hev.
  { unfold len. rewrite length_app, Hlen.
    replace (Z.of_nat (length streams + length streams))
      with (Z.of_nat (length streams) * 2) by lia.
    by rewrite Z.rem_mul. }
  rewrite Hev. cbn [Z.eqb negb].
  assert ((length (streams ++ toks) / 2)%nat = length streams) as Hhalf.
  { rewrite length_app, Hlen.
    replace (length streams + length streams)%nat with (length streams * 2)%nat by lia.
    by apply Nat.div_mul. }
  change (Nat.divmod (length (streams ++ toks)) 1 0 1).1
    with (length (streams ++ toks) / 2)%nat.
  rewrite Hhalf, drop_app_length, take_app_length.
  by destruct (mapM parseStreamID toks).
Qed.

(** ** The reply of XREAD and XREADGROUP *)

Lemma writeXread_streams streams res :
  res ≠ ∅ →
  writeXread streams res
  = WriteLen (Z.of_nat (size res))
    :: (omap (λ k, (k,.) <$> res !! k) streams ≫= writeStream).
Proof.
  intros Hres. unfold writeXread.
  destruct (Z.eqb_spec (Z.of_nat (size res)) 0) as [Hz|_].
  { destruct Hres. apply map_size_empty_inv. lia. }
  f_equal. induction streams as [|k streams IH]; [done|].
  rewrite bind_cons, IH. cbn [omap list_omap].
  destruct (res !! k) as [es|]; cbn [fmap option_fmap option_map]; [|done].
  by rewrite bind_cons.
Qed.

Lemma reported_elem_of (streams : list string) (res : gmap string (list StreamEntry)) k es :
  (k, es) ∈ omap (λ k, (k,.) <$> res !! k) streams ↔ k ∈ streams ∧ res !! k = Some es.
Proof.
  rewrite list_elem_of_omap. split.
  - intros (k' & Hin & Hk). destruct (res !! k') as [es'|] eqn:Hes; [|done].
    simpl in Hk. injection Hk as <- <-. done.
  - intros [Hin Hk]. exists k. by rewrite Hk.
Qed.

Lemma reported_fst (streams : list string) (res : gmap string (list StreamEntry)) :
  (omap (λ k, (k,.) <$> res !! k) streams).*1 = filter (λ k, is_Some (res !! k)) streams.
Proof.
  induction streams as [|k streams IH]; [done|]. cbn [omap list_omap].
  destruct (res !! k) as [es|] eqn:Hk; cbn [fmap option_fmap option_map].
  - rewrite fmap_cons, IH, filter_cons_True; [done|by rewrite Hk].
  - rewrite IH, filter_cons_False; [done|]. rewrite Hk. by intros [? ?].
Qed.

(** X8. When the streams asked for are distinct and the result holds only
    streams asked for, the reply that is not null announces exactly the
    streams it then writes: one for each stream of the result, in the order
    of the request, each with its name and its entries. The result of
    [xread] is of that kind. *)
Theorem xread_reply_announces_its_streams streams res :
  NoDup streams →
  (∀ k, is_Some (res !! k) → k ∈ streams) →
  res ≠ ∅ →
  let reported := omap (λ k, (k,.) <$> res !! k) streams in
  writeXread streams res = WriteLen (len reported) :: (reported ≫= writeStream)
  ∧ (∀ k es, (k, es) ∈ reported ↔ res !! k = Some es)
  ∧ reported.*1 `sublist_of` streams
  ∧ (∀ db ids count, res = xread db streams ids count →
                     Forall (λ r, r.2 ≠ []) reported).
Proof.
  intros Hnd Hsub Hres reported.
  assert (∀ k es, (k, es) ∈ reported ↔ res !! k = Some es) as Hin.
  { intros k es. unfold reported. rewrite reported_elem_of.
    split; [by intros [_ ?]|]. intros Hk. split; [|done]. apply Hsub. by rewrite Hk. }
  assert (reported.*1 `sublist_of` streams) as Hfst.
  { unfold reported. rewrite reported_fst. apply sublist_filter. }
  assert (NoDup reported) as Hndr.
  { apply (NoDup_fmap_1 fst). by apply (sublist_NoDup _ streams). }
  assert (reported ≡ₚ map_to_list res) as Hperm.
  { apply NoDup_Permutation; [done|apply NoDup_map_to_list|].
    intros [k es]. by rewrite Hin, elem_of_map_to_list. }
  split; [|split; [done|split; [done|]]].
  - rewrite writeXread_streams by done. do 2 f_equal.
    unfold len. by rewrite Hperm, length_map_to_list.
  - intros db ids count ->. apply Forall_forall. intros [k es] Hk%Hin. simpl.
    apply xread_lookup_inv in Hk as (id & _ & Hof); [|done].
    by apply xreadOf_nonempty in Hof as [? _].
Qed.

(** ** BLOCK *)

Lemma wrap64_small z : minInt64 ≤ z ≤ maxInt64 → wrap64 z = z.
Proof.
  unfold wrap64, minInt64, maxInt64. intros Hz.
  rewrite Z.mod_small by lia. lia.
Qed.

Lemma wrap64_range z : minInt64 ≤ wrap64 z ≤ maxInt64.
Proof.
  unfold wrap64, minInt64, maxInt64.
  pose proof (Z.mod_pos_bound (z + 2 ^ 63) (2 ^ 64) eq_refl). lia.
Qed.

(** X9. A BLOCK option with a timeout of [ms] milliseconds, [ms] not
    negative, sets the block flag. Up to 9223372036854 ms the timeout kept
    is exactly that many milliseconds; above, the Duration overflows and
    the timeout kept is another one. A negative [ms] is refused. *)
Theorem parseBlock_keeps_the_timeout cmd kw a rest o ms :
  strconv.Atoi a = Some ms →
  let r := parseBlock cmd (kw :: a :: rest) o in
  (ms < 0 → r.2 = Some "ERR timeout is negative"%string)
  ∧ (0 ≤ ms → r.2 = None ∧ opt_block r.1 = true)
  ∧ (0 ≤ ms ≤ 9223372036854 →
     opt_blockTimeout r.1 = ms * 1000000
     ∧ time.Milliseconds (opt_blockTimeout r.1) = ms)
  ∧ (9223372036854 < ms → opt_blockTimeout r.1 ≠ ms * 1000000).
Proof.
  intros Ha r. subst r. unfold parseBlock. rewrite Ha.
  split; [|split; [|split]].
  - intros Hms. by apply Z.ltb_lt in Hms as ->.
  - intros Hms. by apply Z.ltb_ge in Hms as ->.
  - intros [Hlo Hhi]. apply Z.ltb_ge in Hlo as Hlo'. rewrite Hlo'. simpl.
    unfold time.Millisecond. rewrite wrap64_small
      by (unfold minInt64, maxInt64; lia).
    split; [lia|]. unfold time.Milliseconds.
    rewrite Z.mul_comm. apply Z.quot_mul. lia.
  - intros Hms. assert ((ms <? 0) = false) as -> by (apply Z.ltb_ge; lia).
    simpl. unfold time.Millisecond.
    pose proof (wrap64_range (1000000 * ms)) as Hr.
    unfold minInt64, maxInt64 in Hr. lia.
Qed.

(** ** XGROUP *)

Lemma cmdXgroup_create db cmd kw key group id opt :
  ToUpper kw = "CREATE"%string →
  (length opt ≤ 1)%nat →
  cmdXgroup db cmd (kw :: key :: group :: id :: opt)
  = cmdXgroupCreate db cmd (kw :: key :: group :: id :: opt).
Proof.
  intros Hkw Hopt. unfold cmdXgroup. rewrite Hkw, String.eqb_refl.
  destruct opt as [|a4 [|? ?]]; try done. simpl in Hopt. lia.
Qed.

Lemma cmdXgroupCreate_found db cmd kw key group id opt s :
  (length opt ≤ 1)%nat →
  stream db key = inr (Some s) →
  cmdXgroupCreate db cmd (kw :: key :: group :: id :: opt)
  = match createGroup group id s with
    | inl err => (db, [WriteError (Error err)])
    | inr s1 => (putStream db key s1, [WriteOK])
    end.
Proof. intros Hopt Hs. unfold cmdXgroupCreate. by rewrite Hs. Qed.

Lemma createGroup_taken group id s g :
  groups s !! group = Some g →
  createGroup group id s = inl (errorString msgGroupExists).
Proof.
  intros Hg. unfold createGroup. by rewrite bool_decide_eq_true_2 by eauto.
Qed.

Lemma createGroup_inv group id s s1 :
  createGroup group id s = inr s1 →
  groups s !! group = None
  ∧ ∃ i, s1 = withGroups s (<[group := mkGroup i [] ∅]> (groups s)).
Proof.
  unfold createGroup. case_bool_decide as Hg; [done|].
  destruct (if String.eqb id "$" then _ else _) as [i|]; [|done].
  intros [= <-]. split; [|by eauto].
  destruct (groups s !! group) eqn:Hgs; [|done]. destruct Hg. eauto.
Qed.

(** X10. A group is created once: after an XGROUP CREATE that replied OK,
    an XGROUP CREATE of the same group on the same key, whatever its ID and
    with or without MKSTREAM, is answered with the error of a name in use
    and changes nothing. *)
Theorem xgroup_create_twice db cmd kw key group id opt db' id' opt' :
  ToUpper kw = "CREATE"%string →
  (length opt ≤ 1)%nat →
  (length opt' ≤ 1)%nat →
  cmdXgroup db cmd (kw :: key :: group :: id :: opt) = (db', [WriteOK]) →
  cmdXgroup db' cmd (kw :: key :: group :: id' :: opt')
  = (db', [WriteError msgGroupExists]).
Proof.
  intros Hkw Hopt Hopt'. rewrite !cmdXgroup_create by done. intros Hrun.
  assert (∃ s1 g, stream db' key = inr (Some s1) ∧ groups s1 !! group = Some g)
    as (s1 & g & Hs1 & Hg).
  { revert Hrun. unfold cmdXgroupCreate.
    destruct (stream db key) as [e|found] eqn:Hs; [done|].
    pose proof (stream_found _ _ _ Hs) as ->.
    destruct (streamKeys db !! key) as [s|] eqn:Hsk.
    - destruct (createGroup group id s) as [e|s1] eqn:Hc; [done|].
      intros [= <-]. apply createGroup_inv in Hc as [_ [i ->]].
      eexists _, _. split.
      + rewrite (stream_same_keys db _ key (Some s)); [|done|exact Hs].
        simpl. by rewrite lookup_insert_eq.
      + simpl. by rewrite lookup_insert_eq.
    - destruct (_ && _); [|done]. simpl.
      destruct (createGroup group id newStreamKey) as [e|s1] eqn:Hc; [done|].
      intros [= <-]. apply createGroup_inv in Hc as [_ [i ->]].
      eexists _, _. split.
      + rewrite stream_present; simpl; by rewrite lookup_insert_eq.
      + simpl. by rewrite lookup_insert_eq. }
  rewrite (cmdXgroupCreate_found _ _ _ _ _ _ _ _ Hopt' Hs1).
  by rewrite (createGroup_taken _ _ _ _ Hg).
Qed.


(** ** XINFO *)

(** X12. XINFO STREAM on a stream replies with a map of one pair, "length"
    and the number XLEN replies with; what follows the key is not looked
    at. On a key that is not there XLEN says 0 and XINFO STREAM that there
    is no such key. *)
Theorem xinfo_stream_reports_length db cmd kw key rest n :
  ToUpper kw = "STREAM"%string →
  cmdXlen db "XLEN" [key] = [WriteInt n] →
  cmdXinfo db cmd (kw :: key :: rest)
  = if bool_decide (is_Some (streamKeys db !! key))
    then [WriteMapLen 1; Call (WriteBulk "length"); Call (WriteInt n)]
    else [Call (WriteError msgKeyNotFound)].
Proof.
  intros Hkw. rewrite cmdXlen_one. unfold cmdXinfo.
  destruct (Z.ltb_spec (len (kw :: key :: rest)) 1) as [Hl|_].
  { unfold len in Hl. simpl in Hl. lia. }
  rewrite Hkw, String.eqb_refl. unfold cmdXinfoStream.
  destruct (Z.ltb_spec (len (key :: rest)) 1) as [Hl|_].
  { unfold len in Hl. simpl in Hl. lia. }
  destruct (stream db key) as [e|found] eqn:Hs; [done|].
  pose proof (stream_found _ _ _ Hs) as ->.
  destruct (streamKeys db !! key) as [s|]; intros [= <-].
  - by rewrite bool_decide_eq_true_2 by eauto.
  - by rewrite bool_decide_eq_false_2 by (by intros [? ?]).
Qed.

(** X13. The subcommands that are not there: an XGROUP that is not a
    CREATE with three or four further arguments, and an XINFO CONSUMERS,
    GROUPS or HELP, are refused with a text that repeats the arguments,
    joined by spaces; any other XINFO subcommand but STREAM is a syntax
    error. Nothing is changed. *)
Theorem unsupported_subcommands db cmd args :
  ((length args ≠ 4 ∧ length args ≠ 5)%nat
   ∨ (∀ a0, head args = Some a0 → ToUpper a0 ≠ "CREATE"%string) →
   cmdXgroup db cmd args
   = (db, [SetDirty;
           WriteError ("ERR 'XGROUP " +:+ Join args " " +:+ "' not supported")]))
  ∧ (∀ a0, head args = Some a0 →
       ToUpper a0 ∈ ["CONSUMERS"; "GROUPS"; "HELP"]%string →
       cmdXinfo db cmd args
       = [Call SetDirty;
          Call (WriteError ("'XINFO " +:+ Join args " " +:+ "' not supported"))])
  ∧ (∀ a0, head args = Some a0 →
       ToUpper a0 ∉ ["STREAM"; "CONSUMERS"; "GROUPS"; "HELP"]%string →
       cmdXinfo db cmd args
       = [Call SetDirty; Call (WriteError "ERR syntax error, try 'XINFO HELP'")]).
Proof.
  split; [|split].
  - intros Hargs. unfold cmdXgroup.
    destruct ((len args =? 4) || (len args =? 5)) eqn:Hlen; [|done].
    destruct Hargs as [[H4 H5]|Hkw].
    + apply orb_true_iff in Hlen as [Hl%Z.eqb_eq|Hl%Z.eqb_eq]; unfold len in Hl; lia.
    + destruct args as [|a0 args]; [done|]. simpl.
      by destruct (String.eqb_spec (ToUpper a0) "CREATE") as [?%(Hkw a0 eq_refl)|].
  - intros a0 Ha0 Hkw. destruct args as [|? args]; [done|].
    injection Ha0 as ->. unfold cmdXinfo.
    destruct (Z.ltb_spec (len (a0 :: args)) 1) as [Hl|_].
    { unfold len in Hl. simpl in Hl. lia. }
    cbn zeta. set_unfold.
    by destruct Hkw as [->|[->|[->|[]]]].
  - intros a0 Ha0 Hkw. destruct args as [|? args]; [done|].
    injection Ha0 as ->. unfold cmdXinfo.
    destruct (Z.ltb_spec (len (a0 :: args)) 1) as [Hl|_].
    { unfold len in Hl. simpl in Hl. lia. }
    cbn zeta. set_unfold.
    destruct (String.eqb_spec (ToUpper a0) "STREAM"); [tauto|].
    destruct (String.eqb_spec (ToUpper a0) "CONSUMERS"); [tauto|].
    destruct (String.eqb_spec (ToUpper a0) "GROUPS"); [tauto|].
    destruct (String.eqb_spec (ToUpper a0) "HELP"); [tauto|]. done.
Qed.

(** ** A key of another type, and a key that is not there *)

(** XREADGROUP GROUP group name STREAMS key id. *)
Lemma cmdXreadgroup_one now db cmd kw1 group name kw2 key id :
  ToUpper kw1 = "GROUP"%string →
  ToUpper kw2 = "STREAMS"%string →
  cmdXreadgroup now db cmd [kw1; group; name; kw2; key; id]
  = match xreadgroup db group name false [key] [id] 0 now with
    | (db1, inl err) => Replied db1 [WriteError (Error err)]
    | (db1, inr res) => Replied db1 (writeXread [key] res)
    end.
Proof.
  intros Hkw1 Hkw2. unfold cmdXreadgroup, xreadgroupOpts.
  change (len [kw1; group; name; kw2; key; id] <? 6) with false.
  cbn beta iota. rewrite Hkw1, String.eqb_refl. cbn [negb xreadgroupArgs].
  rewrite Hkw2. cbn -[xreadgroup writeXread len].
  change (Z.rem (len [key; id]) 2 =? 0) with true.
  cbn -[xreadgroup writeXread len].
  change (len [key] =? 0) with false. change (len [id] =? 0) with false.
  unfold blockAfterIDs. cbn -[xreadgroup writeXread].
  by destruct (String.eqb id ">").
Qed.

Lemma xreadgroup_one db group name noack key id count now :
  xreadgroup db group name noack [key] [id] count now
  = match streamGroupOf db key group with
    | inl err => (db, inl err)
    | inr None => (db, inl (errXreadgroup key group))
    | inr (Some g) =>
        xreadgroupLoop db group name noack [(key, id)] count now ∅
    end.
Proof.
  unfold xreadgroup. change (zip [key] [id]) with [(key, id)].
  rewrite xreadgroupLoop_cons.
  by destruct (streamGroupOf db key group) as [e|[g|]] eqn:Hg.
Qed.

Lemma cmdXread_one db cmd kw key id i :
  ToUpper kw = "STREAMS"%string →
  parseStreamID id = Some i →
  cmdXread db cmd [kw; key; id]
  = Replied db (writeXread [key] (xread db [key] [i] 0)).
Proof.
  intros Hkw Hid.
  change [kw; key; id] with (kw :: [key] ++ [id]).
  rewrite (cmdXread_streams db cmd kw [key] [id]) by done.
  simpl. by rewrite Hid.
Qed.

Lemma xack_wrong_type_aux db cmd key group id ids :
  (∀ group, streamGroupOf db key group = inl ErrWrongType) →
  cmdXack db cmd (key :: group :: id :: ids) = (db, [WriteError msgWrongType]).
Proof.
  intros Hg. unfold cmdXack.
  destruct (Z.ltb_spec (len (key :: group :: id :: ids)) 3) as [Hl|_].
  { unfold len in Hl. simpl in Hl. lia. }
  by rewrite Hg.
Qed.

(** X14. On a key that holds a value of another type, XADD, XRANGE and
    XREVRANGE, XGROUP CREATE, XINFO STREAM, XREADGROUP, XACK, XDEL and
    XPENDING reply with the wrong-type error and nothing else; XLEN writes
    the integer 0 after the error; and XREAD, which looks at the streams
    only, replies with the null list as for a key that is not there. None
    of them changes the database. *)
Theorem on_a_key_of_another_type db key ty :
  keys db !! key = Some ty →
  ty ≠ "stream"%string →
  streamKeys db !! key = None →
  (∀ now cmd tok values,
     ToLower tok ≠ "maxlen"%string → values ≠ [] → Z.rem (len values) 2 = 0 →
     cmdXadd now db cmd (key :: tok :: values) = (db, [WriteError msgWrongType]))
  ∧ (∀ cmd, cmdXlen db cmd [key] = [WriteError msgWrongType; WriteInt 0])
  ∧ (∀ reverse cmd a b start end_,
       formatStreamRangeBound a true reverse = Some start →
       formatStreamRangeBound b false reverse = Some end_ →
       makeCmdXrange reverse db cmd [key; a; b] = [WriteError msgWrongType])
  ∧ (∀ cmd kw group id opt,
       ToUpper kw = "CREATE"%string → (length opt ≤ 1)%nat →
       cmdXgroup db cmd (kw :: key :: group :: id :: opt)
       = (db, [WriteError msgWrongType]))
  ∧ (∀ cmd kw rest,
       ToUpper kw = "STREAM"%string →
       cmdXinfo db cmd (kw :: key :: rest) = [Call (WriteError msgWrongType)])
  ∧ (∀ now cmd kw1 group name kw2 id,
       ToUpper kw1 = "GROUP"%string → ToUpper kw2 = "STREAMS"%string →
       cmdXreadgroup now db cmd [kw1; group; name; kw2; key; id]
       = Replied db [WriteError msgWrongType])
  ∧ (∀ cmd group id ids,
       cmdXack db cmd (key :: group :: id :: ids) = (db, [WriteError msgWrongType]))
  ∧ (∀ cmd id ids,
       cmdXdel db cmd (key :: id :: ids) = (db, [WriteError msgWrongType]))
  ∧ (∀ now cmd group,
       cmdXpending now db cmd [key; group] = [WriteError msgWrongType])
  ∧ (∀ cmd kw id i,
       ToUpper kw = "STREAMS"%string → parseStreamID id = Some i →
       cmdXread db cmd [kw; key; id] = Replied db [WriteLen (-1)]).
Proof.
  intros Hk Hty Hs.
  pose proof (stream_wrong_type _ _ _ Hk Hty) as Hst.
  assert (∀ group, streamGroupOf db key group = inl ErrWrongType) as Hg.
  { intros group. by apply (streamGroupOf_wrong_type _ _ _ ty). }
  repeat split.
  - intros now cmd tok values Hkw Hne Hev. rewrite cmdXadd_plain by done.
    unfold xaddStore. by rewrite Hst.
  - intros cmd. by rewrite cmdXlen_one, Hst.
  - intros reverse cmd a b start end_ Ha Hb. rewrite makeCmdXrange_plain.
    unfold xrangeTx, exists_, isStream, t. rewrite Ha, Hb, Hk. simpl.
    by destruct (String.eqb_spec ty "stream").
  - intros cmd kw group id opt Hkw Hopt. rewrite cmdXgroup_create by done.
    unfold cmdXgroupCreate. by rewrite Hst.
  - intros cmd kw rest Hkw. unfold cmdXinfo.
    destruct (Z.ltb_spec (len (kw :: key :: rest)) 1) as [Hl|_].
    { unfold len in Hl. simpl in Hl. lia. }
    rewrite Hkw, String.eqb_refl. unfold cmdXinfoStream.
    destruct (Z.ltb_spec (len (key :: rest)) 1) as [Hl|_].
    { unfold len in Hl. simpl in Hl. lia. }
    by rewrite Hst.
  - intros now cmd kw1 group name kw2 id Hkw1 Hkw2.
    by rewrite cmdXreadgroup_one, xreadgroup_one, Hg by done.
  - intros cmd group id ids. by apply (xack_wrong_type_aux _ _ _ _ _ _ Hg).
  - intros cmd id ids. by rewrite cmdXdel_cons, Hst.
  - intros now cmd group. unfold cmdXpending.
    change (len [key; group] <? 2) with false. cbn beta iota. by rewrite Hg.
  - intros cmd kw id i Hkw Hid. rewrite (cmdXread_one _ _ _ _ _ i) by done.
    unfold xread. change (zip [key] [i]) with [(key, i)].
    rewrite xreadLoop_cons. unfold xreadOf. by rewrite Hs.
Qed.

(** X15. On a key that is not there: XRANGE and XREVRANGE reply with the
    empty list, XDEL with the integer 0 and XREAD with the null list;
    XGROUP CREATE without MKSTREAM, XINFO STREAM, XREADGROUP and XPENDING
    reply with an error, each with its own text. None of them changes the
    database, and none makes the key. *)
Theorem on_a_key_that_is_not_there db key :
  keys db !! key = None →
  streamKeys db !! key = None →
  (∀ reverse cmd a b start end_,
     formatStreamRangeBound a true reverse = Some start →
     formatStreamRangeBound b false reverse = Some end_ →
     makeCmdXrange reverse db cmd [key; a; b] = [WriteLen 0])
  ∧ (∀ cmd id ids, cmdXdel db cmd (key :: id :: ids) = (db, [WriteInt 0]))
  ∧ (∀ cmd kw id i,
       ToUpper kw = "STREAMS"%string → parseStreamID id = Some i →
       cmdXread db cmd [kw; key; id] = Replied db [WriteLen (-1)])
  ∧ (∀ cmd kw group id opt,
       ToUpper kw = "CREATE"%string →
       opt = [] ∨ (∃ a4, opt = [a4] ∧ ToUpper a4 ≠ "MKSTREAM"%string) →
       cmdXgroup db cmd (kw :: key :: group :: id :: opt)
       = (db, [WriteError msgXgroupKeyNotFound]))
  ∧ (∀ cmd kw rest,
       ToUpper kw = "STREAM"%string →
       cmdXinfo db cmd (kw :: key :: rest) = [Call (WriteError msgKeyNotFound)])
  ∧ (∀ now cmd kw1 group name kw2 id,
       ToUpper kw1 = "GROUP"%string → ToUpper kw2 = "STREAMS"%string →
       cmdXreadgroup now db cmd [kw1; group; name; kw2; key; id]
       = Replied db [WriteError (msgXreadgroup key group)])
  ∧ (∀ now cmd group,
       cmdXpending now db cmd [key; group] = [WriteError (msgReadgroup key group)]).
Proof.
  intros Hk Hs.
  assert (stream db key = inr None) as Hst by by rewrite stream_absent, Hs.
  assert (∀ group, streamGroupOf db key group = inr None) as Hg.
  { intros group. by apply streamGroupOf_absent. }
  repeat split.
  - intros reverse cmd a b start end_ Ha Hb. rewrite makeCmdXrange_plain.
    unfold xrangeTx, exists_. by rewrite Ha, Hb, Hk.
  - intros cmd id ids. by rewrite cmdXdel_cons, Hst.
  - intros cmd kw id i Hkw Hid. rewrite (cmdXread_one _ _ _ _ _ i) by done.
    unfold xread. change (zip [key] [i]) with [(key, i)].
    rewrite xreadLoop_cons. unfold xreadOf. by rewrite Hs.
  - intros cmd kw group id opt Hkw Hopt.
    rewrite cmdXgroup_create
      by (done || destruct Hopt as [->|(a4 & -> & _)]; simpl; lia).
    unfold cmdXgroupCreate. rewrite Hst.
    destruct Hopt as [->|(a4 & -> & Ha4)]; [by rewrite andb_false_r|].
    destruct (String.eqb_spec (ToUpper a4) "MKSTREAM"); [done|].
    by rewrite andb_false_r.
  - intros cmd kw rest Hkw. unfold cmdXinfo.
    destruct (Z.ltb_spec (len (kw :: key :: rest)) 1) as [Hl|_].
    { unfold len in Hl. simpl in Hl. lia. }
    rewrite Hkw, String.eqb_refl. unfold cmdXinfoStream.
    destruct (Z.ltb_spec (len (key :: rest)) 1) as [Hl|_].
    { unfold len in Hl. simpl in Hl. lia. }
    by rewrite Hst.
  - intros now cmd kw1 group name kw2 id Hkw1 Hkw2.
    by rewrite cmdXreadgroup_one, xreadgroup_one, Hg by done.
  - intros now cmd group. unfold cmdXpending.
    change (len [key; group] <? 2) with false. cbn beta iota. by rewrite Hg.
Qed.

(** ** What the handlers keep true of the database *)

Lemma stream_Some db key s :
  stream db key = inr (Some s) → streamKeys db !! key = Some s.
Proof. intros Hs. by rewrite <-(stream_found _ _ _ Hs). Qed.

Lemma stream_putStream db key s s' :
  stream db key = inr (Some s) → stream (putStream db key s') key = inr (Some s').
Proof.
  intros Hs. rewrite (stream_same_keys db _ key (Some s)); [|done|exact Hs].
  simpl. by rewrite lookup_insert_eq.
Qed.

Lemma putStream_twice db key s s' :
  putStream (putStream db key s) key s' = putStream db key s'.
Proof. unfold putStream; simpl. by rewrite insert_insert_eq. Qed.

Lemma streamGroupOf_Some_stream db key group g :
  streamGroupOf db key group = inr (Some g) →
  ∃ s, stream db key = inr (Some s) ∧ streamKeys db !! key = Some s
       ∧ groups s !! group = Some g.
Proof.
  unfold streamGroupOf. destruct (stream db key) as [e|[s|]] eqn:Hs; try done.
  intros [= Hg]. exists s. eauto using stream_Some.
Qed.

Lemma streamStep_reachable s s' : streamStep s s' → reachable s → reachable s'.
Proof.
  destruct 1; intros Hr;
    eauto using reach_add, reach_trim, reach_delete, reach_groups.
Qed.

Lemma groupInv_new i : groupInv (mkGroup i [] ∅).
Proof.
  split; [constructor|]. split; intros p Hp; by apply elem_of_nil in Hp.
Qed.

Lemma streamStep_groups s s' :
  ascending (entries s) →
  streamStep s s' →
  (∀ group g, groups s !! group = Some g → groupInv g) →
  ∀ group g, groups s' !! group = Some g → groupInv g.
Proof.
  intros Hasc Hstep Hinv.
  destruct Hstep as [tok vs now s' newID Ha|n|ids
                     |gr g0 now name id count noack Hg|gr g0 ids Hg|gr i Hg];
    intros group g; simpl.
  - apply add_inv in Ha as (i & _ & -> & _). apply Hinv.
  - unfold trim. destruct (0 <=? n); apply Hinv.
  - apply Hinv.
  - rewrite lookup_insert. case_decide as Hd; [|by apply Hinv].
    intros [= <-]. apply readGroup_keeps_inv; eauto.
  - rewrite lookup_insert. case_decide as Hd; [|by apply Hinv].
    intros [= <-]. apply ack_keeps_inv; eauto.
  - rewrite lookup_insert. case_decide as Hd; [|by apply Hinv].
    intros [= <-]. apply groupInv_new.
Qed.

Lemma dbStep_consistent db db' : dbStep db db' → consistent db → consistent db'.
Proof.
  intros Hstep (Hin & Hreach & Hgr).
  destruct Hstep as [key Hs|key s s' Hs Hstep|key].
  - apply stream_found in Hs. split; [|split].
    + intros k; simpl. destruct (decide (k = key)) as [->|Hne].
      * rewrite !lookup_insert_eq. split; eauto.
      * rewrite !lookup_insert_ne by done. apply Hin.
    + intros k s; simpl. destruct (decide (k = key)) as [->|Hne].
      * rewrite lookup_insert_eq. intros [= <-]. constructor.
      * rewrite lookup_insert_ne by done. apply Hreach.
    + intros k s group g; simpl. destruct (decide (k = key)) as [->|Hne].
      * rewrite lookup_insert_eq. intros [= <-]. simpl. by rewrite lookup_empty.
      * rewrite lookup_insert_ne by done. apply Hgr.
  - apply stream_Some in Hs. split; [|split].
    + intros k; simpl. destruct (decide (k = key)) as [->|Hne].
      * rewrite lookup_insert_eq, (Hin key), Hs. split; eauto.
      * rewrite lookup_insert_ne by done. apply Hin.
    + intros k s0; simpl. destruct (decide (k = key)) as [->|Hne].
      * rewrite lookup_insert_eq. intros [= <-].
        eapply streamStep_reachable; eauto.
      * rewrite lookup_insert_ne by done. apply Hreach.
    + intros k s0 group g; simpl. destruct (decide (k = key)) as [->|Hne].
      * rewrite lookup_insert_eq. intros [= <-].
        apply (streamStep_groups s); [|done|intros gr g0; by apply (Hgr key s)].
        by apply reachable_inv, (Hreach key).
      * rewrite lookup_insert_ne by done. apply Hgr.
  - done.
Qed.

Lemma evolves_consistent db db' : rtc dbStep db db' → consistent db → consistent db'.
Proof. induction 1; eauto using dbStep_consistent. Qed.

(** The steps of each handler. *)

Lemma put_add_evolves now db key s maxlen tok values :
  stream db key = inr (Some s) →
  rtc dbStep db
    match add tok values now s with
    | inl _ => db
    | inr (s1, _) =>
        bumpVersion
          (putStream db key (if 0 <=? maxlen then trim maxlen s1 else s1)) key
    end.
Proof.
  intros Hs. destruct (add tok values now s) as [e|[s1 newID]] eqn:Ha; [done|].
  eapply rtc_l; [by eapply step_putStream, step_add|].
  destruct (0 <=? maxlen).
  - eapply rtc_l.
    { eapply step_putStream; [by eapply stream_putStream|apply (step_trim _ maxlen)]. }
    rewrite putStream_twice. apply rtc_once, step_bump.
  - apply rtc_once, step_bump.
Qed.

Lemma xaddStore_evolves now db key maxlen tok values :
  rtc dbStep db (xaddStore now db key maxlen tok values).1.
Proof.
  unfold xaddStore. destruct (stream db key) as [e|[s|]] eqn:Hs; simpl; [done| |].
  - pose proof (put_add_evolves now db key s maxlen tok values Hs) as Hrun.
    by destruct (add tok values now s) as [e|[s1 newID]].
  - eapply rtc_l; [by apply step_newStream|].
    assert (stream (newStream db key).1 key = inr (Some newStreamKey)) as Hs1.
    { rewrite stream_present; simpl; by rewrite lookup_insert_eq. }
    pose proof (put_add_evolves now _ key _ maxlen tok values Hs1) as Hrun.
    by destruct (add tok values now newStreamKey) as [e|[s1 newID]].
Qed.

Lemma cmdXadd_evolves now db cmd args : rtc dbStep db (cmdXadd now db cmd args).1.
Proof.
  assert ((cmdXadd now db cmd args).1 = db
          ∨ ∃ key maxlen tok values,
              (cmdXadd now db cmd args).1
              = (xaddStore now db key maxlen tok values).1) as [->|(?&?&?&?&->)];
    [|done|apply xaddStore_evolves].
  unfold cmdXadd, xaddTx, xaddMaxlen.
  repeat (case_match; simplify_eq; simpl; eauto 10).
Qed.

Lemma cmdXdel_evolves db cmd args : rtc dbStep db (cmdXdel db cmd args).1.
Proof.
  unfold cmdXdel. destruct (len args <? 2); [done|].
  destruct args as [|key ids]; [done|].
  destruct (stream db key) as [e|[s|]] eqn:Hs; try done.
  unfold deleteTokens. destruct (mapM parseStreamID ids) as [parsed|]; [|done].
  simpl. eapply rtc_l; [by eapply step_putStream, (step_delete _ parsed)|].
  apply rtc_once, step_bump.
Qed.

Lemma cmdXack_evolves db cmd args : rtc dbStep db (cmdXack db cmd args).1.
Proof.
  unfold cmdXack. destruct (len args <? 3); [done|].
  destruct args as [|key [|group ids]]; try done.
  destruct (streamGroupOf db key group) as [e|[g|]] eqn:Hg; try done.
  apply streamGroupOf_Some_stream in Hg as (s & Hs & Hsk & Hg).
  unfold ackTokens. destruct (mapM parseStreamID ids) as [parsed|]; [|done].
  simpl. rewrite Hsk. simpl.
  apply rtc_once. eapply step_putStream; [done|]. by apply (step_ack _ group g).
Qed.

Lemma cmdXgroup_evolves db cmd args : rtc dbStep db (cmdXgroup db cmd args).1.
Proof.
  unfold cmdXgroup. destruct (_ && _); [|done]. unfold cmdXgroupCreate.
  destruct args as [|a0 [|key [|group [|id opt]]]]; try done.
  destruct (stream db key) as [e|[s|]] eqn:Hs; [done| |].
  - destruct (createGroup group id s) as [e|s1] eqn:Hc; [done|]. simpl.
    apply createGroup_inv in Hc as [Hg [i ->]].
    apply rtc_once. eapply step_putStream; [done|]. by apply step_group.
  - destruct (_ && _); [|done]. simpl.
    eapply rtc_l; [by apply step_newStream|].
    destruct (createGroup group id newStreamKey) as [e|s1] eqn:Hc; [done|]. simpl.
    apply createGroup_inv in Hc as [Hg [i ->]].
    apply rtc_once. eapply step_putStream; [|by apply step_group].
    rewrite stream_present; simpl; by rewrite lookup_insert_eq.
Qed.

Lemma xreadgroupLoop_evolves db group name noack reqs count now res :
  rtc dbStep db (xreadgroupLoop db group name noack reqs count now res).1.
Proof.
  revert db res. induction reqs as [|[key id] rest IH]; intros db res; [done|].
  rewrite xreadgroupLoop_cons.
  destruct (streamGroupOf db key group) as [e|[g|]] eqn:Hg; try done.
  destruct (_ && _); [done|]. cbn zeta.
  apply streamGroupOf_Some_stream in Hg as (s & Hs & Hsk & Hg).
  rewrite Hsk. cbn [default from_option].
  eapply rtc_l; [|apply IH].
  eapply step_putStream; [done|]. by apply step_read.
Qed.

Lemma cmdXreadgroup_evolves now db cmd args :
  rtc dbStep db (stateOf (cmdXreadgroup now db cmd args)).
Proof.
  unfold cmdXreadgroup. destruct (xreadgroupOpts cmd args) as [out|o]; [done|].
  pose proof (xreadgroupLoop_evolves db (opt_group o) (opt_consumer o) (opt_noack o)
                (zip (opt_streams o) (opt_ids o)) (opt_count o) now ∅) as Hrun.
  unfold blocking, xreadgroup.
  destruct (xreadgroupLoop _ _ _ _ _ _ _ _) as [db1 [e|res]]; simpl in *.
  - by destruct (negb _).
  - destruct (negb _); [done|]. by destruct (_ =? _).
Qed.

Lemma cmdXread_state db cmd args : stateOf (cmdXread db cmd args) = db.
Proof.
  unfold cmdXread. destruct (len args <? 3); [done|].
  destruct (xreadArgs _ _ _) as [out|[o [e|]]]; try done.
  destruct (negb _); [done|]. unfold blocking. by destruct (_ =? _).
Qed.

(** X16. Every handler of [commandsStream] keeps the database consistent:
    a key is of type "stream" exactly when a stream is stored for it; every
    stream stored is one that appending, trimming and deleting make of a
    new stream, so its entries are strictly ascending by ID; and in every
    group the pending rows are sorted by ID, none is above the cursor of
    the group, and each belongs to a consumer the group knows. *)
Theorem handlers_keep_the_database_consistent name h now db cmd args :
  (name, h) ∈ commandsStream →
  consistent db →
  consistent (h now db cmd args)
  ∧ (∀ key s, streamKeys (h now db cmd args) !! key = Some s →
              ascending (entries s) ∧ NoDup (ID <$> entries s)).
Proof.
  intros Hh Hdb.
  assert (rtc dbStep db (h now db cmd args)) as Hrun.
  { unfold commandsStream in Hh.
    repeat (apply elem_of_cons in Hh as [[= -> ->]|Hh]);
      [apply cmdXadd_evolves|done|by rewrite cmdXread_state|done|done
      |apply cmdXgroup_evolves|done|apply cmdXreadgroup_evolves
      |apply cmdXack_evolves|apply cmdXdel_evolves|done|].
    by apply elem_of_nil in Hh. }
  pose proof (evolves_consistent _ _ Hrun Hdb) as Hc. split; [done|].
  intros key s Hs. destruct Hc as (_ & Hreach & _).
  destruct (reachable_inv _ (Hreach key s Hs)) as [Hasc _].
  split; [done|]. by apply ascending_NoDup.
Qed.

(** ** No handler indexes out of range *)

Ltac concrete_no_panic :=
  let Hin := fresh "Hin" in
  intros Hin;
  repeat (apply elem_of_cons in Hin as [Hin|Hin]; [discriminate Hin|]);
  by apply elem_of_nil in Hin.

Lemma bind_no_panic {A} (f : A → list peerEvent) (l : list A) :
  (∀ x, Panic ∉ f x) → Panic ∉ l ≫= f.
Proof. intros Hf (x & Hx & _)%list_elem_of_bind. by apply (Hf x). Qed.

Lemma writeEntry_no_panic e : Panic ∉ writeEntry e.
Proof.
  unfold writeEntry. intros [Hin|(v & [=] & _)%list_elem_of_fmap]%elem_of_app.
  revert Hin. concrete_no_panic.
Qed.

Lemma writeEntries_no_panic es : Panic ∉ writeEntries es.
Proof.
  unfold writeEntries. intros [[=]|Hin]%elem_of_cons. revert Hin.
  apply bind_no_panic, writeEntry_no_panic.
Qed.

Lemma writeXread_no_panic streams res : Panic ∉ writeXread streams res.
Proof.
  unfold writeXread. destruct (_ =? _); [concrete_no_panic|].
  intros [[=]|Hin]%elem_of_cons. revert Hin. apply bind_no_panic.
  intros k. destruct (res !! k) as [es|]; [|concrete_no_panic].
  intros [Hin|Hin]%elem_of_app; revert Hin;
    [concrete_no_panic|apply bind_no_panic, writeEntry_no_panic].
Qed.

Lemma writeXpendingSummary_no_panic g : Panic ∉ writeXpendingSummary g.
Proof.
  unfold writeXpendingSummary. destruct (pending g); [concrete_no_panic|].
  intros [Hin|Hin]%elem_of_app; revert Hin; [concrete_no_panic|].
  apply bind_no_panic. intros k. concrete_no_panic.
Qed.

Lemma writeXpending_no_panic now g start end_ count name :
  Panic ∉ writeXpending now g start end_ count name.
Proof.
  unfold writeXpending. destruct (_ || _); [concrete_no_panic|].
  intros [[=]|Hin]%elem_of_cons. revert Hin. apply bind_no_panic.
  intros r. unfold writeRow. concrete_no_panic.
Qed.

(** The option parsers end in an error reply or in options, never in an
    index out of range. *)
Lemma xreadgroupOpts_error cmd args out :
  xreadgroupOpts cmd args = inl out → ∃ e, out = [SetDirty; WriteError e].
Proof.
  unfold xreadgroupOpts.
  destruct (Z.ltb_spec (len args) 6) as [|Hlen]; [intros [= <-]; eauto|].
  destruct args as [|a0 [|group [|name args]]];
    try (unfold len in Hlen; simpl in Hlen; lia).
  destruct (negb _); [intros [= <-]; eauto|].
  destruct (xreadgroupArgs _ _ _) as [o [e|]]; [intros [= <-]; eauto|].
  destruct (_ || _); [intros [= <-]; eauto|done].
Qed.

Lemma xreadArgs_error cmd args o out :
  xreadArgs cmd args o = inl out → out = [SetDirty; WriteError msgInvalidStreamID].
Proof.
  assert (∀ n args o, (length args ≤ n)%nat →
            xreadArgs cmd args o = inl out →
            out = [SetDirty; WriteError msgInvalidStreamID]) as Hind.
  { induction n as [|n IH]; intros [|a0 rest] o1 Hlen; simpl in *;
      try done; try lia.
    destruct (String.eqb (ToUpper a0) "COUNT").
    { destruct rest as [|a1 rest2]; [done|].
      destruct (strconv.Atoi a1) as [c|]; [|done].
      apply IH. simpl in Hlen. lia. }
    destruct (String.eqb (ToUpper a0) "BLOCK").
    { destruct rest as [|a1 rest2]; [done|].
      destruct (xreadBlock _ _ _) as [o' [e|]]; [done|].
      apply IH. simpl in Hlen. lia. }
    destruct (String.eqb (ToUpper a0) "STREAMS"); [|done].
    destruct (negb _); [done|].
    destruct (mapM _ _); [done|]. by intros [= <-]. }
  by apply (Hind (length args)).
Qed.

(** X17. No stream command indexes its arguments out of range or reaches
    for a stream that is not there, whatever its arguments, on a database
    in which the types of the keys and the streams are in step: each
    handler checks the number of its arguments before it reads them. *)
Theorem stream_commands_never_panic now db cmd args :
  inStep db →
  (Panic ∉ (cmdXadd now db cmd args).2)
  ∧ (Panic ∉ cmdXlen db cmd args)
  ∧ (∀ reverse, Panic ∉ makeCmdXrange reverse db cmd args)
  ∧ (Panic ∉ (cmdXgroup db cmd args).2)
  ∧ (Call Panic ∉ cmdXinfo db cmd args)
  ∧ (Panic ∉ written (cmdXreadgroup now db cmd args))
  ∧ (Panic ∉ (cmdXack db cmd args).2)
  ∧ (Panic ∉ (cmdXdel db cmd args).2)
  ∧ (Panic ∉ cmdXpending now db cmd args)
  ∧ (Panic ∉ written (cmdXread db cmd args)).
Proof.
  intros Hin. repeat split.
  - apply cmdXadd_no_panic.
  - unfold cmdXlen. destruct (Z.eqb_spec (len args) 1) as [Hlen|_];
      [|concrete_no_panic]. simpl.
    destruct args as [|key args]; [by compute in Hlen|].
    destruct (stream db key) as [e|[s|]]; concrete_no_panic.
  - intros reverse. unfold makeCmdXrange.
    destruct (Z.ltb_spec (len args) 3) as [|Hlen]; [concrete_no_panic|].
    destruct (_ || _); [concrete_no_panic|].
    destruct args as [|key [|startKey [|endKey opt]]];
      try (unfold len in Hlen; simpl in Hlen; lia).
    assert (∀ countArg, Panic ∉ xrangeTx reverse db key startKey endKey countArg)
      as Htx.
    { intros countArg. unfold xrangeTx.
      destruct (formatStreamRangeBound startKey _ _); [|concrete_no_panic].
      destruct (formatStreamRangeBound endKey _ _); [|concrete_no_panic].
      destruct (strconv.Atoi countArg); [|concrete_no_panic].
      destruct (negb (exists_ db key)); [concrete_no_panic|].
      destruct (isStream db key) eqn:Hst; [|concrete_no_panic]. simpl.
      unfold isStream, t in Hst. apply String.eqb_eq in Hst.
      destruct (keys db !! key) as [ty|] eqn:Hk; [|done]. simpl in Hst. subst ty.
      apply Hin in Hk as [sk ->]. apply writeEntries_no_panic. }
    destruct opt as [|a3 [|a4 [|? ?]]]; try apply Htx.
    destruct (negb _); [concrete_no_panic|apply Htx].
  - unfold cmdXgroup.
    destruct ((len args =? 4) || (len args =? 5)) eqn:Hlen; [|concrete_no_panic].
    simpl. destruct args as [|a0 [|key [|group [|id opt]]]];
      try (by compute in Hlen); try concrete_no_panic.
    destruct (String.eqb (ToUpper a0) "CREATE"); [|concrete_no_panic].
    unfold cmdXgroupCreate.
    destruct (stream db key) as [e|found]; [concrete_no_panic|].
    destruct (match found with Some _ => _ | None => _ end) as [db1 [s|]];
      [|concrete_no_panic].
    destruct (createGroup group id s); concrete_no_panic.
  - unfold cmdXinfo.
    destruct (Z.ltb_spec (len args) 1) as [|Hlen]; [concrete_no_panic|].
    destruct args as [|a0 rest]; [by compute in Hlen|]. cbn zeta.
    destruct (String.eqb (ToUpper a0) "STREAM").
    + unfold cmdXinfoStream.
      destruct (Z.ltb_spec (len rest) 1) as [|Hlen']; [concrete_no_panic|].
      destruct rest as [|key rest]; [by compute in Hlen'|].
      destruct (stream db key) as [e|[s|]]; concrete_no_panic.
    + destruct (_ || _); concrete_no_panic.
  - unfold cmdXreadgroup.
    destruct (xreadgroupOpts cmd args) as [out|o] eqn:Ho.
    { apply xreadgroupOpts_error in Ho as [e ->]. simpl. concrete_no_panic. }
    unfold blocking.
    destruct (xreadgroup _ _ _ _ _ _ _ _) as [db1 [e|res]]; simpl.
    + destruct (negb _); simpl; concrete_no_panic.
    + destruct (negb _); simpl; [apply writeXread_no_panic|].
      destruct (_ =? _); simpl; [concrete_no_panic|apply writeXread_no_panic].
  - unfold cmdXack. destruct (Z.ltb_spec (len args) 3) as [|Hlen];
      [concrete_no_panic|].
    destruct args as [|key [|group ids]];
      try (unfold len in Hlen; simpl in Hlen; lia).
    destruct (streamGroupOf db key group) as [e|[g|]]; try concrete_no_panic.
    destruct (ackTokens ids g) as [e|[g1 cnt]]; concrete_no_panic.
  - unfold cmdXdel. destruct (Z.ltb_spec (len args) 2) as [|Hlen];
      [concrete_no_panic|].
    destruct args as [|key ids]; [unfold len in Hlen; simpl in Hlen; lia|].
    destruct (stream db key) as [e|[s|]]; try concrete_no_panic.
    destruct (deleteTokens ids s) as [e|[s1 n]]; concrete_no_panic.
  - unfold cmdXpending. destruct (Z.ltb_spec (len args) 2) as [|Hlen];
      [concrete_no_panic|].
    destruct args as [|key [|group rest]];
      try (unfold len in Hlen; simpl in Hlen; lia).
    assert (∀ write : streamGroup → list peerEvent,
              (∀ g, Panic ∉ write g) →
              Panic ∉ match streamGroupOf db key group with
                      | inl err => [WriteError (Error err)]
                      | inr None => [WriteError (msgReadgroup key group)]
                      | inr (Some g) => write g
                      end) as Hreply.
    { intros write Hw. destruct (streamGroupOf db key group) as [e|[g|]];
        [concrete_no_panic|apply Hw|concrete_no_panic]. }
    cbn zeta. destruct rest as [|a0 [|a1 [|a2 rest]]].
    + apply Hreply, writeXpendingSummary_no_panic.
    + destruct (String.eqb _ _); concrete_no_panic.
    + destruct (String.eqb _ _); concrete_no_panic.
    + destruct (String.eqb _ _); [concrete_no_panic|].
      destruct (formatStreamRangeBound a0 _ _); [|concrete_no_panic].
      destruct (formatStreamRangeBound a1 _ _); [|concrete_no_panic].
      destruct (strconv.Atoi a2); [|concrete_no_panic].
      destruct rest as [|c [|? ?]];
        [apply Hreply; intros g; apply writeXpending_no_panic
        |apply Hreply; intros g; apply writeXpending_no_panic
        |concrete_no_panic].
  - unfold cmdXread. destruct (len args <? 3); [simpl; concrete_no_panic|].
    destruct (xreadArgs _ _ _) as [out|[o [e|]]] eqn:Ho; simpl.
    + apply xreadArgs_error in Ho as ->. concrete_no_panic.
    + concrete_no_panic.
    + destruct (negb _); simpl; [apply writeXread_no_panic|].
      unfold blocking. destruct (_ =? _); simpl;
        [concrete_no_panic|apply writeXread_no_panic].
Qed.

(** ** XPENDING: the counts of the summary *)

Lemma count_by_consumer (names : list string) (ps : list pendingEntry) :
  NoDup names →
  foldr Z.add 0
    ((λ name, Z.of_nat (length (filter (λ p, consumer p = name) ps))) <$> names)
  = Z.of_nat (length (filter (λ p, consumer p ∈ names) ps)).
Proof.
  induction 1 as [|n rest Hn _ IH].
  { simpl. rewrite filter_none; [done|]. intros p _ Hp. by apply elem_of_nil in Hp. }
  rewrite fmap_cons. cbn [foldr]. rewrite IH. clear IH.
  induction ps as [|p ps IH]; [done|].
  destruct (decide (consumer p = n)) as [Hp|Hp].
  - rewrite (filter_cons_True (λ p, consumer p = n)) by done.
    rewrite (filter_cons_True (λ p, consumer p ∈ n :: rest)) by (rewrite Hp; left).
    rewrite (filter_cons_False (λ p, consumer p ∈ rest)) by (by rewrite Hp).
    simpl length. lia.
  - rewrite (filter_cons_False (λ p, consumer p = n)) by done.
    destruct (decide (consumer p ∈ rest)) as [Hr|Hr].
    + rewrite (filter_cons_True (λ p, consumer p ∈ n :: rest)) by (by right).
      rewrite (filter_cons_True (λ p, consumer p ∈ rest)) by done.
      simpl length. lia.
    + rewrite (filter_cons_False (λ p, consumer p ∈ n :: rest))
        by (by intros [?|?]%elem_of_cons).
      by rewrite (filter_cons_False (λ p, consumer p ∈ rest)) by done.
Qed.

(** X18. In the XPENDING summary of a group whose pending rows all belong
    to consumers the group knows, the counts listed for the consumers add
    up to the number of pending rows that heads the reply. *)
Theorem xpending_counts_add_up g :
  registered g →
  foldr Z.add 0 (pendingCount g <$> sortedConsumers (pendingByConsumer g))
  = len (pending g).
Proof.
  intros Hreg. unfold pendingCount.
  rewrite count_by_consumer by apply sortedConsumers_sorted.
  unfold len. do 2 f_equal. apply filter_all. intros p Hp.
  apply sortedConsumers_elem_of. split; [by apply Hreg|].
  apply pendingCount_pos. eauto.
Qed.

(** ** XREADGROUP over several streams *)

(** X19. XREADGROUP is not undone by an error: when the first stream asked
    for has the group and the second has not, the reply is the error of the
    missing group, and what the read did to the group of the first stream
    (the cursor moved, the consumer registered, the entries delivered
    recorded as pending) stays. *)
Theorem xreadgroup_error_keeps_earlier_reads db group name noack k1 id1 k2 id2
    streams ids count now s1 g1 :
  k1 ≠ k2 →
  keys db !! k1 = Some "stream"%string →
  streamKeys db !! k1 = Some s1 →
  groups s1 !! group = Some g1 →
  id1 = ">"%string ∨ is_Some (parseStreamID id1) →
  keys db !! k2 = None →
  streamKeys db !! k2 = None →
  xreadgroup db group name noack (k1 :: k2 :: streams) (id1 :: id2 :: ids) count now
  = (putStream db k1
       (withGroups s1
          (<[group := (readGroup now name id1 count noack s1 g1).1]> (groups s1))),
     inl (errXreadgroup k2 group)).
Proof.
  intros Hne Hk1 Hs1 Hg1 Hid Hk2 Hs2. unfold xreadgroup.
  change (zip (k1 :: k2 :: streams) (id1 :: id2 :: ids))
    with ((k1, id1) :: (k2, id2) :: zip streams ids).
  rewrite xreadgroupLoop_cons, (streamGroupOf_stream _ _ _ _ Hk1 Hs1), Hg1, Hs1.
  assert (negb (String.eqb id1 ">") && negb (bool_decide (is_Some (parseStreamID id1)))
          = false) as ->.
  { destruct Hid as [->|Hp]; [done|].
    by rewrite (bool_decide_eq_true_2 _ Hp), andb_false_r. }
  cbn [default from_option]. cbn zeta.
  rewrite xreadgroupLoop_cons, streamGroupOf_absent; [done| |]; simpl.
  - done.
  - by rewrite lookup_insert_ne.
Qed.

(** ** XREVRANGE with its bounds in the order of XRANGE *)

(** X20. XREVRANGE takes the upper end of the interval first: given "-"
    and then "+", the bounds of the full XRANGE, it replies with the empty
    list on every stream. *)
Theorem xrevrange_wants_the_upper_end_first db cmd key s :
  keys db !! key = Some "stream"%string →
  streamKeys db !! key = Some s →
  reachable s →
  makeCmdXrange true db cmd [key; "-"; "+"]%string = [WriteLen 0].
Proof.
  intros Hk Hs Hreach. rewrite makeCmdXrange_plain.
  rewrite (xrangeTx_stream true db key _ _ _ s minID maxID 0 Hk Hs)
    by (by vm_compute).
  rewrite xrevrange_minus_plus; [done|]. by apply reachable_inv.
Qed.

(** ** XACK on a group that is there *)

(** X21. An XACK that replies with the integer n has removed n rows from
    the pending rows of the group, those whose ID is one of the IDs given,
    whoever owns them, and has left the rest in their order; the cursor and
    the consumers of the group, the entries of the stream, the types and the
    versions of the keys are as before. *)
Theorem xack_removes_what_it_counts db cmd key group ids db' n s g :
  keys db !! key = Some "stream"%string →
  streamKeys db !! key = Some s →
  groups s !! group = Some g →
  cmdXack db cmd (key :: group :: ids) = (db', [WriteInt n]) →
  ∃ parsed g',
    mapM parseStreamID ids = Some parsed
    ∧ streamKeys db'
      = <[key := mkStream (entries s) (lastEntryID s) (<[group := g']> (groups s))]>
          (streamKeys db)
    ∧ pending g' = filter (λ p, pid p ∉ parsed) (pending g)
    ∧ n = len (pending g) - len (pending g')
    ∧ 0 ≤ n ≤ len (pending g)
    ∧ lastID g' = lastID g
    ∧ consumers g' = consumers g
    ∧ keyVersion db' = keyVersion db
    ∧ keys db' = keys db.
Proof.
  intros Hk Hs Hg. unfold cmdXack.
  destruct (len (key :: group :: ids) <? 3); [done|].
  rewrite (streamGroupOf_stream _ _ _ _ Hk Hs), Hg. unfold ackTokens.
  destruct (mapM parseStreamID ids) as [parsed|]; [|done].
  rewrite Hs. simpl. intros [= <- <-].
  exists parsed, (ack parsed g).1. simpl.
  pose proof (length_filter (λ p, pid p ∉ parsed) (pending g)) as Hle.
  repeat split; try done; unfold len; lia.
Qed.

(** ** The streams and the IDs of XREADGROUP *)

Lemma xreadgroupArgs_split cmd args o o' :
  xreadgroupArgs cmd args o = (o', None) →
  opt_streams o = [] →
  opt_streams o' ≠ [] →
  ∃ front kw,
    args = front ++ kw :: opt_streams o' ++ opt_ids o'
    ∧ ToUpper kw = "STREAMS"%string.
Proof.
  assert (∀ n args o, (length args ≤ n)%nat →
            opt_streams o = [] →
            xreadgroupArgs cmd args o = (o', None) →
            opt_streams o' ≠ [] →
            ∃ front kw,
              args = front ++ kw :: opt_streams o' ++ opt_ids o'
              ∧ ToUpper kw = "STREAMS"%string) as Hind.
  { induction n as [|n IH]; intros [|a0 rest] o1 Hlen Hnone; simpl in *;
      try (by intros [= <-]); try lia.
    destruct (String.eqb (ToUpper a0) "COUNT").
    { destruct rest as [|a1 rest2]; [done|].
      destruct (strconv.Atoi a1) as [c|]; [|done]. intros Hrun Ho.
      apply IH in Hrun as (front & kw & -> & Hkw);
        [|simpl in Hlen; lia|done|done].
      by exists (a0 :: a1 :: front), kw. }
    destruct (String.eqb (ToUpper a0) "BLOCK").
    { destruct rest as [|a1 rest2]; [done|].
      unfold parseBlock. destruct (strconv.Atoi a1) as [ms|]; [|done].
      destruct (ms <? 0); [done|]. intros Hrun Ho.
      apply IH in Hrun as (front & kw & -> & Hkw);
        [|simpl in Hlen; lia|done|done].
      by exists (a0 :: a1 :: front), kw. }
    destruct (String.eqb (ToUpper a0) "NOACK").
    { intros Hrun Ho.
      apply IH in Hrun as (front & kw & -> & Hkw); [|lia|done|done].
      by exists (a0 :: front), kw. }
    destruct (String.eqb_spec (ToUpper a0) "STREAMS") as [Hkw|]; [|done].
    destruct (negb _); [done|]. intros [= <-] _. exists [], a0.
    unfold setStreams. cbn [opt_streams opt_ids].
    by rewrite take_drop. }
  intros Hrun Ho Hne. by apply (Hind (length args) args o).
Qed.

(** X22. What XREADGROUP reads its streams and IDs from: when the options
    are accepted, the arguments end with the STREAMS keyword followed by the
    streams and then the IDs, as many of the one as of the other and at
    least one, so that the i-th ID goes with the i-th stream. *)
Theorem xreadgroup_pairs_streams_with_ids cmd args o :
  xreadgroupOpts cmd args = inr o →
  ∃ front kw,
    args = front ++ kw :: opt_streams o ++ opt_ids o
    ∧ ToUpper kw = "STREAMS"%string
    ∧ length (opt_streams o) = length (opt_ids o)
    ∧ opt_streams o ≠ []
    ∧ zip (opt_streams o) (opt_ids o) ≠ [].
Proof.
  intros Ho. pose proof (xreadgroupOpts_lengths _ _ _ Ho) as Hlen.
  revert Ho. unfold xreadgroupOpts. destruct (len args <? 6); [done|].
  destruct args as [|a0 [|group [|name args]]]; try done.
  destruct (negb _); [done|].
  destruct (xreadgroupArgs _ _ _) as [o' [e|]] eqn:Hargs; [done|].
  destruct (Z.eqb_spec (len (opt_streams o')) 0) as [|Hne]; [done|].
  destruct (_ =? _); [done|]. simpl. intros [= ->].
  assert (opt_streams o ≠ []) as Hs by (by intros Hnil; rewrite Hnil in Hne).
  destruct (xreadgroupArgs_split _ _ _ _ Hargs eq_refl Hs) as (front & kw & -> & Hkw).
  exists (a0 :: group :: name :: front), kw.
  repeat split; try done.
  destruct (opt_streams o), (opt_ids o); done.
Qed.

(** ** XREAD with BLOCK *)

(** [xread] is given as many IDs as streams, so [ids[i]] is in range. *)
Lemma xreadArgs_lengths cmd args o o' :
  xreadArgs cmd args o = inr (o', None) →
  length (xr_streams o) = length (xr_ids o) →
  length (xr_streams o') = length (xr_ids o').
Proof.
  assert (∀ n args o, (length args ≤ n)%nat →
            xreadArgs cmd args o = inr (o', None) →
            length (xr_streams o) = length (xr_ids o) →
            length (xr_streams o') = length (xr_ids o')) as Hind.
  { induction n as [|n IH]; intros [|a0 rest] o1 Hlen; simpl in *;
      try (by intros [= <-]); try lia.
    destruct (String.eqb (ToUpper a0) "COUNT").
    { destruct rest as [|a1 rest2]; [done|].
      destruct (strconv.Atoi a1) as [c|]; [|done]. intros Hrun Ho.
      apply IH in Hrun; [done|simpl in Hlen; lia|done]. }
    destruct (String.eqb (ToUpper a0) "BLOCK").
    { unfold xreadBlock, parseBlock. destruct rest as [|a1 rest2]; [done|]. destruct (strconv.Atoi a1) as [ms|]; [|done].
      destruct (ms <? 0); [done|]. intros Hrun Ho.
      apply IH in Hrun; [done|simpl in Hlen; lia|done]. }
    destruct (String.eqb (ToUpper a0) "STREAMS"); [|done].
    destruct (Z.eqb_spec (Z.rem (len rest) 2) 0) as [Hev|]; [|done].
    cbn [negb].
    change (Nat.divmod (length rest) 1 0 1).1 with (length rest / 2)%nat.
    destruct (mapM parseStreamID _) as [ids|] eqn:Hids; [|done].
    intros [= <-] _. cbn [xr_streams xr_ids].
    apply length_mapM in Hids. rewrite <-Hids, length_take, length_drop.
    unfold len in Hev. apply Z.rem_divide in Hev as [k Hk]; [|done].
    assert (length rest = (Z.to_nat k * 2)%nat) as Hk' by lia.
    change (Nat.divmod (length rest) 1 0 1).1 with (length rest / 2)%nat.
    rewrite Hk', Nat.div_mul by done. lia. }
  by apply (Hind (length args)).
Qed.

(** X23. An XREAD whose options are accepted has as many IDs as streams.
    It waits only when it has a BLOCK option and no stream asked for has an
    entry above its ID: the reader is then parked with the timeout given.
    Otherwise it replies at once, with the null list when there is nothing
    to report. The database is the same afterwards in every case. *)
Theorem xread_waits_only_without_news db cmd args o :
  3 ≤ len args →
  xreadArgs cmd args (mkXreadOpts 0 [] [] false 0) = inr (o, None) →
  let res := xread db (xr_streams o) (xr_ids o) (xr_count o) in
  length (xr_streams o) = length (xr_ids o)
  ∧ cmdXread db cmd args
    = (if xr_block o && bool_decide (res = ∅)
       then Waiting db (xr_blockTimeout o)
       else Replied db (writeXread (xr_streams o) res))
  ∧ (res = ∅ → writeXread (xr_streams o) res = [WriteLen (-1)]).
Proof.
  intros Hlen Ho res.
  split; [by apply (xreadArgs_lengths _ _ _ _ Ho)|]. split; [|by intros ->].
  unfold cmdXread. destruct (Z.ltb_spec (len args) 3) as [|_]; [lia|].
  rewrite Ho. fold res. destruct (xr_block o); simpl; [|done].
  unfold blocking. fold res.
  destruct (Z.eqb_spec (Z.of_nat (size res)) 0) as [Hz|Hz].
  - rewrite bool_decide_eq_true_2; [done|]. apply map_size_empty_inv. lia.
  - rewrite bool_decide_eq_false_2; [done|]. intros Hres. apply Hz.
    by rewrite Hres, map_size_empty.
Qed.

End more_properties.

(** ** The string commands *)

Section string_properties.
Context `{Externals}.

Lemma string_lookup_set (db : cmd_string.redisDB) key value :
  cmd_string.keys (cmd_string.set db key value) !! key = Some "string"%string
  ∧ cmd_string.stringKeys (cmd_string.set db key value) !! key = Some value.
Proof. simpl. by rewrite !lookup_insert_eq. Qed.

Lemma string_GET_found (db : cmd_string.redisDB) key value :
  cmd_string.keys db !! key = Some "string"%string →
  cmd_string.stringKeys db !! key = Some value →
  cmd_string.GET db [key] = [cmd_string.WriteString value]
  ∧ cmd_string.Get db key = value
  ∧ cmd_string.MGET db [key]
    = [cmd_string.WriteBulkLen 1; cmd_string.WriteString value].
Proof.
  intros Hk Hv. unfold cmd_string.GET, cmd_string.Get, cmd_string.MGET.
  change (len [key]) with 1. simpl. by rewrite Hk, Hv.
Qed.

(** X24. What SET stores, GET returns: when SET replies OK, then GET of
    the key replies with the value, and so do MGET and the accessor Get,
    whatever the key held before and whatever [db.del] does; the key has
    the expiry of the last EX or PX flag, and none when there is no such
    flag or its value is 0. *)
Theorem set_then_get del db key value flags db' :
  cmd_string.SET del db (key :: value :: flags) = (db', [cmd_string.WriteOK]) →
  cmd_string.GET db' [key] = [cmd_string.WriteString value]
  ∧ cmd_string.Get db' key = value
  ∧ cmd_string.MGET db' [key]
    = [cmd_string.WriteBulkLen 1; cmd_string.WriteString value]
  ∧ ∃ nx xx ex,
      cmd_string.setFlags flags false false 0 = inr (nx, xx, ex)
      ∧ cmd_string.expire db' !! key = if ex =? 0 then None else Some ex.
Proof.
  unfold cmd_string.SET.
  destruct (Z.ltb_spec (len (key :: value :: flags)) 2) as [Hl|_].
  { unfold len in Hl. simpl in Hl. lia. }
  destruct (cmd_string.setFlags flags false false 0) as [e|[[nx xx] ex]]; [done|].
  destruct (nx && _); [done|]. destruct (xx && _); [done|].
  intros [= <-].
  assert (∀ db0, cmd_string.keys db0 !! key = Some "string"%string →
                 cmd_string.stringKeys db0 !! key = Some value →
                 cmd_string.GET db0 [key] = [cmd_string.WriteString value]
                 ∧ cmd_string.Get db0 key = value
                 ∧ cmd_string.MGET db0 [key]
                   = [cmd_string.WriteBulkLen 1; cmd_string.WriteString value])
    as Hget by (intros db0; apply string_GET_found).
  destruct (Z.eqb_spec ex 0) as [->|Hex]; simpl.
  - destruct (Hget (cmd_string.set
                      (cmd_string.withExpire (del db key)
                         (delete key (cmd_string.expire (del db key)))) key value))
      as (? & ? & ?); [apply string_lookup_set..|].
    repeat split; try done. exists nx, xx, 0. split; [done|].
    simpl. by rewrite lookup_delete_eq.
  - match goal with |- cmd_string.GET ?d _ = _ ∧ _ =>
      destruct (Hget d) as (? & ? & ?) end;
      [simpl; by rewrite lookup_insert_eq..|].
    repeat split; try done. exists nx, xx, ex. split; [done|].
    simpl. rewrite lookup_insert_eq. by destruct (Z.eqb_spec ex 0).
Qed.

(** X25. The conditions of SET: with NX a key that is there is left alone,
    with XX a key that is not there is not made, and with both flags
    nothing is ever written; the reply is nil each time and the database
    is unchanged. *)
Theorem set_nx_xx_conditions del db key value kw1 kw2 :
  ToUpper kw1 = "NX"%string →
  ToUpper kw2 = "XX"%string →
  (is_Some (cmd_string.keys db !! key) →
   cmd_string.SET del db [key; value; kw1] = (db, [cmd_string.WriteNil]))
  ∧ (cmd_string.keys db !! key = None →
     cmd_string.SET del db [key; value; kw2] = (db, [cmd_string.WriteNil]))
  ∧ cmd_string.SET del db [key; value; kw1; kw2] = (db, [cmd_string.WriteNil])
  ∧ cmd_string.SET del db [key; value; kw2; kw1] = (db, [cmd_string.WriteNil]).
Proof.
  intros Hnx Hxx. unfold cmd_string.SET, cmd_string.exists_.
  change (len [key; value; kw1] <? 2) with false.
  change (len [key; value; kw2] <? 2) with false.
  change (len [key; value; kw1; kw2] <? 2) with false.
  change (len [key; value; kw2; kw1] <? 2) with false.
  cbn [cmd_string.setFlags]. rewrite Hnx, Hxx. cbn [String.eqb Ascii.eqb Bool.eqb].
  cbn beta iota. cbn [andb negb].
  split; [|split; [|split]].
  - intros Hk. by rewrite bool_decide_eq_true_2.
  - intros Hk. rewrite bool_decide_eq_false_2; [done|]. rewrite Hk. by intros [? ?].
  - by destruct (bool_decide _).
  - by destruct (bool_decide _).
Qed.

(** X26. SETNX sets a key only when no key of that name is there: on a
    key that is there, of whatever type, it replies 0 and changes nothing;
    on one that is not it replies 1, GET then returns the value, and the
    other keys and the expiries are as before. *)
Theorem setnx_sets_only_a_new_key (db : cmd_string.redisDB) key value :
  (is_Some (cmd_string.keys db !! key) →
   cmd_string.SETNX db [key; value] = (db, [cmd_string.WriteZero]))
  ∧ (cmd_string.keys db !! key = None →
     let r := cmd_string.SETNX db [key; value] in
     r.2 = [cmd_string.WriteOne]
     ∧ cmd_string.GET r.1 [key] = [cmd_string.WriteString value]
     ∧ cmd_string.expire r.1 = cmd_string.expire db
     ∧ ∀ k, k ≠ key →
            cmd_string.keys r.1 !! k = cmd_string.keys db !! k
            ∧ cmd_string.stringKeys r.1 !! k = cmd_string.stringKeys db !! k).
Proof.
  unfold cmd_string.SETNX, cmd_string.exists_.
  change (len [key; value] =? 2) with true. cbn [negb]. cbn beta iota.
  split.
  - intros Hk. by rewrite bool_decide_eq_true_2.
  - intros Hk. rewrite bool_decide_eq_false_2 by (rewrite Hk; by intros [? ?]).
    cbn zeta. cbn [fst snd]. split; [done|]. split.
    + by apply string_GET_found; apply string_lookup_set.
    + split; [done|]. intros k Hne. simpl. by rewrite !lookup_insert_ne.
Qed.

(** *** MSET *)

Lemma flat_cons k v pairs :
  cmd_string.flat ((k, v) :: pairs) = k :: v :: cmd_string.flat pairs.
Proof. done. Qed.

Lemma flat_even pairs : Z.rem (len (cmd_string.flat pairs)) 2 = 0.
Proof.
  induction pairs as [|[k v] pairs IH]; [done|].
  rewrite flat_cons. unfold len in *. simpl length.
  rewrite !Nat2Z.inj_succ.
  replace (Z.succ (Z.succ (Z.of_nat (length (cmd_string.flat pairs)))))
    with (Z.of_nat (length (cmd_string.flat pairs)) + 1 * 2) by lia.
  rewrite Z.rem_add; [done|lia|lia].
Qed.

Lemma msetLoop_flat del db pairs :
  cmd_string.delFrame del →
  ∃ db',
    cmd_string.msetLoop del db (cmd_string.flat pairs) = Some db'
    ∧ (∀ k, k ∉ pairs.*1 →
            cmd_string.keys db' !! k = cmd_string.keys db !! k
            ∧ cmd_string.stringKeys db' !! k = cmd_string.stringKeys db !! k)
    ∧ (NoDup pairs.*1 →
       ∀ k v, (k, v) ∈ pairs →
              cmd_string.keys db' !! k = Some "string"%string
              ∧ cmd_string.stringKeys db' !! k = Some v).
Proof.
  intros Hdel. revert db. induction pairs as [|[k v] pairs IH]; intros db.
  { exists db. split; [done|]. split; [done|].
    intros _ k v Hin. by apply elem_of_nil in Hin. }
  rewrite flat_cons. cbn [cmd_string.msetLoop].
  set (db1 := cmd_string.mkRedisDB _ _ _).
  destruct (IH db1) as (db' & Hrun & Hout & Hin). exists db'.
  split; [done|]. split.
  - intros k' Hk'. rewrite fmap_cons, not_elem_of_cons in Hk'.
    destruct Hk' as [Hne Hk']. simpl in Hne.
    destruct (Hout k' Hk') as [-> ->]. unfold db1; simpl.
    rewrite !lookup_insert_ne by done. by apply Hdel.
  - intros Hnd k' v' Hkv. rewrite fmap_cons in Hnd.
    apply NoDup_cons in Hnd as [Hfresh Hnd]. simpl in Hfresh.
    apply elem_of_cons in Hkv as [[= -> ->]|Hkv].
    + destruct (Hout k Hfresh) as [-> ->]. unfold db1; simpl.
      by rewrite !lookup_insert_eq.
    + by apply Hin.
Qed.

(** X27. MSET takes an even number of arguments, and an odd number is
    refused with nothing changed. With a [db.del] that leaves the other
    keys alone, an MSET of distinct keys replies OK, and GET of each key
    then returns the value given for it. *)
Theorem mset_then_get del db pairs :
  (∀ args, Z.rem (len args) 2 ≠ 0 →
     cmd_string.MSET del db args
     = (db, [cmd_string.WriteErrorString
               "wrong number of arguments for 'mset' command"]))
  ∧ (cmd_string.delFrame del →
     NoDup pairs.*1 →
     ∃ db',
       cmd_string.MSET del db (cmd_string.flat pairs) = (db', [cmd_string.WriteOK])
       ∧ ∀ k v, (k, v) ∈ pairs →
                cmd_string.GET db' [k] = [cmd_string.WriteString v]
                ∧ cmd_string.Get db' k = v).
Proof.
  split.
  - intros args Hodd. unfold cmd_string.MSET.
    by destruct (Z.eqb_spec (Z.rem (len args) 2) 0).
  - intros Hdel Hnd.
    destruct (msetLoop_flat del db pairs Hdel) as (db' & Hrun & _ & Hin).
    exists db'. unfold cmd_string.MSET. rewrite flat_even, Hrun. split; [done|].
    intros k v Hkv. destruct (Hin Hnd k v Hkv) as [Hk Hv].
    destruct (string_GET_found db' k v Hk Hv) as (? & ? & _). done.
Qed.

(** X28. SETEX stores the value and the expiry as given, also an expiry of
    0 or below, which a SET with EX would not keep: GET then returns the
    value. The accessor pair agrees with the commands: what Set stores, Get
    and GET return, and Set leaves the expiries alone. *)
Theorem setex_and_the_accessors del db key a1 value ttl :
  strconv.Atoi a1 = Some ttl →
  let r := cmd_string.SETEX del db [key; a1; value] in
  r.2 = [cmd_string.WriteOK]
  ∧ cmd_string.GET r.1 [key] = [cmd_string.WriteString value]
  ∧ cmd_string.expire r.1 !! key = Some ttl
  ∧ (∀ db0 k v,
       cmd_string.Get (cmd_string.Set_ db0 k v) k = v
       ∧ cmd_string.GET (cmd_string.Set_ db0 k v) [k] = [cmd_string.WriteString v]
       ∧ cmd_string.expire (cmd_string.Set_ db0 k v) = cmd_string.expire db0).
Proof.
  intros Ha r. subst r. unfold cmd_string.SETEX.
  change (len [key; a1; value] =? 3) with true. cbn [negb]. cbn beta iota.
  rewrite Ha. cbn [fst snd]. split; [done|]. split; [|split].
  - apply string_GET_found; simpl; by rewrite lookup_insert_eq.
  - simpl. by rewrite lookup_insert_eq.
  - intros db0 k v. unfold cmd_string.Set_.
    destruct (string_GET_found (cmd_string.set db0 k v) k v) as (? & ? & _);
      [apply string_lookup_set..|done].
Qed.

End string_properties.

(** * The further properties on the sample values *)

#[local] Existing Instance sample.
#[local] Existing Instance sampleMessages.

Lemma emptyDB_consistent : consistent emptyDB.
Proof.
  split; [|split].
  - intros key. simpl. rewrite !lookup_empty. split; [done|by intros [? ?]].
  - intros key s. simpl. by rewrite lookup_empty.
  - intros key s group g. simpl. by rewrite lookup_empty.
Qed.

Lemma xadd_tilde_is_ignored_witness :
  ToLower "MAXLEN" = "maxlen"%string
  ∧ "2"%string ≠ "~"%string
  ∧ cmdXadd 7000000 (dbWith threeEntries) "XADD"
      ["s"; "MAXLEN"; "~"; "2"; "*"; "f"; "v"]%string
    = cmdXadd 7000000 (dbWith threeEntries) "XADD"
        ["s"; "MAXLEN"; "2"; "*"; "f"; "v"]%string
  ∧ (cmdXadd 7000000 (dbWith threeEntries) "XADD"
       ["s"; "MAXLEN"; "~"; "2"; "*"; "f"; "v"]%string).2 = [WriteBulk "7-4"].
Proof.
  assert (H1 : ToLower "MAXLEN" = "maxlen"%string) by reflexivity.
  assert (H2 : "2"%string ≠ "~"%string) by discriminate.
  split; [exact H1|]. split; [exact H2|]. split.
  - exact (xadd_tilde_is_ignored 7000000 (dbWith threeEntries) "XADD" "s" "MAXLEN"
             "2" "*" ["f"; "v"]%string H1 H2).
  - vm_compute. reflexivity.
Defined.

Lemma xlen_replies_witness :
  keys (dbWith threeEntries) !! "s"%string = Some "stream"%string
  ∧ streamKeys (dbWith threeEntries) !! "s"%string = Some threeEntries
  ∧ cmdXlen (dbWith threeEntries) "XLEN" ["s"]%string = [WriteInt 3]
  ∧ cmdXlen dbWithString "XLEN" ["k"]%string
    = [WriteError msgWrongType; WriteInt 0].
Proof.
  assert (H1 : keys (dbWith threeEntries) !! "s"%string = Some "stream"%string)
    by (vm_compute; reflexivity).
  assert (H2 : streamKeys (dbWith threeEntries) !! "s"%string = Some threeEntries)
    by (vm_compute; reflexivity).
  assert (H3 : keys dbWithString !! "k"%string = Some "string"%string)
    by (vm_compute; reflexivity).
  assert (H4 : "string"%string ≠ "stream"%string) by discriminate.
  split; [exact H1|]. split; [exact H2|]. split.
  - exact (proj1 (proj2 (proj2 (xlen_replies (dbWith threeEntries) "XLEN" "s")))
             threeEntries H1 H2).
  - exact (proj2 (proj2 (proj2 (xlen_replies dbWithString "XLEN" "k")))
             "string"%string H3 H4).
Defined.

Lemma xadd_then_xlen_witness :
  ["f"; "v"]%string ≠ []
  ∧ Z.rem (len ["f"; "v"]%string) 2 = 0
  ∧ cmdXlen (dbWith threeEntries) "XLEN" ["s"]%string = [WriteInt 3]
  ∧ cmdXlen (cmdXadd 9000000 (dbWith threeEntries) "XADD"
               ["s"; "*"; "f"; "v"]%string).1 "XLEN" ["s"]%string
    = [WriteInt 4]
  ∧ cmdXlen (cmdXadd 9000000 (dbWith threeEntries) "XADD"
               ["s"; "MAXLEN"; "2"; "*"; "f"; "v"]%string).1 "XLEN" ["s"]%string
    = [WriteInt 2].
Proof.
  assert (H1 : ["f"; "v"]%string ≠ []) by discriminate.
  assert (H2 : Z.rem (len ["f"; "v"]%string) 2 = 0) by reflexivity.
  assert (H3 : cmdXlen (dbWith threeEntries) "XLEN" ["s"]%string = [WriteInt 3])
    by (vm_compute; reflexivity).
  destruct (xadd_then_xlen 9000000 (dbWith threeEntries) "XADD" "s" "*"
              ["f"; "v"]%string 3 H1 H2 H3) as [Hplain Hbound].
  split; [exact H1|]. split; [exact H2|]. split; [exact H3|]. split.
  - apply Hplain; [discriminate|]. eexists. vm_compute. reflexivity.
  - apply (Hbound "MAXLEN"%string "2"%string 2); [reflexivity|reflexivity|lia|].
    eexists. vm_compute. reflexivity.
Defined.

Lemma xdel_removes_the_named_witness :
  ["1-1"; "9-9"]%string ≠ []
  ∧ keys (dbWith threeEntries) !! "s"%string = Some "stream"%string
  ∧ streamKeys (dbWith threeEntries) !! "s"%string = Some threeEntries
  ∧ mapM parseStreamID ["1-1"; "9-9"]%string = Some [mkID 1 1; mkID 9 9]
  ∧ (cmdXdel (dbWith threeEntries) "XDEL" ["s"; "1-1"; "9-9"]%string).2
    = [WriteInt 1]
  ∧ keyVersion (cmdXdel (dbWith threeEntries) "XDEL" ["s"; "1-1"; "9-9"]%string).1
    !! "s"%string = Some 1.
Proof.
  assert (H0 : ["1-1"; "9-9"]%string ≠ []) by discriminate.
  assert (H1 : keys (dbWith threeEntries) !! "s"%string = Some "stream"%string)
    by (vm_compute; reflexivity).
  assert (H2 : streamKeys (dbWith threeEntries) !! "s"%string = Some threeEntries)
    by (vm_compute; reflexivity).
  assert (H3 : mapM parseStreamID ["1-1"; "9-9"]%string = Some [mkID 1 1; mkID 9 9])
    by (vm_compute; reflexivity).
  destruct (xdel_removes_the_named (dbWith threeEntries) "XDEL" "s"
              ["1-1"; "9-9"]%string _ _ H0 H1 H2 H3) as (Hout & _ & Hv & _).
  split; [exact H0|]. split; [exact H1|]. split; [exact H2|]. split; [exact H3|].
  split.
  - rewrite Hout. vm_compute. reflexivity.
  - rewrite Hv. vm_compute. reflexivity.
Defined.

Lemma xdel_then_xlen_witness :
  cmdXlen (dbWith threeEntries) "XLEN" ["s"]%string = [WriteInt 3]
  ∧ cmdXdel (dbWith threeEntries) "XDEL" ["s"; "1-1"; "9-9"]%string
    = ((cmdXdel (dbWith threeEntries) "XDEL" ["s"; "1-1"; "9-9"]%string).1,
       [WriteInt 1])
  ∧ cmdXlen (cmdXdel (dbWith threeEntries) "XDEL" ["s"; "1-1"; "9-9"]%string).1
      "XLEN" ["s"]%string
    = [WriteInt 2].
Proof.
  assert (H1 : cmdXlen (dbWith threeEntries) "XLEN" ["s"]%string = [WriteInt 3])
    by (vm_compute; reflexivity).
  assert (H2 : cmdXdel (dbWith threeEntries) "XDEL" ["s"; "1-1"; "9-9"]%string
               = ((cmdXdel (dbWith threeEntries) "XDEL"
                     ["s"; "1-1"; "9-9"]%string).1, [WriteInt 1]))
    by (vm_compute; reflexivity).
  split; [exact H1|]. split; [exact H2|].
  exact (proj2 (xdel_then_xlen (dbWith threeEntries) "XDEL" "s"
                  ["1-1"; "9-9"]%string 3 1 _ H1 H2)).
Defined.

Lemma xread_reports_newer_entries_witness :
  NoDup ["s"; "t"]%string
  ∧ xread (dbWith threeEntries) ["s"; "t"]%string [mkID 1 0; mkID 0 0] 0
    !! "s"%string
    = Some [mkEntry (mkID 1 1) ["b"; "2"]%string;
            mkEntry (mkID 7 3) ["c"; "3"]%string]
  ∧ xread (dbWith threeEntries) ["s"; "t"]%string [mkID 1 0; mkID 0 0] 0
    !! "t"%string = None.
Proof.
  assert (H1 : NoDup ["s"; "t"]%string).
  { apply NoDup_cons. split; [by intros [[=]|[]%elem_of_nil]%elem_of_cons|].
    apply NoDup_singleton. }
  destruct (xread_reports_newer_entries (dbWith threeEntries) ["s"; "t"]%string
              [mkID 1 0; mkID 0 0] 0 H1) as (Hin & _ & _).
  split; [exact H1|]. split.
  - rewrite (Hin "s"%string (mkID 1 0)) by left. vm_compute. reflexivity.
  - rewrite (Hin "t"%string (mkID 0 0)) by (right; left). vm_compute. reflexivity.
Defined.

Lemma xread_reply_announces_its_streams_witness :
  let res := xread (dbWith threeEntries) ["s"; "t"]%string [mkID 1 0; mkID 0 0] 0 in
  NoDup ["s"; "t"]%string
  ∧ (∀ k, is_Some (res !! k) → k ∈ ["s"; "t"]%string)
  ∧ res ≠ ∅
  ∧ writeXread ["s"; "t"]%string res
    = [WriteLen 1;
       WriteLen 2; WriteBulk "s"; WriteLen 2;
       WriteLen 2; WriteBulk "1-1"; WriteLen 2; WriteBulk "b"; WriteBulk "2";
       WriteLen 2; WriteBulk "7-3"; WriteLen 2; WriteBulk "c"; WriteBulk "3"].
Proof.
  intros res.
  assert (H1 : NoDup ["s"; "t"]%string).
  { apply NoDup_cons. split; [by intros [[=]|[]%elem_of_nil]%elem_of_cons|].
    apply NoDup_singleton. }
  assert (H2 : ∀ k, is_Some (res !! k) → k ∈ ["s"; "t"]%string).
  { intros k [es Hk].
    apply xread_lookup_inv in Hk as (id & Hin%elem_of_zip_l & _); done. }
  assert (H3 : res ≠ ∅).
  { intros Hres. apply (f_equal (λ m, m !! "s"%string)) in Hres.
    vm_compute in Hres. discriminate Hres. }
  split; [exact H1|]. split; [exact H2|]. split; [exact H3|].
  rewrite (proj1 (xread_reply_announces_its_streams ["s"; "t"]%string res H1 H2 H3)).
  vm_compute. reflexivity.
Defined.

Lemma parseBlock_keeps_the_timeout_witness :
  strconv.Atoi "100" = Some 100
  ∧ 0 ≤ 100 ≤ 9223372036854
  ∧ opt_blockTimeout
      (parseBlock "XREAD" ["BLOCK"; "100"; "STREAMS"; "s"; "0"]%string blockedOpts).1
    = 100 * 1000000
  ∧ strconv.Atoi "9223372036855" = Some 9223372036855
  ∧ opt_blockTimeout
      (parseBlock "XREAD" ["BLOCK"; "9223372036855"]%string blockedOpts).1
    ≠ 9223372036855 * 1000000.
Proof.
  assert (H1 : strconv.Atoi "100" = Some 100) by reflexivity.
  assert (H2 : 0 ≤ 100 ≤ 9223372036854) by lia.
  assert (H3 : strconv.Atoi "9223372036855" = Some 9223372036855)
    by (vm_compute; reflexivity).
  split; [exact H1|]. split; [exact H2|]. split; [|split; [exact H3|]].
  - exact (proj1 (proj1 (proj2 (proj2
             (parseBlock_keeps_the_timeout "XREAD" "BLOCK" "100"
                ["STREAMS"; "s"; "0"]%string blockedOpts 100 H1))) H2)).
  - apply (proj2 (proj2 (proj2
             (parseBlock_keeps_the_timeout "XREAD" "BLOCK" "9223372036855"
                [] blockedOpts 9223372036855 H3)))). lia.
Defined.

Lemma xgroup_create_twice_witness :
  let first := cmdXgroup (dbWith oneEntry) "XGROUP" ["CREATE"; "s"; "g"; "$"]%string in
  ToUpper "CREATE" = "CREATE"%string
  ∧ first = (first.1, [WriteOK])
  ∧ cmdXgroup first.1 "XGROUP" ["CREATE"; "s"; "g"; "0"; "MKSTREAM"]%string
    = (first.1, [WriteError "BUSYGROUP Consumer Group name already exists"]).
Proof.
  intros first.
  assert (H1 : ToUpper "CREATE" = "CREATE"%string) by reflexivity.
  assert (H2 : first = (first.1, [WriteOK])) by (vm_compute; reflexivity).
  split; [exact H1|]. split; [exact H2|].
  exact (xgroup_create_twice (dbWith oneEntry) "XGROUP" "CREATE" "s" "g" "$" []
           first.1 "0" ["MKSTREAM"%string] H1
           (le_S _ _ (le_n 0)) (le_n 1) H2).
Defined.


Lemma xinfo_stream_reports_length_witness :
  ToUpper "stream" = "STREAM"%string
  ∧ cmdXlen (dbWith threeEntries) "XLEN" ["s"]%string = [WriteInt 3]
  ∧ cmdXinfo (dbWith threeEntries) "XINFO" ["stream"; "s"; "FULL"]%string
    = [WriteMapLen 1; Call (WriteBulk "length"); Call (WriteInt 3)]
  ∧ cmdXlen emptyDB "XLEN" ["s"]%string = [WriteInt 0]
  ∧ cmdXinfo emptyDB "XINFO" ["stream"; "s"]%string
    = [Call (WriteError "ERR no such key")].
Proof.
  assert (H1 : ToUpper "stream" = "STREAM"%string) by reflexivity.
  assert (H2 : cmdXlen (dbWith threeEntries) "XLEN" ["s"]%string = [WriteInt 3])
    by (vm_compute; reflexivity).
  assert (H3 : cmdXlen emptyDB "XLEN" ["s"]%string = [WriteInt 0])
    by (vm_compute; reflexivity).
  split; [exact H1|]. split; [exact H2|]. split; [|split; [exact H3|]].
  - rewrite (xinfo_stream_reports_length (dbWith threeEntries) "XINFO" "stream" "s"
               ["FULL"%string] 3 H1 H2).
    vm_compute. reflexivity.
  - rewrite (xinfo_stream_reports_length emptyDB "XINFO" "stream" "s" [] 0 H1 H3).
    vm_compute. reflexivity.
Defined.

Lemma unsupported_subcommands_witness :
  cmdXgroup (dbWith oneEntry) "XGROUP" ["DESTROY"; "s"; "g"]%string
  = (dbWith oneEntry,
     [SetDirty; WriteError "ERR 'XGROUP DESTROY s g' not supported"])
  ∧ cmdXinfo (dbWith oneEntry) "XINFO" ["groups"; "s"]%string
    = [Call SetDirty; Call (WriteError "'XINFO groups s' not supported")].
Proof.
  destruct (unsupported_subcommands (dbWith oneEntry) "XGROUP"
              ["DESTROY"; "s"; "g"]%string) as (Hgroup & _).
  destruct (unsupported_subcommands (dbWith oneEntry) "XINFO"
              ["groups"; "s"]%string) as (_ & Hinfo & _).
  split.
  - rewrite Hgroup; [vm_compute; reflexivity|]. left. simpl. lia.
  - rewrite (Hinfo "groups"%string eq_refl); [vm_compute; reflexivity|].
    right; left.
Defined.

Lemma on_a_key_of_another_type_witness :
  keys dbWithString !! "k"%string = Some "string"%string
  ∧ "string"%string ≠ "stream"%string
  ∧ streamKeys dbWithString !! "k"%string = None
  ∧ cmdXadd 0 dbWithString "XADD" ["k"; "*"; "f"; "v"]%string
    = (dbWithString, [WriteError msgWrongType])
  ∧ cmdXread dbWithString "XREAD" ["STREAMS"; "k"; "0"]%string
    = Replied dbWithString [WriteLen (-1)].
Proof.
  assert (H1 : keys dbWithString !! "k"%string = Some "string"%string)
    by (vm_compute; reflexivity).
  assert (H2 : "string"%string ≠ "stream"%string) by discriminate.
  assert (H3 : streamKeys dbWithString !! "k"%string = None)
    by (vm_compute; reflexivity).
  destruct (on_a_key_of_another_type dbWithString "k" "string" H1 H2 H3)
    as (Hadd & _ & _ & _ & _ & _ & _ & _ & _ & Hread).
  split; [exact H1|]. split; [exact H2|]. split; [exact H3|]. split.
  - apply Hadd; [discriminate|discriminate|reflexivity].
  - apply (Hread "XREAD"%string "STREAMS"%string "0"%string (mkID 0 0));
      [reflexivity|vm_compute; reflexivity].
Defined.

Lemma on_a_key_that_is_not_there_witness :
  keys emptyDB !! "s"%string = None
  ∧ streamKeys emptyDB !! "s"%string = None
  ∧ cmdXdel emptyDB "XDEL" ["s"; "1-0"]%string = (emptyDB, [WriteInt 0])
  ∧ cmdXreadgroup 0 emptyDB "XREADGROUP"
      ["GROUP"; "g"; "alice"; "STREAMS"; "s"; ">"]%string
    = Replied emptyDB [WriteError (msgXreadgroup "s" "g")]
  ∧ cmdXpending 0 emptyDB "XPENDING" ["s"; "g"]%string
    = [WriteError (msgReadgroup "s" "g")].
Proof.
  destruct (on_a_key_that_is_not_there emptyDB "s" eq_refl eq_refl)
    as (_ & Hdel & _ & _ & _ & Hread & Hpending).
  split; [reflexivity|]. split; [reflexivity|]. split; [apply Hdel|]. split.
  - by apply Hread.
  - apply Hpending.
Defined.

Lemma xrevrange_wants_the_upper_end_first_witness :
  keys (dbWith threeEntries) !! "s"%string = Some "stream"%string
  ∧ streamKeys (dbWith threeEntries) !! "s"%string = Some threeEntries
  ∧ reachable threeEntries
  ∧ makeCmdXrange true (dbWith threeEntries) "XREVRANGE" ["s"; "-"; "+"]%string
    = [WriteLen 0].
Proof.
  assert (H1 : keys (dbWith threeEntries) !! "s"%string = Some "stream"%string)
    by (vm_compute; reflexivity).
  assert (H2 : streamKeys (dbWith threeEntries) !! "s"%string = Some threeEntries)
    by (vm_compute; reflexivity).
  split; [exact H1|]. split; [exact H2|]. split; [exact threeEntries_reachable|].
  exact (xrevrange_wants_the_upper_end_first (dbWith threeEntries) "XREVRANGE" "s"
           threeEntries H1 H2 threeEntries_reachable).
Defined.

Lemma handlers_keep_the_database_consistent_witness :
  consistent emptyDB
  ∧ consistent (cmdXadd 1000000 emptyDB "XADD" ["s"; "*"; "f"; "v"]%string).1
  ∧ consistent
      (cmdXgroup (cmdXadd 1000000 emptyDB "XADD" ["s"; "*"; "f"; "v"]%string).1
         "XGROUP" ["CREATE"; "s"; "g"; "0"]%string).1.
Proof.
  assert (H1 : consistent
                 (cmdXadd 1000000 emptyDB "XADD" ["s"; "*"; "f"; "v"]%string).1).
  { refine (proj1 (handlers_keep_the_database_consistent "XADD"
                     (λ now db cmd args, (cmdXadd now db cmd args).1)
                     1000000 emptyDB "XADD" ["s"; "*"; "f"; "v"]%string _
                     emptyDB_consistent)).
    left. }
  split; [exact emptyDB_consistent|]. split; [exact H1|].
  refine (proj1 (handlers_keep_the_database_consistent "XGROUP"
                   (λ _ db cmd args, (cmdXgroup db cmd args).1)
                   0 _ "XGROUP" ["CREATE"; "s"; "g"; "0"]%string _ H1)).
  do 5 right. left.
Defined.

Lemma stream_commands_never_panic_witness :
  inStep emptyDB
  ∧ (Panic ∉ (cmdXadd 0 emptyDB "XADD" ["s"; "MAXLEN"; "~"; "1"]%string).2)
  ∧ (Panic ∉ makeCmdXrange false emptyDB "XRANGE" ["s"; "-"; "+"; "COUNT"]%string).
Proof.
  destruct (stream_commands_never_panic 0 emptyDB "XADD"
              ["s"; "MAXLEN"; "~"; "1"]%string (proj1 emptyDB_consistent))
    as (Hadd & _).
  destruct (stream_commands_never_panic 0 emptyDB "XRANGE"
              ["s"; "-"; "+"; "COUNT"]%string (proj1 emptyDB_consistent))
    as (_ & _ & Hrange & _).
  split; [exact (proj1 emptyDB_consistent)|]. split; [exact Hadd|].
  exact (Hrange false).
Defined.

Lemma busyGroup_registered : registered busyGroup.
Proof.
  intros p Hp. unfold busyGroup in Hp. simpl in Hp.
  repeat (apply elem_of_cons in Hp as [->|Hp]); try (by vm_compute; eauto).
  by apply elem_of_nil in Hp.
Qed.

Lemma xpending_counts_add_up_witness :
  registered busyGroup
  ∧ sortedConsumers (pendingByConsumer busyGroup) = ["alice"; "bob"]%string
  ∧ pendingCount busyGroup "alice" + (pendingCount busyGroup "bob" + 0)
    = len (pending busyGroup).
Proof.
  assert (H2 : sortedConsumers (pendingByConsumer busyGroup)
               = ["alice"; "bob"]%string) by (vm_compute; reflexivity).
  pose proof (xpending_counts_add_up busyGroup busyGroup_registered) as Hsum.
  rewrite H2 in Hsum.
  split; [exact busyGroup_registered|]. split; [exact H2|exact Hsum].
Defined.

Lemma xreadgroup_error_keeps_earlier_reads_witness :
  "s"%string ≠ "t"%string
  ∧ groups drained !! "g"%string = Some (mkGroup (mkID 5 1) [] ∅)
  ∧ xreadgroup (dbWith drained) "g" "alice" false ["s"; "t"]%string
      [">"; ">"]%string 0 0
    = (afterIdleRead, inl (errXreadgroup "t" "g"))
  ∧ afterIdleRead ≠ dbWith drained.
Proof.
  assert (H1 : "s"%string ≠ "t"%string) by discriminate.
  assert (H2 : groups drained !! "g"%string = Some (mkGroup (mkID 5 1) [] ∅))
    by (vm_compute; reflexivity).
  assert (Hk : keys (dbWith drained) !! "s"%string = Some "stream"%string)
    by (vm_compute; reflexivity).
  assert (Hs : streamKeys (dbWith drained) !! "s"%string = Some drained)
    by (vm_compute; reflexivity).
  split; [exact H1|]. split; [exact H2|]. split.
  - rewrite (xreadgroup_error_keeps_earlier_reads (dbWith drained) "g" "alice"
               false "s" ">" "t" ">" [] [] 0 0 drained _ H1 Hk Hs H2
               (or_introl eq_refl) eq_refl eq_refl).
    vm_compute. reflexivity.
  - intros Heq.
    apply (f_equal (λ db, (λ s, (λ g, consumers g !! "alice"%string)
                                  <$> groups s !! "g"%string)
                            <$> streamKeys db !! "s"%string)) in Heq.
    vm_compute in Heq. discriminate Heq.
Defined.


(** *** The string commands *)

Lemma delKey_frame : cmd_string.delFrame cmd_string.delKey.
Proof. intros db k k' Hne. simpl. by rewrite !lookup_delete_ne. Qed.

Lemma set_then_get_witness :
  let r := cmd_string.SET cmd_string.delKey oneString
             ["k"; "new"; "ex"; "10"]%string in
  r = (r.1, [cmd_string.WriteOK])
  ∧ cmd_string.GET oneString ["k"]%string = [cmd_string.WriteString "old"]
  ∧ cmd_string.GET r.1 ["k"]%string = [cmd_string.WriteString "new"]
  ∧ cmd_string.Get r.1 "k" = "new"%string.
Proof.
  intros r.
  assert (H1 : r = (r.1, [cmd_string.WriteOK])) by (vm_compute; reflexivity).
  destruct (set_then_get cmd_string.delKey oneString "k" "new"
              ["ex"; "10"]%string r.1 H1) as (Hget & Hacc & _).
  split; [exact H1|]. split; [vm_compute; reflexivity|].
  split; [exact Hget|exact Hacc].
Defined.

Lemma set_nx_xx_conditions_witness :
  ToUpper "nx" = "NX"%string
  ∧ ToUpper "xx" = "XX"%string
  ∧ cmd_string.SET cmd_string.delKey oneString ["k"; "new"; "nx"]%string
    = (oneString, [cmd_string.WriteNil])
  ∧ cmd_string.SET cmd_string.delKey noStrings ["k"; "new"; "nx"; "xx"]%string
    = (noStrings, [cmd_string.WriteNil]).
Proof.
  assert (H1 : ToUpper "nx" = "NX"%string) by reflexivity.
  assert (H2 : ToUpper "xx" = "XX"%string) by reflexivity.
  split; [exact H1|]. split; [exact H2|]. split.
  - apply (proj1 (set_nx_xx_conditions cmd_string.delKey oneString "k" "new"
                    "nx" "xx" H1 H2)).
    vm_compute. eauto.
  - exact (proj1 (proj2 (proj2
             (set_nx_xx_conditions cmd_string.delKey noStrings "k" "new"
                "nx" "xx" H1 H2)))).
Defined.

Lemma setnx_sets_only_a_new_key_witness :
  cmd_string.SETNX oneString ["k"; "new"]%string
  = (oneString, [cmd_string.WriteZero])
  ∧ cmd_string.GET (cmd_string.SETNX noStrings ["k"; "new"]%string).1 ["k"]%string
    = [cmd_string.WriteString "new"].
Proof.
  split.
  - apply (proj1 (setnx_sets_only_a_new_key oneString "k" "new")).
    vm_compute. eauto.
  - exact (proj1 (proj2 (proj2 (setnx_sets_only_a_new_key noStrings "k" "new")
                           eq_refl))).
Defined.

Lemma mset_then_get_witness :
  cmd_string.delFrame cmd_string.delKey
  ∧ NoDup [("a", "1"); ("k", "2")]%string.*1
  ∧ ∃ db',
      cmd_string.MSET cmd_string.delKey oneString ["a"; "1"; "k"; "2"]%string
      = (db', [cmd_string.WriteOK])
      ∧ cmd_string.GET db' ["a"]%string = [cmd_string.WriteString "1"]
      ∧ cmd_string.GET db' ["k"]%string = [cmd_string.WriteString "2"].
Proof.
  assert (H1 : NoDup [("a", "1"); ("k", "2")]%string.*1).
  { simpl. apply NoDup_cons.
    split; [by intros [[=]|[]%elem_of_nil]%elem_of_cons|apply NoDup_singleton]. }
  destruct (proj2 (mset_then_get cmd_string.delKey oneString
                     [("a", "1"); ("k", "2")]%string) delKey_frame H1)
    as (db' & Hrun & Hget).
  split; [exact delKey_frame|]. split; [exact H1|]. exists db'.
  split; [exact Hrun|]. split.
  - apply (Hget "a"%string "1"%string). left.
  - apply (Hget "k"%string "2"%string). right; left.
Defined.

(** *** XACK and the options of XREADGROUP *)

(** The stream of [threeEntries] with the group "g" of [busyGroup]. *)
Lemma xack_removes_what_it_counts_witness :
  let s := withGroups threeEntries {[ "g"%string := busyGroup ]} in
  let r := cmdXack (dbWith s) "XACK" ["s"; "g"; "1-1"; "9-9"]%string in
  keys (dbWith s) !! "s"%string = Some "stream"%string
  ∧ streamKeys (dbWith s) !! "s"%string = Some s
  ∧ groups s !! "g"%string = Some busyGroup
  ∧ r = (r.1, [WriteInt 1])
  ∧ ∃ g', pid <$> pending g' = [mkID 1 0; mkID 7 3]
          ∧ 1 = len (pending busyGroup) - len (pending g').
Proof.
  intros s r.
  assert (H1 : keys (dbWith s) !! "s"%string = Some "stream"%string)
    by (vm_compute; reflexivity).
  assert (H2 : streamKeys (dbWith s) !! "s"%string = Some s)
    by (vm_compute; reflexivity).
  assert (H3 : groups s !! "g"%string = Some busyGroup)
    by (vm_compute; reflexivity).
  assert (H4 : r = (r.1, [WriteInt 1])) by (vm_compute; reflexivity).
  destruct (xack_removes_what_it_counts (dbWith s) "XACK" "s" "g"
              ["1-1"; "9-9"]%string r.1 1 s busyGroup H1 H2 H3 H4)
    as (parsed & g' & Hp & _ & Hpending & Hn & _).
  split; [exact H1|]. split; [exact H2|]. split; [exact H3|]. split; [exact H4|].
  exists g'. split; [|exact Hn].
  rewrite Hpending.
  assert (parsed = [mkID 1 1; mkID 9 9]) as ->.
  { vm_compute in Hp. by injection Hp as <-. }
  vm_compute. reflexivity.
Defined.

Lemma xreadgroup_pairs_streams_with_ids_witness :
  xreadgroupOpts "XREADGROUP"
    ["GROUP"; "g"; "alice"; "BLOCK"; "100"; "STREAMS"; "s"; "s"; ">"; "0"]%string
  = inr blockedOpts
  ∧ ∃ front kw,
      ["GROUP"; "g"; "alice"; "BLOCK"; "100"; "STREAMS"; "s"; "s"; ">"; "0"]%string
      = front ++ kw :: ["s"; "s"]%string ++ [">"; "0"]%string
      ∧ ToUpper kw = "STREAMS"%string.
Proof.
  assert (H1 : xreadgroupOpts "XREADGROUP"
     ["GROUP"; "g"; "alice"; "BLOCK"; "100"; "STREAMS"; "s"; "s"; ">"; "0"]%string
     = inr blockedOpts) by (vm_compute; reflexivity).
  destruct (xreadgroup_pairs_streams_with_ids _ _ _ H1)
    as (front & kw & Hargs & Hkw & _).
  split; [exact H1|]. exists front, kw. split; [exact Hargs|exact Hkw].
Defined.

Lemma setex_and_the_accessors_witness :
  strconv.Atoi "0" = Some 0
  ∧ cmd_string.GET (cmd_string.SETEX cmd_string.delKey oneString
                      ["k"; "0"; "new"]%string).1 ["k"]%string
    = [cmd_string.WriteString "new"]
  ∧ cmd_string.expire (cmd_string.SETEX cmd_string.delKey oneString
                         ["k"; "0"; "new"]%string).1 !! "k"%string
    = Some 0.
Proof.
  assert (H1 : strconv.Atoi "0" = Some 0) by reflexivity.
  destruct (setex_and_the_accessors cmd_string.delKey oneString "k" "0" "new" 0 H1)
    as (_ & Hget & Hexp & _).
  split; [exact H1|]. split; [exact Hget|exact Hexp].
Defined.

Lemma xread_waits_only_without_news_witness :
  3 ≤ len ["BLOCK"; "100"; "STREAMS"; "s"; "7-3"]%string
  ∧ xreadArgs "XREAD" ["BLOCK"; "100"; "STREAMS"; "s"; "7-3"]%string
      (mkXreadOpts 0 [] [] false 0)
    = inr (mkXreadOpts 0 ["s"]%string [mkID 7 3] true 100000000, None)
  ∧ cmdXread (dbWith threeEntries) "XREAD"
      ["BLOCK"; "100"; "STREAMS"; "s"; "7-3"]%string
    = Waiting (dbWith threeEntries) 100000000
  ∧ xreadArgs "XREAD" ["BLOCK"; "100"; "STREAMS"; "s"; "1-1"]%string
      (mkXreadOpts 0 [] [] false 0)
    = inr (mkXreadOpts 0 ["s"]%string [mkID 1 1] true 100000000, None)
  ∧ cmdXread (dbWith threeEntries) "XREAD"
      ["BLOCK"; "100"; "STREAMS"; "s"; "1-1"]%string
    = Replied (dbWith threeEntries)
        [WriteLen 1; WriteLen 2; WriteBulk "s"; WriteLen 1;
         WriteLen 2; WriteBulk "7-3"; WriteLen 2; WriteBulk "c"; WriteBulk "3"].
Proof.
  assert (H1 : 3 ≤ len ["BLOCK"; "100"; "STREAMS"; "s"; "7-3"]%string)
    by (vm_compute; discriminate).
  assert (H2 : xreadArgs "XREAD" ["BLOCK"; "100"; "STREAMS"; "s"; "7-3"]%string
                 (mkXreadOpts 0 [] [] false 0)
               = inr (mkXreadOpts 0 ["s"]%string [mkID 7 3] true 100000000, None))
    by (vm_compute; reflexivity).
  assert (H3 : 3 ≤ len ["BLOCK"; "100"; "STREAMS"; "s"; "1-1"]%string)
    by (vm_compute; discriminate).
  assert (H4 : xreadArgs "XREAD" ["BLOCK"; "100"; "STREAMS"; "s"; "1-1"]%string
                 (mkXreadOpts 0 [] [] false 0)
               = inr (mkXreadOpts 0 ["s"]%string [mkID 1 1] true 100000000, None))
    by (vm_compute; reflexivity).
  split; [exact H1|]. split; [exact H2|]. split; [|split; [exact H4|]].
  - rewrite (proj1 (proj2 (xread_waits_only_without_news (dbWith threeEntries)
                             "XREAD" _ _ H1 H2))).
    vm_compute. reflexivity.
  - rewrite (proj1 (proj2 (xread_waits_only_without_news (dbWith threeEntries)
                             "XREAD" _ _ H3 H4))).
    vm_compute. reflexivity.
Defined.
